(** * Signature extraction of [dev_tools/generate_repo_map.py]

    A shallow embedding of the three signature extractors
    ([extract_python_signatures], [extract_js_signatures],
    [extract_shell_signatures]) together with the regular expressions they
    are driven by, and the properties of the extraction engine.

    Python text is a sequence of Unicode code points; a [str] is a list of
    code points.  The regular expressions of the script are transcribed
    into a small abstract syntax and run by a backtracking matcher that
    enumerates the candidate matches in the priority order of Python's
    [re] module (greedy quantifiers, left alternative first).

    The rest of the script is embedded as well: the ignore rules
    ([should_ignore_dir], [should_ignore_file]), [get_file_extension], the
    dispatcher [extract_signatures] and [generate_project_map], whose walk
    runs over the directory tree that [os.walk] reports.  Only [main],
    which prints and writes the map to a file, is left out. *)

From Stdlib Require Import String Ascii NArith Bool Arith Lia List Permutation
  Sorted.
Import ListNotations.

(** ** Characters and strings *)

Definition char := N.
Definition str := list char.

(** A literal of the script, as the list of its code points. *)
Definition lit_str (s : string) : str :=
  map N_of_ascii (list_ascii_of_string s).

Coercion lit_str : string >-> str.

Definition chr (a : ascii) : char := N_of_ascii a.

(** A line as [readlines] returns it, with its newline. *)
Definition line_of (s : string) : str := lit_str s ++ [10%N].

Fixpoint str_eqb (a b : str) : bool :=
  match a, b with
  | [], [] => true
  | x :: a', y :: b' => N.eqb x y && str_eqb a' b'
  | _, _ => false
  end.

(** The character tables of the Python runtime that the script relies on
    for code points outside ASCII: [str.isspace] (used by the class of
    whitespace, [strip] and [split]), [str.isalnum] (used by the class of
    word characters) and [str.lower].  The ASCII part of each table is
    written out below. *)
Class UnicodeDB := {
  uni_space : char -> bool;
  uni_alnum : char -> bool;
  uni_lower : str -> str;
  uni_alnum_not_space : forall c, uni_alnum c = true -> uni_space c = false
}.

(** A database with nothing outside ASCII; enough to run ASCII inputs. *)
#[export] Instance ascii_db : UnicodeDB := {|
  uni_space := fun _ => false;
  uni_alnum := fun _ => false;
  uni_lower := fun s => s;
  uni_alnum_not_space := fun _ _ => eq_refl
|}.

Definition is_ascii (c : char) : bool := N.ltb c 128.

(** ASCII whitespace: TAB, LF, VT, FF, CR, FS, GS, RS, US and space. *)
Definition ascii_space (c : char) : bool :=
  (N.leb 9 c && N.leb c 13) || (N.leb 28 c && N.leb c 32).

(** ASCII word characters: [a-zA-Z0-9_]. *)
Definition ascii_word (c : char) : bool :=
  (N.leb 48 c && N.leb c 57) || (N.leb 65 c && N.leb c 90)
  || (N.leb 97 c && N.leb c 122) || N.eqb c 95.

Definition ascii_lower (c : char) : char :=
  if N.leb 65 c && N.leb c 90 then N.add c 32 else c.

Section Tables.
Context {db : UnicodeDB}.

Definition is_space (c : char) : bool :=
  if is_ascii c then ascii_space c else uni_space c.

Definition is_word (c : char) : bool :=
  if is_ascii c then ascii_word c else uni_alnum c.

(** [s.lower()] *)
Definition lower (s : str) : str :=
  if forallb is_ascii s then map ascii_lower s else uni_lower s.

End Tables.

(** ** String helpers of the script *)

Fixpoint take_while (p : char -> bool) (s : str) : str :=
  match s with
  | c :: t => if p c then c :: take_while p t else []
  | [] => []
  end.

Fixpoint drop_while (p : char -> bool) (s : str) : str :=
  match s with
  | c :: t => if p c then drop_while p t else s
  | [] => []
  end.

Section StringOps.
Context {db : UnicodeDB}.

(** The leading-whitespace prefix of a line. *)
Definition leading_ws (s : str) : str := take_while is_space s.

Definition lstrip (s : str) : str := drop_while is_space s.
Definition rstrip (s : str) : str := rev (drop_while is_space (rev s)).

(** [s.strip()] *)
Definition strip (s : str) : str := rstrip (lstrip s).

(** [s.rstrip(c)] for a one-character argument. *)
Definition rstrip_char (c : char) (s : str) : str :=
  rev (drop_while (N.eqb c) (rev s)).

(** [s.split(c)]: the pieces between the occurrences of [c]; never empty. *)
Fixpoint split_char (c : char) (s : str) : list str :=
  match s with
  | [] => [[]]
  | x :: t =>
      if N.eqb x c then [] :: split_char c t
      else match split_char c t with
           | w :: ws => (x :: w) :: ws
           | [] => [[x]]
           end
  end.

(** [s.split()]: the maximal runs of non-whitespace characters. *)
Fixpoint split_ws_aux (cur : str) (s : str) : list str :=
  match s with
  | [] => match cur with [] => [] | _ => [rev cur] end
  | x :: t =>
      if is_space x
      then match cur with
           | [] => split_ws_aux [] t
           | _ => rev cur :: split_ws_aux [] t
           end
      else split_ws_aux (x :: cur) t
  end.

Definition split_ws (s : str) : list str := split_ws_aux [] s.

(** The first token of a stripped line in the words of the specification:
    the text up to the first opening parenthesis or the first whitespace
    character, whichever comes first. *)
Definition first_token (stripped : str) : str :=
  take_while (fun c => negb (N.eqb c (chr "(")) && negb (is_space c)) stripped.

End StringOps.

(** ** Regular expressions *)

Inductive cls :=
| CSpace                (* \s *)
| CWord                 (* \w *)
| CNot (c : char).      (* [^c] *)

Inductive regex :=
| Eps
| Chr (c : char)
| Cls (k : cls)
| Seq (a b : regex)
| Alt (a b : regex)
| Opt (a : regex)       (* a?  greedy *)
| Star (a : regex)      (* a*  greedy *)
| Plus (a : regex).     (* a+  greedy *)

(** A literal word of a pattern. *)
Fixpoint lit_chars (s : str) : regex :=
  match s with
  | [] => Eps
  | [c] => Chr c
  | c :: t => Seq (Chr c) (lit_chars t)
  end.

Definition lit (s : string) : regex := lit_chars s.

Fixpoint seqs (rs : list regex) : regex :=
  match rs with
  | [] => Eps
  | [r] => r
  | r :: t => Seq r (seqs t)
  end.

Section Matcher.
Context {db : UnicodeDB}.

Definition in_cls (k : cls) (c : char) : bool :=
  match k with
  | CSpace => is_space c
  | CWord => is_word c
  | CNot x => negb (N.eqb c x)
  end.

(** A candidate match: the text consumed and the text left. *)
Definition cand := (str * str)%type.

Definition extend (pre : str) (c : cand) : cand := (pre ++ fst c, snd c).

(** Greedy iteration: one more round first, stopping last.  A round that
    consumes nothing is not repeated. *)
Fixpoint star_n (step : str -> list cand) (n : nat) (s : str) : list cand :=
  match n with
  | O => [([], s)]
  | S n' =>
      flat_map (fun c : cand =>
                  if Nat.ltb (length (snd c)) (length s)
                  then map (extend (fst c)) (star_n step n' (snd c))
                  else [])
               (step s)
      ++ [([], s)]
  end.

(** All the ways [r] matches a prefix of [s], in the order backtracking
    tries them. *)
Fixpoint matches (r : regex) : str -> list cand :=
  match r with
  | Eps => fun s => [([], s)]
  | Chr c => fun s =>
      match s with
      | x :: t => if N.eqb x c then [([x], t)] else []
      | [] => []
      end
  | Cls k => fun s =>
      match s with
      | x :: t => if in_cls k x then [([x], t)] else []
      | [] => []
      end
  | Seq a b => fun s =>
      flat_map (fun c : cand => map (extend (fst c)) (matches b (snd c)))
               (matches a s)
  | Alt a b => fun s => matches a s ++ matches b s
  | Opt a => fun s => matches a s ++ [([], s)]
  | Star a => fun s => star_n (matches a) (length s) s
  | Plus a => fun s =>
      flat_map (fun c : cand =>
                  map (extend (fst c))
                      (star_n (matches a) (length (snd c)) (snd c)))
               (matches a s)
  end.

(** Every pattern of the script has the shape [^ ( \s* ) ( BODY ) REST] with
    exactly these two groups; [REST] is what must follow group 2. *)
Record pattern := Pattern { body : regex; rest : regex }.

(** [p.match(line)]: groups 1 and 2 of the first successful candidate. *)
Definition re_match (p : pattern) (line : str) : option (str * str) :=
  hd_error
    (flat_map (fun c1 : cand =>
       flat_map (fun c2 : cand =>
          map (fun _ : cand => (fst c1, fst c2)) (matches (rest p) (snd c2)))
         (matches (body p) (snd c1)))
       (matches (Star (Cls CSpace)) line)).

End Matcher.

(** ** The patterns of the script *)

Definition ws := Cls CSpace.
Definition word := Plus (Cls CWord).

(** [^ ( \s* ) ( class \s+ \w+ [^:]* ) :] *)
Definition PY_CLASS_PATTERN : pattern :=
  Pattern (seqs [lit "class"; Plus ws; word; Star (Cls (CNot (chr ":")))])
          (Chr (chr ":")).

(** [^ ( \s* ) ( (?:async \s+)? def \s+ \w+ \s* \( [^)]* \) [^:]* ) :] *)
Definition PY_FUNC_PATTERN : pattern :=
  Pattern (seqs [Opt (Seq (lit "async") (Plus ws)); lit "def"; Plus ws; word;
                 Star ws; Chr (chr "("); Star (Cls (CNot (chr ")")));
                 Chr (chr ")"); Star (Cls (CNot (chr ":")))])
          (Chr (chr ":")).

(** [^ ( \s* ) ( @ \w+ (?: \. \w+ )* (?: \( [^)]* \) )? )] *)
Definition PY_DECORATOR_PATTERN : pattern :=
  Pattern (seqs [Chr (chr "@"); word; Star (Seq (Chr (chr ".")) word);
                 Opt (seqs [Chr (chr "("); Star (Cls (CNot (chr ")")));
                            Chr (chr ")")])])
          Eps.


(** [^ ( \s* ) ( (?:export \s+)? (?:default \s+)? class \s+ \w+ [^{]* )] *)
Definition JS_CLASS_PATTERN : pattern :=
  Pattern (seqs [Opt (Seq (lit "export") (Plus ws));
                 Opt (Seq (lit "default") (Plus ws));
                 lit "class"; Plus ws; word; Star (Cls (CNot (chr "{")))])
          Eps.

(** [^ ( \s* ) ( (?:export \s+)? (?:default \s+)? (?:async \s+)?
                 function \s+ \w+ \s* \( [^)]* \) [^{]* )] *)
Definition JS_FUNC_PATTERN : pattern :=
  Pattern (seqs [Opt (Seq (lit "export") (Plus ws));
                 Opt (Seq (lit "default") (Plus ws));
                 Opt (Seq (lit "async") (Plus ws));
                 lit "function"; Plus ws; word; Star ws;
                 Chr (chr "("); Star (Cls (CNot (chr ")"))); Chr (chr ")");
                 Star (Cls (CNot (chr "{")))])
          Eps.

Definition const_let_var : regex :=
  Alt (lit "const") (Alt (lit "let") (lit "var")).

(** [^ ( \s* ) ( (?:export \s+)? (?:const|let|var) \s+ \w+ \s* = \s*
                 (?:async \s+)? \( [^)]* \) \s* => )] *)
Definition JS_ARROW_PATTERN : pattern :=
  Pattern (seqs [Opt (Seq (lit "export") (Plus ws)); const_let_var; Plus ws;
                 word; Star ws; Chr (chr "="); Star ws;
                 Opt (Seq (lit "async") (Plus ws));
                 Chr (chr "("); Star (Cls (CNot (chr ")"))); Chr (chr ")");
                 Star ws; lit "=>"])
          Eps.

(** [^ ( \s* ) ( (?:export \s+)? (?:const|let|var) \s+ \w+ \s* = \s*
                 (?:async \s+)? \w+ \s* => )] *)
Definition JS_ARROW_SIMPLE_PATTERN : pattern :=
  Pattern (seqs [Opt (Seq (lit "export") (Plus ws)); const_let_var; Plus ws;
                 word; Star ws; Chr (chr "="); Star ws;
                 Opt (Seq (lit "async") (Plus ws));
                 word; Star ws; lit "=>"])
          Eps.

(** [^ ( \s* ) ( (?:async \s+)? (?:get \s+|set \s+)? \w+ \s*
                 \( [^)]* \) \s* \{ )] *)
Definition JS_METHOD_PATTERN : pattern :=
  Pattern (seqs [Opt (Seq (lit "async") (Plus ws));
                 Opt (Alt (Seq (lit "get") (Plus ws))
                          (Seq (lit "set") (Plus ws)));
                 word; Star ws;
                 Chr (chr "("); Star (Cls (CNot (chr ")"))); Chr (chr ")");
                 Star ws; Chr (chr "{")])
          Eps.

(** [^ ( \s* ) ( (?:export \s+)? interface \s+ \w+ [^{]* )] *)
Definition JS_INTERFACE_PATTERN : pattern :=
  Pattern (seqs [Opt (Seq (lit "export") (Plus ws));
                 lit "interface"; Plus ws; word;
                 Star (Cls (CNot (chr "{")))])
          Eps.

(** [^ ( \s* ) ( (?:export \s+)? type \s+ \w+ \s* = )] *)
Definition JS_TYPE_PATTERN : pattern :=
  Pattern (seqs [Opt (Seq (lit "export") (Plus ws));
                 lit "type"; Plus ws; word; Star ws; Chr (chr "=")])
          Eps.

(** Control flow keywords excluded from signatures. *)
Definition CONTROL_FLOW_KEYWORDS : list str :=
  map lit_str
    ["if"; "else"; "for"; "while"; "switch"; "case"; "catch"; "try";
     "finally"; "return"; "throw"; "break"; "continue"; "do";
     "with"]%string.

(** [^ ( \s* ) ( \w+ \s* \( \) \s* \{ )] *)
Definition SH_FUNC_PATTERN : pattern :=
  Pattern (seqs [word; Star ws; Chr (chr "("); Chr (chr ")"); Star ws;
                 Chr (chr "{")])
          Eps.

(** [^ ( \s* ) ( function \s+ \w+ )] *)
Definition SH_FUNC_KEYWORD_PATTERN : pattern :=
  Pattern (seqs [lit "function"; Plus ws; word]) Eps.

(** ** Reading a file *)

(** What lies under a path: something that cannot be opened or read, of
    which the script only sees the message of the exception, or the bytes
    of a file. *)
Inductive file :=
| Unreadable (e : str)
| Content (bytes : list N).

Definition filesystem := str -> file.

(** The UTF-8 decoder, byte by byte.  In [Need k acc lo hi] the next byte
    must lie in [lo..hi] and [k] more continuation bytes follow it. *)
Inductive utf8_state :=
| Start
| Need (k : nat) (acc lo hi : N).

Inductive utf8_step :=
| Emit (c : char)
| Wait (st : utf8_state)
| Bad.

(** A byte taken as the first of a sequence. *)
Definition utf8_lead (b : N) : utf8_step :=
  if N.ltb b 128 then Emit b
  else if N.leb 194 b && N.leb b 223 then Wait (Need 0 (b - 192) 128 191)
  else if N.eqb b 224 then Wait (Need 1 0 160 191)
  else if N.eqb b 237 then Wait (Need 1 13 128 159)
  else if N.leb 225 b && N.leb b 239 then Wait (Need 1 (b - 224) 128 191)
  else if N.eqb b 240 then Wait (Need 2 0 144 191)
  else if N.leb 241 b && N.leb b 243 then Wait (Need 2 (b - 240) 128 191)
  else if N.eqb b 244 then Wait (Need 2 4 128 143)
  else Bad.

(** The decoded characters in order, with [None] wherever a strict decoder
    would raise. *)
Fixpoint utf8_scan (st : utf8_state) (bs : list N) : list (option char) :=
  match bs with
  | [] => match st with Start => [] | Need _ _ _ _ => [None] end
  | b :: t =>
      let fresh :=
        match utf8_lead b with
        | Emit c => Some c :: utf8_scan Start t
        | Wait st' => utf8_scan st' t
        | Bad => None :: utf8_scan Start t
        end in
      match st with
      | Start => fresh
      | Need k acc lo hi =>
          if N.leb lo b && N.leb b hi then
            let acc' := (acc * 64 + (b - 128))%N in
            match k with
            | O => Some acc' :: utf8_scan Start t
            | S k' => utf8_scan (Need k' acc' 128 191) t
            end
          else None :: fresh
      end
  end.

(** The bytes are valid UTF-8: a strict decoder accepts them. *)
Definition utf8_valid (bs : list N) : bool :=
  forallb (fun o : option char => match o with Some _ => true | None => false end)
          (utf8_scan Start bs).

(** [bytes.decode('utf-8', errors='ignore')]: what cannot be decoded is
    left out. *)
Definition utf8_decode_ignore (bs : list N) : str :=
  flat_map (fun o : option char => match o with Some c => [c] | None => [] end)
           (utf8_scan Start bs).

(** Text mode with universal newlines, then [readlines()]: a line ends
    after LF, CR or CR LF, each handed over as LF. *)
Fixpoint split_lines (cur : str) (s : str) : list str :=
  match s with
  | [] => match cur with [] => [] | _ => [rev cur] end
  | c :: t =>
      if N.eqb c 10 then rev (10%N :: cur) :: split_lines [] t
      else if N.eqb c 13 then
        match t with
        | d :: t' =>
            if N.eqb d 10 then rev (10%N :: cur) :: split_lines [] t'
            else rev (10%N :: cur) :: split_lines [] t
        | [] => [rev (10%N :: cur)]
        end
      else split_lines (c :: cur) t
  end.

(** The lines that [open(filepath, 'r', encoding='utf-8',
    errors='ignore')] and [readlines()] give for the bytes of a file. *)
Definition file_lines (bytes : list N) : list str :=
  split_lines [] (utf8_decode_ignore bytes).

(** In-set test against a set of strings. *)
Definition str_in (w : str) (ws : list str) : bool := existsb (str_eqb w) ws.

(** ** The Python extractor *)

Section Extractors.
Context {db : UnicodeDB}.

(** The inner [while] of the decorator branch: collect the decorators that
    follow at the same indent.  [None] when the fuel runs out. *)
Fixpoint collect_decorators (fuel : nat) (lines : list str) (indent : str)
    (i : nat) (decorators : list str) : option (nat * list str) :=
  match fuel with
  | O => None
  | S fuel' =>
      if Nat.ltb i (length lines) then
        match re_match PY_DECORATOR_PATTERN (nth i lines []) with
        | Some (g1, g2) =>
            if str_eqb g1 indent
            then collect_decorators fuel' lines indent (i + 1)
                                    (decorators ++ [g2])
            else Some (i, decorators)
        | None => Some (i, decorators)
        end
      else Some (i, decorators)
  end.

(** One round of the outer [while], entered with [i < len(lines)]; the
    result is the cursor and the signature list at the next test of the
    loop condition. *)
Definition py_iter (fuel : nat) (lines : list str) (i : nat)
    (signatures : list str) : option (nat * list str) :=
  let line := nth i lines [] in
  match re_match PY_DECORATOR_PATTERN line with
  | Some (indent, d) =>
      match collect_decorators fuel lines indent (i + 1) [d] with
      | None => None
      | Some (i', decorators) =>
          if Nat.ltb i' (length lines) then
            match re_match PY_CLASS_PATTERN (nth i' lines []),
                  re_match PY_FUNC_PATTERN (nth i' lines []) with
            | Some (g1, g2), _ =>
                Some (i', signatures ++ map (app indent) decorators
                                     ++ [g1 ++ g2])
            | None, Some (g1, g2) =>
                Some (i', signatures ++ map (app indent) decorators
                                     ++ [g1 ++ g2])
            | None, None => Some (i', signatures)
            end
          else Some (i', signatures)
      end
  | None =>
      match re_match PY_CLASS_PATTERN line with
      | Some (g1, g2) => Some (i + 1, signatures ++ [g1 ++ g2])
      | None =>
          match re_match PY_FUNC_PATTERN line with
          | Some (g1, g2) => Some (i + 1, signatures ++ [g1 ++ g2])
          | None => Some (i + 1, signatures)
          end
      end
  end.

(** The outer [while i < len(lines)]. *)
Fixpoint py_loop (fuel : nat) (lines : list str) (i : nat)
    (signatures : list str) : option (list str) :=
  match fuel with
  | O => None
  | S fuel' =>
      if Nat.ltb i (length lines) then
        match py_iter (length lines) lines i signatures with
        | Some (i', signatures') => py_loop fuel' lines i' signatures'
        | None => None
        end
      else Some signatures
  end.

Definition py_error (e : str) : str := lit_str "  # Error reading file: " ++ e.

(** [extract_python_signatures(filepath)]; [None] stands for a run that
    does not finish within the fuel. *)
Definition extract_python_signatures (fs : filesystem) (filepath : str)
    : option (list str) :=
  match fs filepath with
  | Content bytes =>
      let lines := file_lines bytes in
      py_loop (S (length lines)) lines 0 []
  | Unreadable e => Some [py_error e]
  end.

(** ** The JavaScript/TypeScript extractor *)

(** [stripped.split('(')[0].split()], then [parts[0] if parts else '']. *)
Definition js_first_word (stripped : str) : str :=
  let parts := split_ws (hd [] (split_char (chr "(") stripped)) in
  match parts with
  | w :: _ => w
  | [] => []
  end.

(** The control-flow test at the head of the loop body: [true] when the
    line is skipped. *)
Definition js_control_flow (line : str) : bool :=
  let stripped := strip line in
  match stripped with
  | [] => false
  | _ => str_in (lower (js_first_word stripped)) CONTROL_FLOW_KEYWORDS
  end.

(** The declaration patterns tried before the method pattern, in order. *)
Definition js_declaration (line : str) : option str :=
  match re_match JS_INTERFACE_PATTERN line with
  | Some (g1, g2) => Some (g1 ++ strip g2)
  | None =>
  match re_match JS_TYPE_PATTERN line with
  | Some (g1, g2) => Some (g1 ++ strip g2)
  | None =>
  match re_match JS_CLASS_PATTERN line with
  | Some (g1, g2) => Some (g1 ++ strip g2)
  | None =>
  match re_match JS_FUNC_PATTERN line with
  | Some (g1, g2) => Some (g1 ++ strip g2)
  | None =>
  match re_match JS_ARROW_PATTERN line with
  | Some (g1, g2) => Some (g1 ++ strip g2)
  | None =>
  match re_match JS_ARROW_SIMPLE_PATTERN line with
  | Some (g1, g2) => Some (g1 ++ strip g2)
  | None => None
  end end end end end end.

(** The class-method test that closes the loop body. *)
Definition js_method (line : str) : option str :=
  match re_match JS_METHOD_PATTERN line with
  | Some (g1, g2) =>
      if Nat.ltb 0 (length g1)
      then let sig := strip (rstrip_char (chr "{") g2) in
           Some (g1 ++ sig ++ lit_str "()")
      else None
  | None => None
  end.

(** The body of [for line in lines]: the entry appended for [line], if
    any. *)
Definition js_line (line : str) : option str :=
  if js_control_flow line then None
  else match js_declaration line with
       | Some e => Some e
       | None => js_method line
       end.

Definition append_entry (f : str -> option str)
    (signatures : list str) (line : str) : list str :=
  match f line with
  | Some e => signatures ++ [e]
  | None => signatures
  end.

Definition js_loop (lines : list str) (signatures : list str) : list str :=
  fold_left (append_entry js_line) lines signatures.

Definition js_error (e : str) : str := lit_str "  // Error reading file: " ++ e.

(** [extract_js_signatures(filepath)] *)
Definition extract_js_signatures (fs : filesystem) (filepath : str)
    : list str :=
  match fs filepath with
  | Content bytes => js_loop (file_lines bytes) []
  | Unreadable e => [js_error e]
  end.

(** ** The shell extractor *)

Definition sh_line (line : str) : option str :=
  match re_match SH_FUNC_PATTERN line with
  | Some (g1, g2) => Some (g1 ++ g2)
  | None =>
      match re_match SH_FUNC_KEYWORD_PATTERN line with
      | Some (g1, g2) => Some (g1 ++ g2)
      | None => None
      end
  end.

Definition sh_loop (lines : list str) (signatures : list str) : list str :=
  fold_left (append_entry sh_line) lines signatures.

Definition sh_error (e : str) : str := lit_str "  # Error reading file: " ++ e.

(** [extract_shell_signatures(filepath)] *)
Definition extract_shell_signatures (fs : filesystem) (filepath : str)
    : list str :=
  match fs filepath with
  | Content bytes => sh_loop (file_lines bytes) []
  | Unreadable e => [sh_error e]
  end.

End Extractors.

(** ** A static check on patterns *)

(** [nullable r]: [r] may match without consuming anything. *)
Fixpoint nullable (r : regex) : bool :=
  match r with
  | Eps => true
  | Chr _ => false
  | Cls _ => false
  | Seq a b => nullable a && nullable b
  | Alt a b => nullable a || nullable b
  | Opt _ => true
  | Star _ => true
  | Plus a => nullable a
  end.

Section StaticCheck.
Context {db : UnicodeDB}.

(** [first_sat ok okw r]: whatever [r] consumes begins with a character
    that satisfies [ok]; [okw] tells whether every word character does. *)
Fixpoint first_sat (ok : char -> bool) (okw : bool) (r : regex) : bool :=
  match r with
  | Eps => true
  | Chr c => ok c
  | Cls CWord => okw
  | Cls _ => false
  | Seq a b =>
      first_sat ok okw a && (if nullable a then first_sat ok okw b else true)
  | Alt a b => first_sat ok okw a && first_sat ok okw b
  | Opt a => first_sat ok okw a
  | Star a => first_sat ok okw a
  | Plus a => first_sat ok okw a
  end.

(** Whatever [r] consumes begins with a character that is not
    whitespace. *)
Definition first_nonspace (r : regex) : bool :=
  first_sat (fun c => negb (is_space c)) true r.

(** A word character or the mark of a decorator. *)
Definition wordlike (c : char) : bool := is_word c || N.eqb c (chr "@").

(** A body that always consumes something, starting with a visible
    character. *)
Definition visible_start (r : regex) : bool :=
  negb (nullable r) && first_nonspace r.

(** A body that always consumes something, starting with a word character
    or the mark of a decorator. *)
Definition wordlike_start (r : regex) : bool :=
  negb (nullable r) && first_sat wordlike true r.

(** A text that is empty or begins with a character that satisfies
    [ok]. *)
Definition starts_with (ok : char -> bool) (m : str) : Prop :=
  m = [] \/ exists x t, m = x :: t /\ ok x = true.

(** A text that is empty or begins with a character that is not
    whitespace. *)
Definition starts_visible (m : str) : Prop :=
  m = [] \/ exists x t, m = x :: t /\ is_space x = false.

End StaticCheck.

(** [e] is an initial segment of [l]. *)
Definition is_prefix (e l : str) : Prop := exists t, l = e ++ t.

Section Provenance.
Context {db : UnicodeDB}.

(** [run] is a list of decorator lines, all at indent [indent], whose
    decorator texts are [decs]. *)
Definition decorator_run (indent : str) (run : list str) (decs : list str)
    : Prop :=
  Forall2 (fun l d => re_match PY_DECORATOR_PATTERN l = Some (indent, d))
          run decs.

(** The line does not carry on a decorator run at [indent]. *)
Definition ends_run (indent : str) (line : str) : Prop :=
  forall d, re_match PY_DECORATOR_PATTERN line <> Some (indent, d).

(** The entry [e] was cut out of a line of [lines]: it is an initial
    segment of that line and has the same leading whitespace. *)
Definition from_line (lines : list str) (e : str) : Prop :=
  exists l, In l lines /\ is_prefix e l /\ leading_ws e = leading_ws l.

(** The patterns of the Python extractor. *)
Definition py_patterns : list pattern :=
  [PY_CLASS_PATTERN; PY_FUNC_PATTERN; PY_DECORATOR_PATTERN].

(** The entry [e] is made of the two groups of a match of one of the
    Python patterns on a line of [lines]. *)
Definition matched_entry (lines : list str) (e : str) : Prop :=
  exists p l g1 g2,
    In p py_patterns /\ In l lines /\
    re_match p l = Some (g1, g2) /\ e = g1 ++ g2.

(** An entry as the patterns produce them: whitespace, then a word
    character or the mark of a decorator. *)
Definition declaration_entry (e : str) : Prop :=
  exists g1 x t,
    e = g1 ++ x :: t /\ forallb is_space g1 = true /\ wordlike x = true.

End Provenance.

(** ** Further static checks on patterns *)

(** [requires c r]: whatever [r] consumes contains the character [c]. *)
Fixpoint requires (c : char) (r : regex) : bool :=
  match r with
  | Eps => false
  | Chr x => N.eqb x c
  | Cls _ => false
  | Seq a b => requires c a || requires c b
  | Alt a b => requires c a && requires c b
  | Opt _ => false
  | Star _ => false
  | Plus a => requires c a
  end.

Section MoreChecks.
Context {db : UnicodeDB}.

(** [avoids c r]: nothing that [r] consumes contains the character [c]. *)
Fixpoint avoids (c : char) (r : regex) : bool :=
  match r with
  | Eps => true
  | Chr x => negb (N.eqb x c)
  | Cls k => negb (in_cls k c)
  | Seq a b => avoids c a && avoids c b
  | Alt a b => avoids c a && avoids c b
  | Opt a => avoids c a
  | Star a => avoids c a
  | Plus a => avoids c a
  end.

(** [last_nonspace r]: whatever [r] consumes ends with a character that is
    not whitespace. *)
Fixpoint last_nonspace (r : regex) : bool :=
  match r with
  | Eps => true
  | Chr c => negb (is_space c)
  | Cls CWord => true
  | Cls _ => false
  | Seq a b => last_nonspace b && (if nullable b then last_nonspace a else true)
  | Alt a b => last_nonspace a && last_nonspace b
  | Opt a => last_nonspace a
  | Star a => last_nonspace a
  | Plus a => last_nonspace a
  end.

(** A text that is empty or ends with a character that is not
    whitespace. *)
Definition ends_visible (m : str) : Prop :=
  m = [] \/ exists t x, m = t ++ [x] /\ is_space x = false.

(** The class and function tests of the Python loop on one line: the entry
    appended for a line that is no decorator. *)
Definition py_plain (line : str) : option str :=
  match re_match PY_CLASS_PATTERN line with
  | Some (g1, g2) => Some (g1 ++ g2)
  | None =>
      match re_match PY_FUNC_PATTERN line with
      | Some (g1, g2) => Some (g1 ++ g2)
      | None => None
      end
  end.

(** The Python loop read as a function of the lines that lie ahead of the
    cursor.  [run_decs indent rest] is what the inner loop collects: the
    decorator texts of the longest run of decorator lines at [indent] that
    [rest] begins with. *)
Fixpoint run_decs (indent : str) (rest : list str) : list str :=
  match rest with
  | [] => []
  | l :: more =>
      match re_match PY_DECORATOR_PATTERN l with
      | Some (g1, g2) =>
          if str_eqb g1 indent then g2 :: run_decs indent more else []
      | None => []
      end
  end.

(** One round of the outer loop on the lines [rest] ahead of the cursor:
    the number of lines the cursor moves over and the entries appended.
    After a run of decorators the cursor stops on the line that follows
    the run, header or not. *)
Definition py_round (rest : list str) : nat * list str :=
  match rest with
  | [] => (0, [])
  | l :: more =>
      match re_match PY_DECORATOR_PATTERN l with
      | Some (indent, d) =>
          let ds := run_decs indent more in
          (S (length ds),
           match skipn (length ds) more with
           | h :: _ =>
               match py_plain h with
               | Some e => map (app indent) (d :: ds) ++ [e]
               | None => []
               end
           | [] => []
           end)
      | None =>
          (1, match py_plain l with
              | Some e => [e]
              | None => []
              end)
      end
  end.

(** The entries of at most [fuel] rounds on [rest]. *)
Fixpoint py_rounds (fuel : nat) (rest : list str) : list str :=
  match fuel with
  | O => []
  | S fuel' =>
      match rest with
      | [] => []
      | _ :: _ =>
          snd (py_round rest)
          ++ py_rounds fuel' (skipn (fst (py_round rest)) rest)
      end
  end.

(** The entries of the rounds on [lines]; each round moves over one line
    at least. *)
Definition py_entries (lines : list str) : list str :=
  py_rounds (length lines) lines.

(** A round that begins at the head of [rest] is not reached into from
    [pre]: if [pre] ends with a decorator line, [rest] does not begin with
    a header and does not carry the run of that decorator on. *)
Definition round_boundary (pre rest : list str) : Prop :=
  forall I d,
    re_match PY_DECORATOR_PATTERN (last pre []) = Some (I, d) ->
    match rest with
    | [] => True
    | x :: _ => py_plain x = None /\ ends_run I x
    end.

(** The signature list [r] of the lines, group by group.  Lines without a
    header are passed over.  A header line that does not follow a
    decorator line gives its entry.  A header line that follows a run of
    decorator lines at one indent, the run taken from its first line,
    gives the entries of these decorators and then its entry; the scan
    goes on from the header line itself. *)
Inductive py_grouped : list str -> list str -> Prop :=
| grouped_nil (lines : list str) :
    Forall (fun l => py_plain l = None) lines -> py_grouped lines []
| grouped_plain (skipped : list str) (h : str) (rest : list str) (e : str)
    (more : list str) :
    Forall (fun l => py_plain l = None) skipped ->
    re_match PY_DECORATOR_PATTERN (last skipped []) = None ->
    py_plain h = Some e ->
    py_grouped rest more ->
    py_grouped (skipped ++ h :: rest) (e :: more)
| grouped_decorated (skipped run decs : list str) (I h : str)
    (rest : list str) (e : str) (more : list str) :
    Forall (fun l => py_plain l = None) skipped ->
    ends_run I (last skipped []) ->
    run <> [] -> decorator_run I run decs ->
    py_plain h = Some e ->
    py_grouped (h :: rest) more ->
    py_grouped (skipped ++ run ++ h :: rest) (map (app I) decs ++ e :: more).

(** The line feed occurs in [l] at its end only. *)
Definition lf_last (l : str) : Prop :=
  forall a b, l = a ++ 10%N :: b -> b = [].

End MoreChecks.

(** ** Which directories and files are looked at *)

(** Directories to completely ignore during traversal. *)
Definition IGNORE_DIRS : list str :=
  map lit_str
    ["node_modules"; "venv"; ".git"; "__pycache__"; "dist"; "build";
     ".next"; "coverage"; ".cursor"; ".vscode"; "logs"; "uploads"; "data";
     ".gemini"]%string.

(** File extensions to completely ignore. *)
Definition IGNORE_EXTENSIONS : list str :=
  map lit_str
    [".png"; ".svg"; ".ico"; ".jpg"; ".jpeg"; ".gif"; ".webp";
     ".woff"; ".woff2"; ".ttf"; ".eot"; ".map"; ".min.js"; ".min.css";
     ".lock"]%string.

(** Specific filenames to ignore. *)
Definition IGNORE_FILES : list str :=
  map lit_str
    ["package-lock.json"; "yarn.lock"; "pnpm-lock.yaml"; ".DS_Store";
     "Thumbs.db"]%string.

(** Code file extensions that are parsed for signatures. *)
Definition CODE_EXTENSIONS : list str :=
  map lit_str [".py"; ".ts"; ".tsx"; ".js"; ".jsx"; ".sh"]%string.

(** [s.startswith(pre)] *)
Fixpoint startswith (s pre : str) {struct pre} : bool :=
  match pre, s with
  | [], _ => true
  | p :: pre', c :: s' => N.eqb c p && startswith s' pre'
  | _ :: _, [] => false
  end.

(** [s.endswith(suf)] *)
Definition endswith (s suf : str) : bool := startswith (rev s) (rev suf).

(** [sub in s] *)
Fixpoint contains (sub s : str) : bool :=
  startswith s sub ||
  match s with
  | [] => false
  | _ :: t => contains sub t
  end.

(** [should_ignore_dir(dirname)] *)
Definition should_ignore_dir (dirname : str) : bool :=
  str_in dirname IGNORE_DIRS || startswith dirname (lit_str ".").

(** [should_ignore_file(filename)] *)
Definition should_ignore_file (filename : str) : bool :=
  if str_in filename IGNORE_FILES then true
  else if existsb (endswith filename) IGNORE_EXTENSIONS then true
  else if contains (lit_str ".min.") filename then true
  else false.

(** [Path(filename).name] on a POSIX system: the last component of the
    path, empty and single-dot components left aside. *)
Definition path_name (filename : str) : str :=
  last (filter (fun c => negb (str_eqb c [] || str_eqb c (lit_str ".")))
               (split_char (chr "/") filename)) [].

(** [s.rfind(c)], when [c] occurs. *)
Fixpoint rfind (c : char) (s : str) : option nat :=
  match s with
  | [] => None
  | x :: t =>
      match rfind c t with
      | Some i => Some (S i)
      | None => if N.eqb x c then Some 0 else None
      end
  end.

(** The suffix of a file name: from its last dot on, unless that dot opens
    or closes the name. *)
Definition name_suffix (name : str) : str :=
  match rfind (chr ".") name with
  | Some i =>
      if Nat.ltb 0 i && Nat.ltb i (length name - 1) then skipn i name else []
  | None => []
  end.

Section Dispatch.
Context {db : UnicodeDB}.

(** [get_file_extension(filename)] *)
Definition get_file_extension (filename : str) : str :=
  lower (name_suffix (path_name filename)).

(** [extract_signatures(filepath, extension)] *)
Definition extract_signatures (fs : filesystem) (filepath extension : str)
    : option (list str) :=
  if str_eqb extension (lit_str ".py")
  then extract_python_signatures fs filepath
  else if str_in extension (map lit_str [".js"; ".jsx"; ".ts"; ".tsx"]%string)
  then Some (extract_js_signatures fs filepath)
  else if str_eqb extension (lit_str ".sh")
  then Some (extract_shell_signatures fs filepath)
  else Some [].

End Dispatch.

(** ** The project map *)

(** A directory that [os.walk] visits: the sub-directories it visits in
    turn, by name, and the names of its files, both in the order of the
    listing.  A name of the listing that the walk does not enter (a link to
    a directory, a directory that cannot be listed) appears in no visit, and
    the loop of the script appends lines for visited directories only. *)
Inductive tree :=
| Dir (subdirs : list (str * tree)) (filenames : list str).

(** The order of Python strings: code point by code point. *)
Fixpoint str_leb (a b : str) : bool :=
  match a, b with
  | [], _ => true
  | _ :: _, [] => false
  | x :: a', y :: b' =>
      if N.ltb x y then true
      else if N.eqb x y then str_leb a' b' else false
  end.

Fixpoint insert_sorted (x : str) (l : list str) : list str :=
  match l with
  | [] => [x]
  | y :: l' => if str_leb x y then x :: l else y :: insert_sorted x l'
  end.

(** [names.sort()] *)
Definition sort_names (l : list str) : list str :=
  fold_right insert_sorted [] l.

(** [os.path.join(a, b)] on a POSIX system. *)
Definition path_join (a b : str) : str :=
  if startswith b (lit_str "/") then b
  else match a with
       | [] => b
       | _ => if endswith a (lit_str "/") then a ++ b
              else a ++ lit_str "/" ++ b
       end.

(** The sub-directory of that name. *)
Fixpoint subdir (d : str) (subdirs : list (str * tree)) : option tree :=
  match subdirs with
  | [] => None
  | (n, t) :: more => if str_eqb n d then Some t else subdir d more
  end.

(** Two spaces, [n] times. *)
Definition indent_of (n : nat) : str := concat (repeat (lit_str "  ") n).

Definition FOLDER : str := [128193%N].
Definition PAGE : str := [128196%N].
Definition WORLD_MAP : str := [128506%N; 65039%N].

(** The lines of the results of [f] on the elements of [l], in order;
    [None] as soon as one of them is. *)
Fixpoint collect_lines {A : Type} (f : A -> option (list str)) (l : list A)
    : option (list str) :=
  match l with
  | [] => Some []
  | x :: l' =>
      match f x, collect_lines f l' with
      | Some a, Some b => Some (a ++ b)
      | _, _ => None
      end
  end.

Section ProjectMap.
Context {db : UnicodeDB}.

(** The body of the loop over the files of a directory: the lines appended
    for one file. *)
Definition file_block (fs : filesystem) (dirpath : str) (depth : nat)
    (filename : str) : option (list str) :=
  if should_ignore_file filename then Some []
  else
    let filepath := path_join dirpath filename in
    let extension := get_file_extension filename in
    let file_indent := indent_of depth in
    if str_in extension CODE_EXTENSIONS then
      match extract_signatures fs filepath extension with
      | None => None
      | Some signatures =>
          Some ((file_indent ++ lit_str "#### " ++ PAGE ++ lit_str " "
                 ++ filename)
                :: match signatures with
                   | [] => [file_indent ++ lit_str "*(no signatures found)*"]
                   | _ :: _ =>
                       (file_indent ++ lit_str "```")
                       :: map (app file_indent) signatures
                       ++ [file_indent ++ lit_str "```"]
                   end)
      end
    else Some [file_indent ++ lit_str "- " ++ PAGE ++ lit_str " " ++ filename].

(** The header of a directory at that depth. *)
Definition dir_header (depth : nat) (name : str) : str :=
  if Nat.eqb depth 0 then lit_str "## " ++ FOLDER ++ lit_str " / (root)"
  else indent_of (depth - 1) ++ lit_str "### " ++ FOLDER ++ lit_str " "
       ++ name ++ lit_str "/".

(** The loop over [os.walk]: the lines appended for a directory and all
    that lies below it.  [dirpath] is the path of the directory, [depth]
    and [name] the number of parts and the last part of its path relative
    to the root.  [None] when the fuel runs out. *)
Fixpoint walk (fuel : nat) (fs : filesystem) (dirpath : str) (depth : nat)
    (name : str) (t : tree) : option (list str) :=
  match fuel with
  | O => None
  | S fuel' =>
      match t with
      | Dir subdirs filenames =>
          let dirnames :=
            sort_names (filter (fun d => negb (should_ignore_dir d))
                               (map fst subdirs)) in
          let filenames := sort_names filenames in
          match collect_lines (file_block fs dirpath depth) filenames,
                collect_lines
                  (fun d => match subdir d subdirs with
                            | Some t' => walk fuel' fs (path_join dirpath d)
                                              (S depth) d t'
                            | None => Some []
                            end) dirnames with
          | Some files, Some below =>
              Some (dir_header depth name :: files ++ [[]] ++ below)
          | _, _ => None
          end
      end
  end.

(** The lines written before the walk. *)
Definition map_header (project_name now : str) : list str :=
  [lit_str "# " ++ WORLD_MAP ++ lit_str " PROJECT MAP: " ++ project_name;
   [];
   lit_str "**Generated:** " ++ now;
   [];
   lit_str "> **Note:** This map shows the project structure and code signatures (classes, functions, methods).";
   lit_str "> Run `python3 dev_tools/generate_repo_map.py` to regenerate after significant changes.";
   [];
   lit_str "---";
   []].

(** [sep.join(lines)] for the line feed. *)
Fixpoint join_lines (lines : list str) : str :=
  match lines with
  | [] => []
  | [l] => l
  | l :: more => l ++ 10%N :: join_lines more
  end.

(** [generate_project_map(root_dir)], given the file system, the formatted
    time of the run and what [os.walk] visits: [Some t] for a root that it
    lists, with the tree [t] of the visited directories, [None] for a root
    that it cannot list (no such directory, a file, no permission), where
    the loop body never runs and the map is its header alone. *)
Definition generate_project_map (fuel : nat) (fs : filesystem)
    (root_dir now : str) (root : option tree) : option str :=
  match root with
  | Some t =>
      match walk fuel fs root_dir 0 [] t with
      | Some body =>
          Some (join_lines (map_header (path_name root_dir) now ++ body))
      | None => None
      end
  | None => Some (join_lines (map_header (path_name root_dir) now))
  end.

End ProjectMap.


(** The tree without the directories that are skipped. *)
Fixpoint prune (t : tree) : tree :=
  match t with
  | Dir subdirs filenames =>
      Dir ((fix go (l : list (str * tree)) : list (str * tree) :=
              match l with
              | [] => []
              | (n, t') :: l' =>
                  if should_ignore_dir n then go l'
                  else (n, prune t') :: go l'
              end) subdirs)
          filenames
  end.

(** The listing of sub-directories without those that are skipped. *)
Fixpoint prune_subdirs (l : list (str * tree)) : list (str * tree) :=
  match l with
  | [] => []
  | (n, t') :: l' =>
      if should_ignore_dir n then prune_subdirs l'
      else (n, prune t') :: prune_subdirs l'
  end.

(** The tree without the files that are skipped. *)
Fixpoint without_skipped_files (t : tree) : tree :=
  match t with
  | Dir subdirs filenames =>
      Dir (map (fun p => (fst p, without_skipped_files (snd p))) subdirs)
          (filter (fun f => negb (should_ignore_file f)) filenames)
  end.

Section MapRelations.
Context {db : UnicodeDB}.

(** The paths that the walk opens below a directory: the code files that
    are not skipped, in directories that are not skipped. *)
Inductive opened (dirpath : str) : tree -> str -> Prop :=
| opened_here (subdirs : list (str * tree)) (filenames : list str)
    (f : str) :
    In f filenames -> should_ignore_file f = false ->
    str_in (get_file_extension f) CODE_EXTENSIONS = true ->
    opened dirpath (Dir subdirs filenames) (path_join dirpath f)
| opened_below (subdirs : list (str * tree)) (filenames : list str)
    (d : str) (t' : tree) (p : str) :
    In d (map fst subdirs) -> should_ignore_dir d = false ->
    subdir d subdirs = Some t' ->
    opened (path_join dirpath d) t' p ->
    opened dirpath (Dir subdirs filenames) p.

End MapRelations.

(** Two trees that list the same directories and files, in whatever
    order. *)
Inductive same_listing : tree -> tree -> Prop :=
| same_listing_dir (s s' : list (str * tree)) (f f' : list str) :
    Permutation f f' ->
    Permutation (map fst s) (map fst s') ->
    (forall d t t', subdir d s = Some t -> subdir d s' = Some t' ->
                    same_listing t t') ->
    same_listing (Dir s f) (Dir s' f').

(** * Properties *)

Section EngineFacts.
Context {db : UnicodeDB}.

Lemma str_eqb_eq (a b : str) : str_eqb a b = true <-> a = b.
Proof.
  revert b; induction a as [|x a IH]; intros [|y b]; simpl;
    try (split; [discriminate | discriminate]); try tauto.
  rewrite andb_true_iff, N.eqb_eq, IH.
  split; [intros [-> ->]; reflexivity | intros H; inversion H; auto].
Qed.

Lemma word_not_space (c : char) : is_word c = true -> is_space c = false.
Proof.
  unfold is_word, is_space.
  destruct (is_ascii c).
  - unfold ascii_word, ascii_space; intros H.
    repeat rewrite orb_true_iff in H. repeat rewrite andb_true_iff in H.
    repeat rewrite N.leb_le in H. rewrite N.eqb_eq in H.
    apply orb_false_iff; split; apply andb_false_iff;
      repeat rewrite N.leb_gt; lia.
  - apply uni_alnum_not_space.
Qed.

Lemma in_extend (pre : str) (c : cand) (l : list cand) :
  In c (map (extend pre) l) ->
  exists c', In c' l /\ fst c = pre ++ fst c' /\ snd c = snd c'.
Proof.
  rewrite in_map_iff. intros [c' [<- Hin]]. exists c'. auto.
Qed.

(** Every candidate splits the subject into what it consumed and what is
    left. *)
Lemma star_n_split (step : str -> list cand) :
  (forall s c, In c (step s) -> s = fst c ++ snd c) ->
  forall n s c, In c (star_n step n s) -> s = fst c ++ snd c.
Proof.
  intros Hstep n; induction n as [|n IH]; intros s c; simpl.
  - intros [<-|[]]; reflexivity.
  - rewrite in_app_iff, in_flat_map.
    intros [[c1 [H1 H2]]|[<-|[]]]; [|reflexivity].
    destruct (Nat.ltb _ _); [|contradiction].
    apply in_extend in H2 as [c2 [H2 [Hf Hs]]].
    rewrite Hf, Hs, <- app_assoc, <- (IH _ _ H2).
    apply Hstep, H1.
Qed.

(** The fuel of an iteration is never what stops it: any fuel that covers
    the length of the subject gives the same candidates. *)
Lemma star_n_fuel (step : str -> list cand) :
  forall n m s, length s <= n -> length s <= m ->
    star_n step n s = star_n step m s.
Proof.
  assert (Z : forall m s, length s <= 0 -> star_n step m s = [([], s)]).
  { intros [|m] s Hs; [reflexivity|]. simpl.
    replace (flat_map _ (step s)) with (@nil cand); [reflexivity|].
    symmetry. induction (step s) as [|c l IH]; [reflexivity|]. simpl.
    rewrite IH.
    replace (Nat.ltb (length (snd c)) (length s)) with false; [reflexivity|].
    symmetry. apply Nat.ltb_ge. lia. }
  induction n as [|n IH]; intros m s Hn Hm.
  - rewrite (Z m s Hn). reflexivity.
  - destruct m as [|m]; [rewrite (Z (S n) s Hm); reflexivity|]. simpl.
    f_equal. apply flat_map_ext. intros c.
    destruct (Nat.ltb (length (snd c)) (length s)) eqn:Lt; [|reflexivity].
    apply Nat.ltb_lt in Lt. rewrite (IH m (snd c)); [reflexivity|lia|lia].
Qed.

Lemma matches_plus (a : regex) (s : str) :
  matches (Plus a) s = matches (Seq a (Star a)) s.
Proof. reflexivity. Qed.

Lemma matches_split (r : regex) :
  forall s c, In c (matches r s) -> s = fst c ++ snd c.
Proof.
  induction r as [|x|k|a IHa b IHb|a IHa b IHb|a IHa|a IHa|a IHa];
    intros s c; simpl.
  - intros [<-|[]]; reflexivity.
  - destruct s as [|y t]; [intros []|].
    destruct (N.eqb y x); [intros [<-|[]]; reflexivity | intros []].
  - destruct s as [|y t]; [intros []|].
    destruct (in_cls k y); [intros [<-|[]]; reflexivity | intros []].
  - rewrite in_flat_map. intros [c1 [H1 H2]].
    apply in_extend in H2 as [c2 [H2 [Hf Hs]]].
    rewrite Hf, Hs, <- app_assoc, <- (IHb _ _ H2). apply IHa, H1.
  - rewrite in_app_iff. intros [H|H]; [apply IHa|apply IHb]; exact H.
  - rewrite in_app_iff. intros [H|[<-|[]]]; [apply IHa, H|reflexivity].
  - apply star_n_split, IHa.
  - rewrite in_flat_map. intros [c1 [H1 H2]].
    apply in_extend in H2 as [c2 [H2 [Hf Hs]]].
    rewrite Hf, Hs, <- app_assoc, <- (star_n_split _ IHa _ _ _ H2).
    apply IHa, H1.
Qed.

Lemma starts_with_app (ok : char -> bool) (m1 m2 : str) :
  starts_with ok m1 -> (m1 = [] -> starts_with ok m2) ->
  starts_with ok (m1 ++ m2).
Proof.
  intros [->|[x [t [-> Hx]]]] H2; simpl.
  - apply H2; reflexivity.
  - right. exists x, (t ++ m2). auto.
Qed.

Lemma star_n_starts (ok : char -> bool) (step : str -> list cand) :
  (forall s c, In c (step s) -> starts_with ok (fst c)) ->
  forall n s c, In c (star_n step n s) -> starts_with ok (fst c).
Proof.
  intros Hstep n; induction n as [|n IH]; intros s c; simpl.
  - intros [<-|[]]; left; reflexivity.
  - rewrite in_app_iff, in_flat_map.
    intros [[c1 [H1 H2]]|[<-|[]]]; [|left; reflexivity].
    destruct (Nat.ltb _ _); [|contradiction].
    apply in_extend in H2 as [c2 [H2 [Hf _]]].
    rewrite Hf. apply starts_with_app; [apply (Hstep _ _ H1)|].
    intros _. apply (IH _ _ H2).
Qed.

(** The static check is sound: a body that is not nullable consumes
    something, and a body that passes [first_sat] only consumes texts that
    begin as promised. *)
Lemma first_sat_sound (ok : char -> bool) (okw : bool) :
  (okw = true -> forall c, is_word c = true -> ok c = true) ->
  forall r s c, In c (matches r s) ->
    (nullable r = false -> fst c <> []) /\
    (first_sat ok okw r = true -> starts_with ok (fst c)).
Proof.
  intros Hw r.
  induction r as [|x|k|a IHa b IHb|a IHa b IHb|a IHa|a IHa|a IHa];
    intros s c; simpl.
  - intros [<-|[]]; split; [discriminate | left; reflexivity].
  - destruct s as [|y t]; [intros []|].
    destruct (N.eqb y x) eqn:E; [|intros []]. intros [<-|[]]; simpl.
    apply N.eqb_eq in E; subst y.
    split; [discriminate|]. intros H. right. exists x, []. auto.
  - destruct s as [|y t]; [intros []|].
    destruct (in_cls k y) eqn:E; [|intros []]. intros [<-|[]]; simpl.
    split; [discriminate|]. destruct k; try discriminate. intros W.
    right. exists y, []. split; [reflexivity|]. apply (Hw W), E.
  - rewrite in_flat_map. intros [c1 [H1 H2]].
    apply in_extend in H2 as [c2 [H2 [Hf _]]]. rewrite Hf.
    destruct (IHa _ _ H1) as [Na Va], (IHb _ _ H2) as [Nb Vb].
    split.
    + rewrite andb_false_iff. intros [N|N] H;
        apply app_eq_nil in H as [? ?]; [apply Na|apply Nb]; auto.
    + rewrite andb_true_iff. intros [Fa Fb].
      apply starts_with_app; [apply Va, Fa|].
      intros E. apply Vb. destruct (nullable a); [exact Fb|].
      exfalso. apply Na; auto.
  - rewrite in_app_iff. intros [H|H].
    + destruct (IHa _ _ H) as [Na Va]. split.
      * rewrite orb_false_iff. intros [? ?]; auto.
      * rewrite andb_true_iff. intros [? ?]; auto.
    + destruct (IHb _ _ H) as [Nb Vb]. split.
      * rewrite orb_false_iff. intros [? ?]; auto.
      * rewrite andb_true_iff. intros [? ?]; auto.
  - rewrite in_app_iff. intros [H|[<-|[]]].
    + destruct (IHa _ _ H) as [_ Va]. split; [discriminate|exact Va].
    + split; [discriminate|]. intros _; left; reflexivity.
  - intros H. split; [discriminate|]. intros F.
    apply (star_n_starts ok (matches a)) with (n := length s) (s := s);
      [|exact H].
    intros s' c' H'. apply (IHa _ _ H'), F.
  - rewrite in_flat_map. intros [c1 [H1 H2]].
    apply in_extend in H2 as [c2 [H2 [Hf _]]]. rewrite Hf.
    destruct (IHa _ _ H1) as [Na Va]. split.
    + intros N H. apply app_eq_nil in H as [? ?]. apply Na; auto.
    + intros F. apply starts_with_app; [apply Va, F|]. intros _.
      apply (star_n_starts ok (matches a))
        with (n := length (snd c1)) (s := snd c1); [|exact H2].
      intros s' c' H'. apply (IHa _ _ H'), F.
Qed.

Lemma static_check_sound (r : regex) :
  forall s c, In c (matches r s) ->
    (nullable r = false -> fst c <> []) /\
    (first_nonspace r = true -> starts_visible (fst c)).
Proof.
  intros s c H.
  destruct (first_sat_sound (fun x => negb (is_space x)) true
              (fun _ x Hx => eq_trans (f_equal negb (word_not_space x Hx)) eq_refl)
              r s c H) as [Ne Vs].
  split; [exact Ne|]. intros F.
  destruct (Vs F) as [E|[x [t [E Hx]]]]; [left; exact E|].
  right. exists x, t. split; [exact E|]. apply negb_true_iff, Hx.
Qed.

Lemma star_n_forall (p : char -> bool) (step : str -> list cand) :
  (forall s c, In c (step s) -> forallb p (fst c) = true) ->
  forall n s c, In c (star_n step n s) -> forallb p (fst c) = true.
Proof.
  intros Hstep n; induction n as [|n IH]; intros s c; simpl.
  - intros [<-|[]]; reflexivity.
  - rewrite in_app_iff, in_flat_map.
    intros [[c1 [H1 H2]]|[<-|[]]]; [|reflexivity].
    destruct (Nat.ltb _ _); [|contradiction].
    apply in_extend in H2 as [c2 [H2 [Hf _]]].
    rewrite Hf, forallb_app, (Hstep _ _ H1), (IH _ _ H2). reflexivity.
Qed.

Lemma star_space_all (s : str) (c : cand) :
  In c (matches (Star (Cls CSpace)) s) -> forallb is_space (fst c) = true.
Proof.
  simpl. apply star_n_forall. clear s c. intros [|y t] c; simpl; [intros []|].
  destruct (is_space y) eqn:E; [|intros []].
  intros [<-|[]]; simpl. rewrite E. reflexivity.
Qed.

Lemma take_while_app (p : char -> bool) (a : str) (x : char) (t : str) :
  forallb p a = true -> p x = false -> take_while p (a ++ x :: t) = a.
Proof.
  intros Ha Hx. induction a as [|y a IH]; simpl in *.
  - rewrite Hx. reflexivity.
  - apply andb_true_iff in Ha as [Hy Ha]. rewrite Hy, (IH Ha). reflexivity.
Qed.

Lemma drop_while_app (p : char -> bool) (a : str) (x : char) (t : str) :
  forallb p a = true -> p x = false -> drop_while p (a ++ x :: t) = x :: t.
Proof.
  intros Ha Hx. induction a as [|y a IH]; simpl in *.
  - rewrite Hx. reflexivity.
  - apply andb_true_iff in Ha as [Hy Ha]. rewrite Hy. apply (IH Ha).
Qed.

Lemma hd_error_in {A : Type} (l : list A) (x : A) :
  hd_error l = Some x -> In x l.
Proof. destruct l; simpl; [discriminate|]. intros H; inversion H; auto. Qed.

(** The groups of a match come from a candidate of each part. *)
Lemma re_match_candidates (p : pattern) (line g1 g2 : str) :
  re_match p line = Some (g1, g2) ->
  exists s1 s2 c3,
    In (g1, s1) (matches (Star (Cls CSpace)) line) /\
    In (g2, s2) (matches (body p) s1) /\
    In c3 (matches (rest p) s2).
Proof.
  unfold re_match. intros H. apply hd_error_in in H.
  apply in_flat_map in H as [[m1 s1] [H1 H]].
  apply in_flat_map in H as [[m2 s2] [H2 H]].
  apply in_map_iff in H as [c3 [E H3]]. simpl in E. inversion E; subst.
  exists s1, s2, c3. auto.
Qed.

(** Group 1 of a match is the whole leading whitespace of the line, group 2
    follows it at once and begins with a visible character. *)
Lemma re_match_groups (p : pattern) (line g1 g2 : str) :
  visible_start (body p) = true ->
  re_match p line = Some (g1, g2) ->
  g1 = leading_ws line /\
  forallb is_space g1 = true /\
  (exists x t, g2 = x :: t /\ is_space x = false) /\
  (exists tl, line = g1 ++ g2 ++ tl /\ In (g2, tl) (matches (body p) (g2 ++ tl))).
Proof.
  intros V H. apply re_match_candidates in H as [s1 [s2 [c3 [H1 [H2 _]]]]].
  apply andb_true_iff in V as [Vn Vf]. apply negb_true_iff in Vn.
  pose proof (matches_split _ _ _ H1) as E1. simpl in E1.
  pose proof (matches_split _ _ _ H2) as E2. simpl in E2.
  pose proof (star_space_all _ _ H1) as Sp. simpl in Sp.
  destruct (static_check_sound _ _ _ H2) as [Ne Vs]. simpl in Ne, Vs.
  destruct (Vs Vf) as [E|[x [t [E Hx]]]]; [elim (Ne Vn E)|].
  subst g2 s1 line.
  repeat split; auto.
  - unfold leading_ws. simpl. rewrite take_while_app; auto.
  - exists x, t; auto.
  - exists s2. split; [reflexivity|exact H2].
Qed.

End EngineFacts.

(** ** The patterns pass the static check *)

Section PatternFacts.
Context {db : UnicodeDB}.

Lemma py_patterns_visible :
  Forall (fun p => visible_start (body p) = true)
         [PY_CLASS_PATTERN; PY_FUNC_PATTERN; PY_DECORATOR_PATTERN].
Proof. repeat constructor. Qed.

Lemma js_patterns_visible :
  Forall (fun p => visible_start (body p) = true)
         [JS_INTERFACE_PATTERN; JS_TYPE_PATTERN; JS_CLASS_PATTERN;
          JS_FUNC_PATTERN; JS_ARROW_PATTERN; JS_ARROW_SIMPLE_PATTERN;
          JS_METHOD_PATTERN].
Proof. repeat constructor. Qed.

Lemma sh_patterns_visible :
  Forall (fun p => visible_start (body p) = true)
         [SH_FUNC_PATTERN; SH_FUNC_KEYWORD_PATTERN].
Proof. repeat constructor. Qed.

Ltac visible_of H :=
  let F := fresh in
  pose proof H as F; rewrite Forall_forall in F; apply F; simpl; tauto.

Lemma py_class_visible : visible_start (body PY_CLASS_PATTERN) = true.
Proof. visible_of py_patterns_visible. Qed.
Lemma py_func_visible : visible_start (body PY_FUNC_PATTERN) = true.
Proof. visible_of py_patterns_visible. Qed.
Lemma py_decorator_visible : visible_start (body PY_DECORATOR_PATTERN) = true.
Proof. visible_of py_patterns_visible. Qed.

Lemma all_patterns_wordlike :
  Forall (fun p => wordlike_start (body p) = true)
         (py_patterns ++
          [JS_INTERFACE_PATTERN; JS_TYPE_PATTERN; JS_CLASS_PATTERN;
           JS_FUNC_PATTERN; JS_ARROW_PATTERN; JS_ARROW_SIMPLE_PATTERN;
           JS_METHOD_PATTERN; SH_FUNC_PATTERN; SH_FUNC_KEYWORD_PATTERN]).
Proof. repeat constructor. Qed.

Lemma wordlike_not_space (c : char) : wordlike c = true -> is_space c = false.
Proof.
  unfold wordlike. rewrite orb_true_iff. intros [H|H].
  - apply word_not_space, H.
  - apply N.eqb_eq in H. subst c. reflexivity.
Qed.

(** Group 2 of a match begins with a word character or the mark of a
    decorator. *)
Lemma re_match_head (p : pattern) (line g1 g2 : str) :
  wordlike_start (body p) = true ->
  re_match p line = Some (g1, g2) ->
  exists x t, g2 = x :: t /\ wordlike x = true.
Proof.
  intros V H. apply re_match_candidates in H as [s1 [s2 [c3 [_ [H2 _]]]]].
  apply andb_true_iff in V as [Vn Vf]. apply negb_true_iff in Vn.
  destruct (first_sat_sound wordlike true
              (fun _ c Hc => eq_trans (f_equal (fun b => b || N.eqb c (chr "@")) Hc) eq_refl)
              _ _ _ H2) as [Ne Vs].
  simpl in Ne, Vs.
  destruct (Vs Vf) as [E|[x [t [E Hx]]]]; [elim (Ne Vn E)|].
  exists x, t. auto.
Qed.

(** Inversion of the candidates of a sequence, a literal and an option. *)
Lemma in_matches_seq (a b : regex) (s : str) (c : cand) :
  In c (matches (Seq a b) s) ->
  exists ca cb, In ca (matches a s) /\ In cb (matches b (snd ca)) /\
                fst c = fst ca ++ fst cb /\ snd c = snd cb.
Proof.
  simpl. rewrite in_flat_map. intros [ca [Ha H]].
  apply in_extend in H as [cb [Hb [Hf Hs]]]. exists ca, cb. auto.
Qed.

Lemma in_matches_chr (x : char) (s : str) (c : cand) :
  In c (matches (Chr x) s) -> fst c = [x].
Proof.
  simpl. destruct s as [|y t]; [intros []|].
  destruct (N.eqb y x) eqn:E; [|intros []].
  apply N.eqb_eq in E; subst. intros [<-|[]]; reflexivity.
Qed.

Lemma in_matches_lit (w : str) (s : str) (c : cand) :
  In c (matches (lit_chars w) s) -> fst c = w.
Proof.
  revert s c. induction w as [|x w IH]; intros s c.
  - simpl. intros [<-|[]]; reflexivity.
  - destruct w as [|y w].
    + apply in_matches_chr.
    + change (lit_chars (x :: y :: w)) with (Seq (Chr x) (lit_chars (y :: w))).
      intros H. apply in_matches_seq in H as [ca [cb [Ha [Hb [Hf _]]]]].
      rewrite Hf, (in_matches_chr _ _ _ Ha), (IH _ _ Hb). reflexivity.
Qed.

(** Two patterns matching the same line agree on group 1 and on the first
    character of group 2. *)
Lemma match_same_line (p q : pattern) (line g1 g2 h1 h2 : str) :
  visible_start (body p) = true -> visible_start (body q) = true ->
  re_match p line = Some (g1, g2) -> re_match q line = Some (h1, h2) ->
  g1 = h1 /\ hd_error g2 = hd_error h2.
Proof.
  intros Vp Vq Hp Hq.
  destruct (re_match_groups _ _ _ _ Vp Hp) as [E1 [_ [[x [t [E2 _]]] [tl [E3 _]]]]].
  destruct (re_match_groups _ _ _ _ Vq Hq) as [F1 [_ [[y [u [F2 _]]] [tl' [F3 _]]]]].
  assert (E : g1 = h1) by congruence. split; [exact E|].
  rewrite <- E in F3. rewrite F3 in E3 at 1. apply app_inv_head in E3.
  subst g2 h2. simpl in *. congruence.
Qed.

Lemma py_decorator_head (line g1 g2 : str) :
  re_match PY_DECORATOR_PATTERN line = Some (g1, g2) ->
  hd_error g2 = Some (chr "@").
Proof.
  intros H.
  destruct (re_match_groups _ _ _ _ py_decorator_visible H) as [_ [_ [_ [tl [_ M]]]]].
  apply in_matches_seq in M as [ca [cb [Ha [_ [Hf _]]]]].
  simpl in Hf. rewrite Hf, (in_matches_chr _ _ _ Ha). reflexivity.
Qed.

Lemma py_class_head (line g1 g2 : str) :
  re_match PY_CLASS_PATTERN line = Some (g1, g2) ->
  hd_error g2 = Some (chr "c").
Proof.
  intros H.
  destruct (re_match_groups _ _ _ _ py_class_visible H) as [_ [_ [_ [tl [_ M]]]]].
  apply in_matches_seq in M as [ca [cb [Ha [_ [Hf _]]]]].
  simpl in Hf. rewrite Hf, (in_matches_lit _ _ _ Ha). reflexivity.
Qed.

Lemma py_func_head (line g1 g2 : str) :
  re_match PY_FUNC_PATTERN line = Some (g1, g2) ->
  hd_error g2 = Some (chr "a") \/ hd_error g2 = Some (chr "d").
Proof.
  intros H.
  destruct (re_match_groups _ _ _ _ py_func_visible H) as [_ [_ [_ [tl [_ M]]]]].
  apply in_matches_seq in M as [ca [cb [Ha [Hb [Hf _]]]]].
  simpl in Hf. rewrite Hf.
  change (In ca (matches (Seq (lit "async") (Plus ws)) (g2 ++ tl)
                 ++ [([], g2 ++ tl)])) in Ha.
  apply in_app_iff in Ha as [Ha|[<-|[]]].
  - left. apply in_matches_seq in Ha as [c1 [c2 [H1 [_ [Hf1 _]]]]].
    rewrite Hf1, (in_matches_lit _ _ _ H1). reflexivity.
  - right. simpl fst. simpl snd in Hb.
    apply in_matches_seq in Hb as [c1 [c2 [H1 [_ [Hf1 _]]]]].
    rewrite Hf1, (in_matches_lit _ _ _ H1). reflexivity.
Qed.

(** A class or function header is never a decorator line, and no line is
    both a class header and a function header. *)
Lemma py_class_not_decorator (line g1 g2 : str) :
  re_match PY_CLASS_PATTERN line = Some (g1, g2) ->
  re_match PY_DECORATOR_PATTERN line = None.
Proof.
  intros H. destruct (re_match PY_DECORATOR_PATTERN line) as [[h1 h2]|] eqn:D;
    [|reflexivity].
  destruct (match_same_line _ _ _ _ _ _ _ py_class_visible py_decorator_visible H D) as [_ E].
  rewrite (py_class_head _ _ _ H), (py_decorator_head _ _ _ D) in E. discriminate.
Qed.

Lemma py_func_not_decorator (line g1 g2 : str) :
  re_match PY_FUNC_PATTERN line = Some (g1, g2) ->
  re_match PY_DECORATOR_PATTERN line = None.
Proof.
  intros H. destruct (re_match PY_DECORATOR_PATTERN line) as [[h1 h2]|] eqn:D;
    [|reflexivity].
  destruct (match_same_line _ _ _ _ _ _ _ py_func_visible py_decorator_visible H D) as [_ E].
  rewrite (py_decorator_head _ _ _ D) in E.
  destruct (py_func_head _ _ _ H) as [F|F]; rewrite F in E; discriminate.
Qed.

Lemma py_class_not_func (line g1 g2 : str) :
  re_match PY_CLASS_PATTERN line = Some (g1, g2) ->
  re_match PY_FUNC_PATTERN line = None.
Proof.
  intros H. destruct (re_match PY_FUNC_PATTERN line) as [[h1 h2]|] eqn:D;
    [|reflexivity].
  destruct (match_same_line _ _ _ _ _ _ _ py_class_visible py_func_visible H D) as [_ E].
  rewrite (py_class_head _ _ _ H) in E.
  destruct (py_func_head _ _ _ D) as [F|F]; rewrite F in E; discriminate.
Qed.

End PatternFacts.

(** ** The Python loop *)

Section PythonLoop.
Context {db : UnicodeDB}.

Lemma leading_ws_entry (g1 tail : str) :
  forallb is_space g1 = true ->
  (exists x t, tail = x :: t /\ is_space x = false) ->
  leading_ws (g1 ++ tail) = g1.
Proof.
  intros H [x [t [-> Hx]]]. apply take_while_app; assumption.
Qed.

(** An entry made of the two groups of a match is cut out of the line. *)
Lemma entry_from_match (p : pattern) (l g1 g2 : str) :
  visible_start (body p) = true ->
  re_match p l = Some (g1, g2) ->
  is_prefix (g1 ++ g2) l /\ leading_ws (g1 ++ g2) = leading_ws l.
Proof.
  intros V H.
  destruct (re_match_groups _ _ _ _ V H) as [E1 [Sp [Hd [tl [E _]]]]].
  split.
  - exists tl. rewrite <- app_assoc. exact E.
  - rewrite leading_ws_entry; assumption.
Qed.

Lemma from_line_match (p : pattern) (lines : list str) (l g1 g2 : str) :
  visible_start (body p) = true -> In l lines ->
  re_match p l = Some (g1, g2) -> from_line lines (g1 ++ g2).
Proof.
  intros V Hin H. exists l. split; [exact Hin|].
  apply (entry_from_match p); assumption.
Qed.

Lemma py_matched (p : pattern) (l : str) (lines : list str) (g1 g2 : str) :
  In p py_patterns -> In l lines -> re_match p l = Some (g1, g2) ->
  matched_entry lines (g1 ++ g2).
Proof. intros Hp Hl M. exists p, l, g1, g2. auto. Qed.

Lemma matched_entry_from_line (lines : list str) (e : str) :
  matched_entry lines e -> from_line lines e.
Proof.
  intros [p [l [g1 [g2 [Hp [Hl [M ->]]]]]]].
  apply (from_line_match p lines l); [|exact Hl|exact M].
  pose proof py_patterns_visible as V. rewrite Forall_forall in V.
  apply V, Hp.
Qed.

(** The inner loop ends within the fuel that is left of the file, never
    moves the cursor past the end, and only collects decorators found on
    lines of the file at the given indent. *)
Lemma collect_decorators_total (fuel : nat) (lines : list str) (indent : str) :
  forall i acc, length lines - i < fuel ->
  exists i' ds,
    collect_decorators fuel lines indent i acc = Some (i', acc ++ ds) /\
    i <= i' /\ i' <= Nat.max i (length lines) /\
    Forall (fun d => exists l, In l lines /\
              re_match PY_DECORATOR_PATTERN l = Some (indent, d)) ds.
Proof.
  induction fuel as [|fuel IH]; intros i acc Hf; [lia|]. simpl.
  assert (Stop : exists i' ds, Some (i, acc) = Some (i', acc ++ ds) /\
            i <= i' /\ i' <= Nat.max i (length lines) /\
            Forall (fun d => exists l, In l lines /\
              re_match PY_DECORATOR_PATTERN l = Some (indent, d)) ds).
  { exists i, []. rewrite app_nil_r. repeat split; [lia|lia|constructor]. }
  destruct (Nat.ltb i (length lines)) eqn:Lt; [|exact Stop].
  apply Nat.ltb_lt in Lt.
  destruct (re_match PY_DECORATOR_PATTERN (nth i lines [])) as [[g1 g2]|] eqn:M;
    [|exact Stop].
  destruct (str_eqb g1 indent) eqn:E; [|exact Stop].
  apply str_eqb_eq in E; subst g1.
  destruct (IH (i + 1) (acc ++ [g2])) as [i' [ds [R [L1 [L2 F]]]]]; [lia|].
  exists i', (g2 :: ds). rewrite R, <- app_assoc. simpl.
  repeat split; [lia|lia|]. constructor; [|exact F].
  exists (nth i lines []). split; [apply nth_In; exact Lt|exact M].
Qed.

(** One round of the outer loop finishes, moves the cursor strictly
    forward without leaving the file, and only appends entries cut out of
    lines of the file. *)
Lemma py_iter_total (fuel : nat) (lines : list str) (i : nat)
    (signatures : list str) :
  i < length lines -> length lines - i <= fuel ->
  exists i' new,
    py_iter fuel lines i signatures = Some (i', signatures ++ new) /\
    i < i' /\ i' <= length lines /\ Forall (matched_entry lines) new.
Proof.
  intros Lt Hf. unfold py_iter.
  assert (Hin : In (nth i lines []) lines) by (apply nth_In; exact Lt).
  destruct (re_match PY_DECORATOR_PATTERN (nth i lines [])) as [[indent d]|] eqn:M.
  - destruct (collect_decorators_total fuel lines indent (i + 1) [d])
      as [i' [ds [R [L1 [L2 F]]]]]; [lia|]. rewrite R.
    assert (Fd : Forall (matched_entry lines) (map (app indent) ([d] ++ ds))).
    { apply Forall_forall. intros e He. apply in_map_iff in He as [d' [<- Hd]].
      destruct Hd as [<-|Hd].
      - apply (py_matched PY_DECORATOR_PATTERN (nth i lines [])); [simpl; tauto|exact Hin|exact M].
      - rewrite Forall_forall in F. destruct (F _ Hd) as [l [Hl Ml]].
        apply (py_matched PY_DECORATOR_PATTERN l); [simpl; tauto|exact Hl|exact Ml]. }
    assert (Skip : exists i'0 new, Some (i', signatures) =
               Some (i'0, signatures ++ new) /\ i < i'0 /\
               i'0 <= length lines /\ Forall (matched_entry lines) new).
    { exists i', []. rewrite app_nil_r. repeat split; [lia|lia|constructor]. }
    destruct (Nat.ltb i' (length lines)) eqn:Lt'; [|exact Skip].
    apply Nat.ltb_lt in Lt'.
    assert (Hin' : In (nth i' lines []) lines) by (apply nth_In; exact Lt').
    destruct (re_match PY_CLASS_PATTERN (nth i' lines [])) as [[g1 g2]|] eqn:C.
    + exists i', (map (app indent) ([d] ++ ds) ++ [g1 ++ g2]).
      repeat split; [lia|lia|]. apply Forall_app. split; [exact Fd|].
      constructor; [|constructor].
      apply (py_matched PY_CLASS_PATTERN (nth i' lines [])); [simpl; tauto|exact Hin'|exact C].
    + destruct (re_match PY_FUNC_PATTERN (nth i' lines [])) as [[g1 g2]|] eqn:Fn;
        [|exact Skip].
      exists i', (map (app indent) ([d] ++ ds) ++ [g1 ++ g2]).
      repeat split; [lia|lia|]. apply Forall_app. split; [exact Fd|].
      constructor; [|constructor].
      apply (py_matched PY_FUNC_PATTERN (nth i' lines [])); [simpl; tauto|exact Hin'|exact Fn].
  - destruct (re_match PY_CLASS_PATTERN (nth i lines [])) as [[g1 g2]|] eqn:C.
    + exists (i + 1), [g1 ++ g2]. repeat split; [lia|lia|].
      constructor; [|constructor].
      apply (py_matched PY_CLASS_PATTERN (nth i lines [])); [simpl; tauto|exact Hin|exact C].
    + destruct (re_match PY_FUNC_PATTERN (nth i lines [])) as [[g1 g2]|] eqn:Fn.
      * exists (i + 1), [g1 ++ g2]. repeat split; [lia|lia|].
        constructor; [|constructor].
        apply (py_matched PY_FUNC_PATTERN (nth i lines [])); [simpl; tauto|exact Hin|exact Fn].
      * exists (i + 1), []. rewrite app_nil_r.
        repeat split; [lia|lia|constructor].
Qed.

(** The outer loop returns whenever its fuel exceeds the number of lines
    still ahead of the cursor. *)
Lemma py_loop_total (fuel : nat) (lines : list str) :
  forall i signatures, length lines - i < fuel ->
  exists new,
    py_loop fuel lines i signatures = Some (signatures ++ new) /\
    Forall (matched_entry lines) new.
Proof.
  induction fuel as [|fuel IH]; intros i signatures Hf; [lia|]. simpl.
  destruct (Nat.ltb i (length lines)) eqn:Lt.
  - apply Nat.ltb_lt in Lt.
    destruct (py_iter_total (length lines) lines i signatures)
      as [i' [new [R [L1 [L2 F]]]]]; [exact Lt|lia|]. rewrite R.
    destruct (IH i' (signatures ++ new)) as [new' [R' F']]; [lia|].
    exists (new ++ new'). rewrite R', <- app_assoc.
    split; [reflexivity|]. apply Forall_app. split; assumption.
  - exists []. rewrite app_nil_r. split; [reflexivity|constructor].
Qed.

(** The inner loop on a run of decorators: it takes the whole run and stops
    at the end of the file or at the first line that does not carry the run
    on. *)
Lemma collect_decorators_run (indent : str) (post : list str) :
  match post with [] => True | h :: _ => ends_run indent h end ->
  forall run decs pre acc fuel,
    decorator_run indent run decs -> length run < fuel ->
    collect_decorators fuel (pre ++ run ++ post) indent (length pre) acc
    = Some (length pre + length run, acc ++ decs).
Proof.
  intros Hpost run. induction run as [|l run IH]; intros decs pre acc fuel R Hf;
    inversion R as [|l' d run' decs' M R']; subst;
    (destruct fuel as [|fuel]; [simpl in Hf; lia|]); simpl collect_decorators.
  - simpl app at 2. rewrite app_nil_r, Nat.add_0_r.
    destruct post as [|h post].
    + rewrite app_nil_r, Nat.ltb_irrefl. reflexivity.
    + rewrite nth_middle.
      destruct (Nat.ltb _ _); [|reflexivity].
      destruct (re_match PY_DECORATOR_PATTERN h) as [[g1 g2]|] eqn:M; [|reflexivity].
      destruct (str_eqb g1 indent) eqn:E; [|reflexivity].
      apply str_eqb_eq in E; subst g1. elim (Hpost g2). exact M.
  - change (pre ++ (l :: run) ++ post) with (pre ++ l :: run ++ post).
    rewrite nth_middle, M.
    replace (Nat.ltb (length pre) (length (pre ++ l :: run ++ post))) with true
      by (symmetry; apply Nat.ltb_lt; rewrite length_app; simpl; lia).
    replace (str_eqb indent indent) with true
      by (symmetry; apply str_eqb_eq; reflexivity).
    replace (pre ++ l :: run ++ post) with ((pre ++ [l]) ++ run ++ post)
      by (rewrite <- app_assoc; reflexivity).
    replace (length pre + 1) with (length (pre ++ [l]))
      by (rewrite length_app; reflexivity).
    rewrite (IH decs' (pre ++ [l]) (acc ++ [d]) fuel R');
      [|simpl in Hf; lia].
    rewrite length_app, <- app_assoc. simpl. f_equal. f_equal. lia.
Qed.

(** One round of the outer loop entered on the first line of a run of
    decorators. *)
Lemma py_iter_run (indent : str) (pre run post : list str) (decs : list str)
    (signatures : list str) (fuel : nat) :
  run <> [] -> decorator_run indent run decs ->
  match post with [] => True | h :: _ => ends_run indent h end ->
  length run <= fuel ->
  py_iter fuel (pre ++ run ++ post) (length pre) signatures
  = match post with
    | [] => Some (length pre + length run, signatures)
    | h :: _ =>
        match re_match PY_CLASS_PATTERN h, re_match PY_FUNC_PATTERN h with
        | Some (g1, g2), _ =>
            Some (length pre + length run,
                  signatures ++ map (app indent) decs ++ [g1 ++ g2])
        | None, Some (g1, g2) =>
            Some (length pre + length run,
                  signatures ++ map (app indent) decs ++ [g1 ++ g2])
        | None, None => Some (length pre + length run, signatures)
        end
    end.
Proof.
  intros Hne R Hpost Hf. destruct run as [|l run]; [congruence|].
  inversion R as [|l' d run' decs' M R']; subst.
  unfold py_iter.
  change (pre ++ (l :: run) ++ post) with (pre ++ l :: run ++ post).
  rewrite nth_middle, M.
  replace (pre ++ l :: run ++ post) with ((pre ++ [l]) ++ run ++ post)
    by (rewrite <- app_assoc; reflexivity).
  replace (length pre + 1) with (length (pre ++ [l]))
    by (rewrite length_app; reflexivity).
  rewrite (collect_decorators_run indent post Hpost run decs' (pre ++ [l]) [d] fuel R');
    [|simpl in Hf; lia].
  replace (length (pre ++ [l]) + length run) with (length pre + length (l :: run))
    by (rewrite length_app; simpl; lia).
  destruct post as [|h post].
  - replace (Nat.ltb _ _) with false; [reflexivity|].
    symmetry. apply Nat.ltb_ge. rewrite !length_app. simpl. lia.
  - replace (Nat.ltb _ _) with true
      by (symmetry; apply Nat.ltb_lt; rewrite !length_app; simpl; lia).
    replace (nth (length pre + length (l :: run))
                 ((pre ++ [l]) ++ run ++ h :: post) []) with h; [reflexivity|].
    replace ((pre ++ [l]) ++ run ++ h :: post) with ((pre ++ l :: run) ++ h :: post)
      by (rewrite <- !app_assoc; reflexivity).
    replace (length pre + length (l :: run)) with (length (pre ++ l :: run))
      by (rewrite length_app; reflexivity).
    rewrite nth_middle. reflexivity.
Qed.

(** A run of decorators followed by a line that is no header appends
    nothing and leaves the cursor on that line. *)
Lemma orphan_decorators_emit_nothing
    (pre run post decs : list str) (I x : str) (signatures : list str) :
  run <> [] -> decorator_run I run decs -> ends_run I x ->
  re_match PY_CLASS_PATTERN x = None -> re_match PY_FUNC_PATTERN x = None ->
  let lines := pre ++ run ++ x :: post in
  py_iter (length lines) lines (length pre) signatures
  = Some (length pre + length run, signatures) /\
  nth (length pre + length run) lines [] = x.
Proof.
  intros Hne R Hx C F lines. split.
  - unfold lines. rewrite (py_iter_run I pre run (x :: post) decs); auto.
    + rewrite C, F. reflexivity.
    + rewrite !length_app. lia.
  - unfold lines. rewrite app_assoc, <- length_app. apply nth_middle.
Qed.

(** A header line ends any decorator run. *)
Lemma py_header_ends_run (indent h g1 g2 : str) :
  re_match PY_CLASS_PATTERN h = Some (g1, g2) \/
  re_match PY_FUNC_PATTERN h = Some (g1, g2) ->
  ends_run indent h.
Proof.
  intros [H|H] d.
  - rewrite (py_class_not_decorator _ _ _ H). discriminate.
  - rewrite (py_func_not_decorator _ _ _ H). discriminate.
Qed.

(** ** The loop as a function of the lines ahead *)

Lemma skipn_nth (lines : list str) :
  forall i, i < length lines ->
    skipn i lines = nth i lines [] :: skipn (S i) lines.
Proof.
  induction lines as [|l lines IH]; intros i Lt; [simpl in Lt; lia|].
  destruct i as [|i]; [reflexivity|]. simpl. apply IH. simpl in Lt. lia.
Qed.

Lemma py_plain_class (l g1 g2 : str) :
  re_match PY_CLASS_PATTERN l = Some (g1, g2) -> py_plain l = Some (g1 ++ g2).
Proof. intros H. unfold py_plain. rewrite H. reflexivity. Qed.

Lemma py_plain_func (l g1 g2 : str) :
  re_match PY_CLASS_PATTERN l = None ->
  re_match PY_FUNC_PATTERN l = Some (g1, g2) -> py_plain l = Some (g1 ++ g2).
Proof. intros C H. unfold py_plain. rewrite C, H. reflexivity. Qed.

(** A header line is no decorator line. *)
Lemma py_plain_not_decorator (l e : str) :
  py_plain l = Some e -> re_match PY_DECORATOR_PATTERN l = None.
Proof.
  unfold py_plain.
  destruct (re_match PY_CLASS_PATTERN l) as [[g1 g2]|] eqn:C.
  - intros _. apply (py_class_not_decorator _ _ _ C).
  - destruct (re_match PY_FUNC_PATTERN l) as [[g1 g2]|] eqn:F; [|discriminate].
    intros _. apply (py_func_not_decorator _ _ _ F).
Qed.

Lemma decorator_not_plain (l g1 g2 : str) :
  re_match PY_DECORATOR_PATTERN l = Some (g1, g2) -> py_plain l = None.
Proof.
  intros M. destruct (py_plain l) as [e|] eqn:P; [|reflexivity].
  rewrite (py_plain_not_decorator _ _ P) in M. discriminate.
Qed.

Lemma decorator_not_empty (g1 g2 : str) :
  re_match PY_DECORATOR_PATTERN [] <> Some (g1, g2).
Proof.
  intros M. pose proof (py_decorator_head _ _ _ M) as H.
  destruct (re_match_groups _ _ _ _ py_decorator_visible M)
    as [_ [_ [_ [tl [E _]]]]].
  destruct g1; [|discriminate]. destruct g2; discriminate.
Qed.

Lemma run_decs_length (indent : str) (rest : list str) :
  length (run_decs indent rest) <= length rest.
Proof.
  induction rest as [|l more IH]; simpl; [lia|].
  destruct (re_match PY_DECORATOR_PATTERN l) as [[g1 g2]|]; simpl; [|lia].
  destruct (str_eqb g1 indent); simpl; lia.
Qed.

(** The inner loop collects [run_decs]. *)
Lemma collect_decorators_list (lines : list str) (indent : str) :
  forall fuel i acc, length lines - i < fuel ->
    collect_decorators fuel lines indent i acc
    = Some (i + length (run_decs indent (skipn i lines)),
            acc ++ run_decs indent (skipn i lines)).
Proof.
  induction fuel as [|fuel IH]; intros i acc Hf; [lia|]. simpl.
  destruct (Nat.ltb i (length lines)) eqn:Lt.
  - apply Nat.ltb_lt in Lt. rewrite (skipn_nth lines i Lt). simpl run_decs.
    destruct (re_match PY_DECORATOR_PATTERN (nth i lines [])) as [[g1 g2]|];
      [|rewrite Nat.add_0_r, app_nil_r; reflexivity].
    destruct (str_eqb g1 indent);
      [|rewrite Nat.add_0_r, app_nil_r; reflexivity].
    rewrite IH by lia. replace (i + 1) with (S i) by lia.
    simpl length. rewrite <- app_assoc. f_equal. f_equal. lia.
  - apply Nat.ltb_ge in Lt. rewrite skipn_all2 by lia. simpl.
    rewrite Nat.add_0_r, app_nil_r. reflexivity.
Qed.

(** One round of the loop is [py_round] on the lines ahead. *)
Lemma py_iter_round (fuel : nat) (lines : list str) (i : nat)
    (signatures : list str) :
  i < length lines -> length lines - i <= fuel ->
  py_iter fuel lines i signatures
  = Some (i + fst (py_round (skipn i lines)),
          signatures ++ snd (py_round (skipn i lines))).
Proof.
  intros Lt Hf. unfold py_iter. rewrite (skipn_nth lines i Lt).
  unfold py_round.
  destruct (re_match PY_DECORATOR_PATTERN (nth i lines [])) as [[indent d]|].
  - rewrite collect_decorators_list by lia.
    replace (i + 1) with (S i) by lia.
    set (ds := run_decs indent (skipn (S i) lines)).
    rewrite skipn_skipn. cbn [fst snd].
    replace (i + S (length ds)) with (S i + length ds) by lia.
    replace (length ds + S i) with (S i + length ds) by lia.
    destruct (Nat.ltb (S i + length ds) (length lines)) eqn:Lt'.
    + apply Nat.ltb_lt in Lt'. rewrite (skipn_nth lines _ Lt').
      unfold py_plain.
      destruct (re_match PY_CLASS_PATTERN (nth (S i + length ds) lines []))
        as [[g1 g2]|]; [reflexivity|].
      destruct (re_match PY_FUNC_PATTERN (nth (S i + length ds) lines []))
        as [[g1 g2]|]; [reflexivity|].
      rewrite app_nil_r. reflexivity.
    + apply Nat.ltb_ge in Lt'. rewrite skipn_all2 by lia.
      rewrite app_nil_r. reflexivity.
  - cbn [fst snd]. unfold py_plain.
    destruct (re_match PY_CLASS_PATTERN (nth i lines [])) as [[g1 g2]|];
      [reflexivity|].
    destruct (re_match PY_FUNC_PATTERN (nth i lines [])) as [[g1 g2]|];
      [reflexivity|].
    rewrite app_nil_r. reflexivity.
Qed.

Lemma py_round_bounds (l : str) (more : list str) :
  1 <= fst (py_round (l :: more)) <= length (l :: more).
Proof.
  unfold py_round.
  destruct (re_match PY_DECORATOR_PATTERN l) as [[indent d]|]; cbn [fst].
  - pose proof (run_decs_length indent more). simpl. lia.
  - simpl. lia.
Qed.

Lemma py_rounds_fuel (f1 : nat) :
  forall f2 rest, length rest <= f1 -> length rest <= f2 ->
    py_rounds f1 rest = py_rounds f2 rest.
Proof.
  induction f1 as [|f1 IH]; intros f2 rest H1 H2.
  - destruct rest; [|simpl in H1; lia]. destruct f2; reflexivity.
  - destruct rest as [|l more]; [destruct f2; reflexivity|].
    destruct f2 as [|f2]; [simpl in H2; lia|].
    cbn [py_rounds]. f_equal.
    pose proof (py_round_bounds l more) as B.
    assert (L : length (skipn (fst (py_round (l :: more))) (l :: more))
                <= length more).
    { rewrite length_skipn. simpl length in *. lia. }
    apply IH; simpl in H1, H2; lia.
Qed.

Lemma py_entries_nil : py_entries [] = [].
Proof. reflexivity. Qed.

Lemma py_entries_step (l : str) (more : list str) :
  py_entries (l :: more)
  = snd (py_round (l :: more))
    ++ py_entries (skipn (fst (py_round (l :: more))) (l :: more)).
Proof.
  unfold py_entries. cbn [length py_rounds]. f_equal.
  pose proof (py_round_bounds l more) as B.
  apply py_rounds_fuel; rewrite ?length_skipn; simpl length in *; lia.
Qed.

(** The loop from the cursor on appends [py_entries] of the lines ahead. *)
Lemma py_loop_entries (lines : list str) :
  forall fuel i signatures, length lines - i < fuel ->
    py_loop fuel lines i signatures
    = Some (signatures ++ py_entries (skipn i lines)).
Proof.
  induction fuel as [|fuel IH]; intros i signatures Hf; [lia|].
  simpl. destruct (Nat.ltb i (length lines)) eqn:Lt.
  - apply Nat.ltb_lt in Lt.
    rewrite (py_iter_round (length lines) lines i signatures Lt) by lia.
    assert (B : 1 <= fst (py_round (skipn i lines))).
    { rewrite (skipn_nth lines i Lt). apply py_round_bounds. }
    rewrite IH by lia.
    rewrite <- app_assoc. f_equal. f_equal.
    assert (E : py_entries (skipn i lines)
                = snd (py_round (skipn i lines))
                  ++ py_entries (skipn (fst (py_round (skipn i lines)))
                                       (skipn i lines))).
    { rewrite (skipn_nth lines i Lt). apply py_entries_step. }
    rewrite E, skipn_skipn. f_equal. f_equal. f_equal. lia.
  - apply Nat.ltb_ge in Lt. rewrite skipn_all2 by lia.
    rewrite py_entries_nil, app_nil_r. reflexivity.
Qed.

Lemma extract_python_entries (fs : filesystem) (filepath : str)
    (bytes : list N) :
  fs filepath = Content bytes ->
  extract_python_signatures fs filepath
  = Some (py_entries (file_lines bytes)).
Proof.
  intros H. unfold extract_python_signatures. rewrite H. cbv zeta.
  rewrite py_loop_entries by lia. reflexivity.
Qed.

Lemma py_loop_whole (lines : list str) :
  py_loop (S (length lines)) lines 0 [] = Some (py_entries lines).
Proof. rewrite py_loop_entries by lia. reflexivity. Qed.

(** A line that is no decorator gives its entry and the scan goes on with
    the next line. *)
Lemma py_entries_plain (l : str) (more : list str) :
  re_match PY_DECORATOR_PATTERN l = None ->
  py_entries (l :: more)
  = match py_plain l with
    | Some e => [e]
    | None => []
    end ++ py_entries more.
Proof.
  intros M. rewrite py_entries_step. unfold py_round. rewrite M.
  reflexivity.
Qed.

(** What the inner loop collects on a run and what stops it. *)
Lemma run_decs_run (I : str) (run decs rest : list str) :
  decorator_run I run decs ->
  match rest with [] => True | x :: _ => ends_run I x end ->
  run_decs I (run ++ rest) = decs.
Proof.
  intros R Hrest. induction R as [|l d run decs M R IH]; simpl.
  - destruct rest as [|x rest]; [reflexivity|]. simpl.
    destruct (re_match PY_DECORATOR_PATTERN x) as [[g1 g2]|] eqn:Mx;
      [|reflexivity].
    destruct (str_eqb g1 I) eqn:E; [|reflexivity].
    apply str_eqb_eq in E. subst g1. elim (Hrest g2). exact Mx.
  - rewrite M. replace (str_eqb I I) with true
      by (symmetry; apply str_eqb_eq; reflexivity).
    rewrite IH. reflexivity.
Qed.

Lemma decorator_run_length (I : str) (run decs : list str) :
  decorator_run I run decs -> length run = length decs.
Proof.
  intros R. induction R; simpl; [reflexivity|]. f_equal. assumption.
Qed.

(** A run of decorators: its entries are appended with the header that
    follows it, if a header follows, and the scan goes on from the line
    after the run. *)
Lemma py_entries_run (I : str) (run decs rest : list str) :
  run <> [] -> decorator_run I run decs ->
  match rest with [] => True | x :: _ => ends_run I x end ->
  py_entries (run ++ rest)
  = match rest with
    | h :: _ =>
        match py_plain h with
        | Some e => map (app I) decs ++ [e]
        | None => []
        end
    | [] => []
    end ++ py_entries rest.
Proof.
  intros Hne R Hrest. destruct R as [|l d run decs M R]; [congruence|].
  change ((l :: run) ++ rest) with (l :: run ++ rest).
  rewrite py_entries_step. unfold py_round. rewrite M.
  rewrite (run_decs_run I run decs rest R Hrest).
  rewrite <- (decorator_run_length I run decs R).
  cbn [fst snd]. rewrite skipn_app, Nat.sub_diag, skipn_all. simpl app at 1.
  cbn [skipn]. rewrite skipn_app, Nat.sub_diag, skipn_all. simpl.
  destruct rest as [|h rest]; reflexivity.
Qed.

Lemma in_skipn_in {A : Type} (x : A) (n : nat) (l : list A) :
  In x (skipn n l) -> In x l.
Proof.
  revert l. induction n as [|n IH]; intros l H; [exact H|].
  destruct l as [|y l]; [exact H|]. right. apply IH. exact H.
Qed.

Lemma py_round_no_header (rest : list str) :
  Forall (fun l => py_plain l = None) rest -> snd (py_round rest) = [].
Proof.
  intros F. destruct rest as [|l more]; [reflexivity|]. unfold py_round.
  destruct (re_match PY_DECORATOR_PATTERN l) as [[indent d]|]; cbn [snd].
  - destruct (skipn (length (run_decs indent more)) more) as [|h tl] eqn:E;
      [reflexivity|].
    assert (Hh : In h (l :: more)).
    { right. apply (in_skipn_in h (length (run_decs indent more))).
      rewrite E. left. reflexivity. }
    rewrite (proj1 (Forall_forall _ _) F h Hh). reflexivity.
  - rewrite (Forall_inv F). reflexivity.
Qed.

Lemma Forall_skipn {A : Type} (P : A -> Prop) (n : nat) (l : list A) :
  Forall P l -> Forall P (skipn n l).
Proof.
  intros F. apply Forall_forall. intros x Hx.
  apply (proj1 (Forall_forall _ _) F). apply (in_skipn_in x n). exact Hx.
Qed.

(** Lines without a header give no entry. *)
Lemma py_rounds_no_header (fuel : nat) :
  forall rest, Forall (fun l => py_plain l = None) rest ->
    py_rounds fuel rest = [].
Proof.
  induction fuel as [|fuel IH]; intros rest F; [reflexivity|].
  destruct rest as [|l more]; [reflexivity|]. cbn [py_rounds].
  rewrite (py_round_no_header _ F), IH; [reflexivity|].
  apply Forall_skipn. exact F.
Qed.

Lemma py_entries_no_header (lines : list str) :
  Forall (fun l => py_plain l = None) lines -> py_entries lines = [].
Proof. apply py_rounds_no_header. Qed.

Lemma run_decs_app_short (I : str) (more rest : list str) :
  length (run_decs I more) < length more ->
  run_decs I (more ++ rest) = run_decs I more.
Proof.
  induction more as [|l more IH]; simpl; [lia|].
  destruct (re_match PY_DECORATOR_PATTERN l) as [[g1 g2]|]; [|reflexivity].
  destruct (str_eqb g1 I); [|reflexivity].
  simpl. intros H. rewrite IH by lia. reflexivity.
Qed.

Lemma run_decs_app_full (I : str) (more rest : list str) :
  length (run_decs I more) = length more ->
  match rest with [] => True | x :: _ => ends_run I x end ->
  run_decs I (more ++ rest) = run_decs I more.
Proof.
  intros H Hrest. induction more as [|l more IH]; simpl in *.
  - destruct rest as [|x rest]; [reflexivity|]. simpl.
    destruct (re_match PY_DECORATOR_PATTERN x) as [[g1 g2]|] eqn:Mx;
      [|reflexivity].
    destruct (str_eqb g1 I) eqn:E; [|reflexivity].
    apply str_eqb_eq in E. subst g1. elim (Hrest g2). exact Mx.
  - destruct (re_match PY_DECORATOR_PATTERN l) as [[g1 g2]|];
      [|simpl in H; lia].
    destruct (str_eqb g1 I); [|simpl in H; lia].
    simpl in H. rewrite IH by lia. reflexivity.
Qed.

(** When the inner loop takes every line, the last line is a decorator at
    the indent of the run. *)
Lemma run_decs_full_last (I l d : str) (more : list str) :
  re_match PY_DECORATOR_PATTERN l = Some (I, d) ->
  length (run_decs I more) = length more ->
  exists d', re_match PY_DECORATOR_PATTERN (last (l :: more) []) = Some (I, d').
Proof.
  revert l d. induction more as [|x more IH]; intros l d M H.
  - exists d. exact M.
  - simpl in H.
    destruct (re_match PY_DECORATOR_PATTERN x) as [[g1 g2]|] eqn:Mx;
      [|simpl in H; lia].
    destruct (str_eqb g1 I) eqn:E; [|simpl in H; lia].
    apply str_eqb_eq in E. subst g1. simpl in H.
    change (last (l :: x :: more) []) with (last (x :: more) []).
    apply (IH x g2 Mx). lia.
Qed.

Lemma last_skipn {A : Type} (d : A) (n : nat) (l : list A) :
  skipn n l <> [] -> last (skipn n l) d = last l d.
Proof.
  revert l. induction n as [|n IH]; intros l H; [reflexivity|].
  destruct l as [|x l]; [reflexivity|]. simpl skipn in *.
  rewrite (IH l H). destruct l as [|y l]; [|reflexivity].
  rewrite skipn_nil in H. congruence.
Qed.

Lemma round_boundary_nil (rest : list str) : round_boundary [] rest.
Proof. intros I d M. elim (decorator_not_empty _ _ M). Qed.

Lemma round_boundary_tail (l : str) (more rest : list str) :
  round_boundary (l :: more) rest -> round_boundary more rest.
Proof.
  intros B. destruct more as [|x more]; [apply round_boundary_nil|].
  exact B.
Qed.

(** The entries of two pieces put end to end, when no round reaches from
    the first piece into the second. *)
Lemma py_entries_app (n : nat) :
  forall pre rest, length pre <= n -> round_boundary pre rest ->
    py_entries (pre ++ rest) = py_entries pre ++ py_entries rest.
Proof.
  induction n as [|n IH]; intros pre rest Hn B.
  { destruct pre; [reflexivity|simpl in Hn; lia]. }
  destruct pre as [|l more]; [reflexivity|].
  change ((l :: more) ++ rest) with (l :: more ++ rest).
  rewrite (py_entries_step l (more ++ rest)), (py_entries_step l more).
  unfold py_round.
  destruct (re_match PY_DECORATOR_PATTERN l) as [[I0 d]|] eqn:M.
  - cbn [fst snd skipn].
    destruct (Nat.eq_dec (length (run_decs I0 more)) (length more)) as [Full|Short].
    + destruct (run_decs_full_last I0 l d more M Full) as [d' Ml].
      pose proof (B I0 d' Ml) as Hrest.
      assert (Hends : match rest with [] => True | x :: _ => ends_run I0 x end).
      { destruct rest; [exact I|exact (proj2 Hrest)]. }
      rewrite (run_decs_app_full I0 more rest Full Hends), Full.
      rewrite skipn_app, Nat.sub_diag, skipn_all. cbn [skipn app].
      rewrite py_entries_nil. cbn [app].
      destruct rest as [|x rest]; [reflexivity|].
      rewrite (proj1 Hrest). reflexivity.
    + pose proof (run_decs_length I0 more) as Le.
      rewrite (run_decs_app_short I0 more rest) by lia.
      set (k := length (run_decs I0 more)) in *.
      rewrite skipn_app.
      replace (k - length more) with 0 by lia. cbn [skipn].
      destruct (skipn k more) as [|h tl] eqn:E.
      { exfalso. apply (f_equal (@length str)) in E.
        rewrite length_skipn in E. simpl in E. lia. }
      cbn [app]. rewrite <- app_assoc. f_equal.
      change (h :: tl ++ rest) with ((h :: tl) ++ rest).
      apply IH.
      * rewrite <- E, length_skipn. simpl in Hn. lia.
      * intros I d0 Ml. apply (B I d0).
        assert (Hl : last (l :: more) [] = last (h :: tl) []).
        { destruct more as [|y more]; [rewrite skipn_nil in E; discriminate|].
          change (last (l :: y :: more) []) with (last (y :: more) []).
          rewrite <- E. symmetry. apply last_skipn. rewrite E. discriminate. }
        rewrite Hl. exact Ml.
  - cbn [fst snd skipn]. rewrite <- app_assoc. f_equal.
    apply IH; [simpl in Hn; lia|].
    apply (round_boundary_tail l). exact B.
Qed.

(** A run of decorators that is taken from its first line and followed by
    a header, between two pieces of a file: the pieces give what they give
    alone, the run and the header give the decorators, the header, and the
    header once more, since the round of the run leaves the cursor on the
    header. *)
Lemma py_entries_decorated (pre run post decs : list str) (I h e : str) :
  run <> [] -> decorator_run I run decs -> py_plain h = Some e ->
  ends_run I (last pre []) ->
  py_entries (pre ++ run ++ h :: post)
  = py_entries pre ++ map (app I) decs ++ [e; e] ++ py_entries post.
Proof.
  intros Hne R P Hpre.
  assert (Dh : re_match PY_DECORATOR_PATTERN h = None)
    by (apply (py_plain_not_decorator _ _ P)).
  assert (B : round_boundary pre (run ++ h :: post)).
  { intros I' d' Ml. destruct R as [|l d run decs M R]; [congruence|].
    simpl. split; [apply (decorator_not_plain _ _ _ M)|].
    intros d0 E. rewrite M in E. inversion E; subst.
    exact (Hpre d' Ml). }
  rewrite (py_entries_app (length pre) pre _ (le_n _) B).
  rewrite (py_entries_run I run decs (h :: post) Hne R)
    by (intros d0 E; rewrite Dh in E; discriminate).
  rewrite P, (py_entries_plain h post Dh), P.
  rewrite <- !app_assoc. reflexivity.
Qed.

(** ** Claims about the Python extractor *)

(** C8.  The Python extraction loop terminates on every list of lines: a
    round of the outer loop returns and moves the cursor strictly forward
    (the decorator branch steps past the first decorator before anything
    else), the loop returns once its fuel exceeds the lines left, and so
    the extractor always returns a list. *)
Theorem py_extraction_terminates :
  (forall lines i signatures, i < length lines ->
     exists i' signatures',
       py_iter (length lines) lines i signatures = Some (i', signatures') /\
       i < i' /\ i' <= length lines) /\
  (forall lines i signatures fuel, length lines - i < fuel ->
     exists r, py_loop fuel lines i signatures = Some r) /\
  (forall fs filepath,
     exists r, extract_python_signatures fs filepath = Some r).
Proof.
  split; [|split].
  - intros lines i signatures Lt.
    destruct (py_iter_total (length lines) lines i signatures Lt)
      as [i' [new [R [L1 [L2 _]]]]]; [lia|].
    exists i', (signatures ++ new). auto.
  - intros lines i signatures fuel Hf.
    destruct (py_loop_total fuel lines i signatures Hf) as [new [R _]].
    exists (signatures ++ new). exact R.
  - intros fs filepath. unfold extract_python_signatures.
    destruct (fs filepath) as [e|bytes].
    + exists [py_error e]. reflexivity.
    + destruct (py_loop_total (S (length (file_lines bytes)))
                  (file_lines bytes) 0 []) as [new [R _]]; [lia|].
      exists new. exact R.
Qed.

Lemma decorator_run_indent (indent : str) (run decs : list str) :
  decorator_run indent run decs ->
  Forall (fun e => leading_ws e = indent) (map (app indent) decs).
Proof.
  intros R. induction R as [|l d run decs M R IH]; simpl; constructor; auto.
  destruct (re_match_groups _ _ _ _ py_decorator_visible M) as [_ [Sp [Hd _]]].
  apply leading_ws_entry; assumption.
Qed.

(** C9.  A run of decorators at indent [I] followed by a class or function
    header at another indent [J] is still attached: the round appends the
    decorators at indent [I] and then the header at its own indent [J].
    So does the extractor on a file in which such a run, taken from its
    first line, stands between the lines [pre] and [post]: its list is the
    entries of [pre], the decorators at indent [I], the header at indent
    [J], the header again (the round leaves the cursor on the header line)
    and the entries of [post]. *)
Theorem decorators_attach_across_indents
    (pre run post decs : list str) (I J h text : str)
    (signatures : list str) :
  run <> [] -> decorator_run I run decs ->
  re_match PY_CLASS_PATTERN h = Some (J, text) \/
  re_match PY_FUNC_PATTERN h = Some (J, text) ->
  J <> I ->
  let lines := pre ++ run ++ h :: post in
  py_iter (length lines) lines (length pre) signatures
  = Some (length pre + length run,
          signatures ++ map (app I) decs ++ [J ++ text]) /\
  Forall (fun e => leading_ws e = I) (map (app I) decs) /\
  leading_ws (J ++ text) = J /\
  (ends_run I (last pre []) ->
   exists before after,
     py_loop (S (length pre)) pre 0 [] = Some before /\
     py_loop (S (length post)) post 0 [] = Some after /\
     py_loop (S (length lines)) lines 0 []
     = Some (before ++ map (app I) decs ++ [J ++ text; J ++ text] ++ after) /\
     forall fs filepath bytes,
       fs filepath = Content bytes -> file_lines bytes = lines ->
       extract_python_signatures fs filepath
       = Some (before ++ map (app I) decs ++ [J ++ text; J ++ text]
               ++ after)).
Proof.
  intros Hne R Hh _ lines. split; [|split; [|split]]; cycle 3.
  { intros Hpre. exists (py_entries pre), (py_entries post).
    assert (P : py_plain h = Some (J ++ text)).
    { destruct Hh as [C|F]; [apply py_plain_class, C|].
      destruct (re_match PY_CLASS_PATTERN h) as [[g1 g2]|] eqn:C;
        [rewrite (py_class_not_func _ _ _ C) in F; discriminate|].
      apply py_plain_func; assumption. }
    assert (E : py_entries lines
                = py_entries pre ++ map (app I) decs
                  ++ [J ++ text; J ++ text] ++ py_entries post)
      by (apply py_entries_decorated; assumption).
    repeat split.
    - apply py_loop_whole.
    - apply py_loop_whole.
    - rewrite py_loop_whole, E. reflexivity.
    - intros fs filepath bytes Hfs Hl.
      rewrite (extract_python_entries fs filepath bytes Hfs), Hl, E.
      reflexivity. }
  - unfold lines. rewrite (py_iter_run I pre run (h :: post) decs); auto.
    + destruct Hh as [C|F].
      * rewrite C. reflexivity.
      * destruct (re_match PY_CLASS_PATTERN h) as [[g1 g2]|] eqn:C.
        -- rewrite (py_class_not_func _ _ _ C) in F. discriminate.
        -- rewrite F. reflexivity.
    + apply (py_header_ends_run I h J text Hh).
    + rewrite !length_app. lia.
  - apply decorator_run_indent with (run := run). exact R.
  - destruct Hh as [C|F].
    + destruct (re_match_groups _ _ _ _ py_class_visible C) as [_ [Sp [Hd _]]].
      apply leading_ws_entry; assumption.
    + destruct (re_match_groups _ _ _ _ py_func_visible F) as [_ [Sp [Hd _]]].
      apply leading_ws_entry; assumption.
Qed.

(** C10.  A run of decorators that reaches the end of the file appends
    nothing: the round leaves the signature list as it was with the cursor
    at the end, and the loop then returns that list. *)
Theorem trailing_decorators_emit_nothing
    (pre run decs : list str) (I : str) (signatures : list str) :
  run <> [] -> decorator_run I run decs ->
  let lines := pre ++ run in
  py_iter (length lines) lines (length pre) signatures
  = Some (length lines, signatures) /\
  forall fuel, 2 <= fuel ->
    py_loop fuel lines (length pre) signatures = Some signatures.
Proof.
  intros Hne R lines.
  assert (E : py_iter (length lines) lines (length pre) signatures
              = Some (length lines, signatures)).
  { unfold lines.
    assert (Hf : length run <= length (pre ++ run))
      by (rewrite length_app; lia).
    pose proof (py_iter_run I pre run [] decs signatures _ Hne R Logic.I Hf) as P.
    rewrite app_nil_r in P. rewrite P, length_app. reflexivity. }
  split; [exact E|]. intros [|[|fuel]] Hf; [lia|lia|].
  simpl py_loop. fold lines.
  replace (Nat.ltb (length pre) (length lines)) with true.
  - rewrite E, Nat.ltb_irrefl. reflexivity.
  - symmetry. apply Nat.ltb_lt. unfold lines. rewrite length_app.
    destruct run; [congruence|simpl; lia].
Qed.

(** C1.  What the code does on a run of decorators followed by a header:
    the decorator round appends the decorators and the header but leaves the
    cursor on the header line, so the next round appends the header a second
    time; two rounds yield the run, the header and the header again. *)
Theorem decorated_header_is_appended_twice
    (pre run post decs : list str) (I J h text : str)
    (signatures : list str) (fuel : nat) :
  run <> [] -> decorator_run I run decs ->
  re_match PY_CLASS_PATTERN h = Some (J, text) \/
  re_match PY_FUNC_PATTERN h = Some (J, text) ->
  let lines := pre ++ run ++ h :: post in
  py_iter (length lines) lines (length pre) signatures
  = Some (length pre + length run,
          signatures ++ map (app I) decs ++ [J ++ text]) /\
  py_loop (S (S fuel)) lines (length pre) signatures
  = py_loop fuel lines (length pre + length run + 1)
      (signatures ++ map (app I) decs ++ [J ++ text; J ++ text]).
Proof.
  intros Hne R Hh lines.
  assert (E : py_iter (length lines) lines (length pre) signatures
              = Some (length pre + length run,
                      signatures ++ map (app I) decs ++ [J ++ text])).
  { unfold lines. rewrite (py_iter_run I pre run (h :: post) decs); auto.
    - destruct Hh as [C|F].
      + rewrite C. reflexivity.
      + destruct (re_match PY_CLASS_PATTERN h) as [[g1 g2]|] eqn:C.
        * rewrite (py_class_not_func _ _ _ C) in F. discriminate.
        * rewrite F. reflexivity.
    - apply (py_header_ends_run I h J text Hh).
    - rewrite !length_app. lia. }
  split; [exact E|].
  assert (L1 : Nat.ltb (length pre) (length lines) = true).
  { apply Nat.ltb_lt. unfold lines. rewrite !length_app. simpl. lia. }
  assert (L2 : Nat.ltb (length pre + length run) (length lines) = true).
  { apply Nat.ltb_lt. unfold lines. rewrite !length_app. simpl. lia. }
  assert (N : nth (length pre + length run) lines [] = h).
  { unfold lines. rewrite app_assoc, <- length_app. apply nth_middle. }
  change (py_loop (S (S fuel)) lines (length pre) signatures) with
    (if Nat.ltb (length pre) (length lines)
     then match py_iter (length lines) lines (length pre) signatures with
          | Some (i', s') => py_loop (S fuel) lines i' s'
          | None => None
          end
     else Some signatures).
  rewrite L1, E. simpl py_loop. rewrite L2.
  unfold py_iter. rewrite N.
  assert (D : re_match PY_DECORATOR_PATTERN h = None).
  { destruct Hh as [C|F];
      [apply (py_class_not_decorator _ _ _ C)|apply (py_func_not_decorator _ _ _ F)]. }
  rewrite D.
  destruct Hh as [C|F].
  - rewrite C. f_equal. rewrite <- !app_assoc. reflexivity.
  - destruct (re_match PY_CLASS_PATTERN h) as [[g1 g2]|] eqn:C.
    + rewrite (py_class_not_func _ _ _ C) in F. discriminate.
    + rewrite F. f_equal. rewrite <- !app_assoc. reflexivity.
Qed.

End PythonLoop.

(** ** Strings *)

Section StringFacts.
Context {db : UnicodeDB}.

Lemma drop_while_visible (s : str) : starts_visible (drop_while is_space s).
Proof.
  induction s as [|x t IH]; simpl; [left; reflexivity|].
  destruct (is_space x) eqn:E; [exact IH|].
  right. exists x, t. auto.
Qed.

Lemma drop_while_snoc (p : char -> bool) (a : str) (x : char) :
  p x = false -> exists a', drop_while p (a ++ [x]) = a' ++ [x].
Proof.
  intros Hx. induction a as [|y a IH]; simpl.
  - rewrite Hx. exists []. reflexivity.
  - destruct (p y); [exact IH|]. exists (y :: a). reflexivity.
Qed.

Lemma rstrip_keeps_head (x : char) (t : str) :
  is_space x = false -> exists t', rstrip (x :: t) = x :: t'.
Proof.
  intros Hx. unfold rstrip. simpl rev.
  destruct (drop_while_snoc is_space (rev t) x Hx) as [a' E].
  rewrite E, rev_app_distr. exists (rev a'). reflexivity.
Qed.

Lemma rstrip_char_keeps_head (c x : char) (t : str) :
  N.eqb c x = false -> exists t', rstrip_char c (x :: t) = x :: t'.
Proof.
  intros Hx. unfold rstrip_char. simpl rev.
  destruct (drop_while_snoc (N.eqb c) (rev t) x Hx) as [a' E].
  rewrite E, rev_app_distr. exists (rev a'). reflexivity.
Qed.

Lemma strip_keeps_head (x : char) (t : str) :
  is_space x = false -> exists t', strip (x :: t) = x :: t'.
Proof.
  intros Hx. unfold strip, lstrip. simpl. rewrite Hx.
  apply rstrip_keeps_head, Hx.
Qed.

Lemma strip_starts_visible (s : str) : starts_visible (strip s).
Proof.
  unfold strip, lstrip.
  destruct (drop_while_visible s) as [E|[x [t [E Hx]]]]; rewrite E.
  - left. reflexivity.
  - destruct (rstrip_keeps_head x t Hx) as [t' E']. rewrite E'.
    right. exists x, t'. auto.
Qed.

Lemma hd_split_char (c : char) (s : str) :
  hd [] (split_char c s) = take_while (fun x => negb (N.eqb x c)) s.
Proof.
  induction s as [|x t IH]; simpl; [reflexivity|].
  destruct (N.eqb x c); simpl; [reflexivity|].
  destruct (split_char c t) as [|w ws0]; simpl in *; rewrite <- IH; reflexivity.
Qed.

Lemma split_ws_aux_head (s : str) :
  forall cur, cur <> [] ->
  exists more, split_ws_aux cur s
    = (rev cur ++ take_while (fun c => negb (is_space c)) s) :: more.
Proof.
  induction s as [|x t IH]; intros cur Hc; simpl.
  - destruct cur; [congruence|]. exists []. rewrite app_nil_r. reflexivity.
  - destruct (is_space x); simpl.
    + destruct cur; [congruence|]. exists (split_ws_aux [] t).
      rewrite app_nil_r. reflexivity.
    + destruct (IH (x :: cur)) as [more E]; [discriminate|].
      exists more. rewrite E. simpl. rewrite <- app_assoc. reflexivity.
Qed.

Lemma split_ws_first (u : str) :
  starts_visible u ->
  match split_ws u with w :: _ => w | [] => [] end
  = take_while (fun c => negb (is_space c)) u.
Proof.
  intros [->|[x [t [-> Hx]]]]; [reflexivity|].
  unfold split_ws. simpl. rewrite Hx.
  destruct (split_ws_aux_head t [x]) as [more E]; [discriminate|].
  rewrite E. reflexivity.
Qed.

Lemma take_while_twice (p q : char -> bool) (s : str) :
  take_while p (take_while q s) = take_while (fun c => q c && p c) s.
Proof.
  induction s as [|x t IH]; simpl; [reflexivity|].
  destruct (q x); simpl; [|reflexivity].
  destruct (p x); [rewrite IH|]; reflexivity.
Qed.

Lemma take_while_visible (q : char -> bool) (s : str) :
  starts_visible s -> starts_visible (take_while q s).
Proof.
  intros [->|[x [t [-> Hx]]]]; [left; reflexivity|]. simpl.
  destruct (q x); [right; exists x, (take_while q t); auto|left; reflexivity].
Qed.

(** The first word the code takes from a stripped line is the first token
    of the specification. *)
Lemma js_first_word_is_first_token (stripped : str) :
  starts_visible stripped -> js_first_word stripped = first_token stripped.
Proof.
  intros V. unfold js_first_word, first_token.
  rewrite hd_split_char, split_ws_first, take_while_twice; [reflexivity|].
  apply take_while_visible, V.
Qed.

Lemma fold_append_entry (f : str -> option str) (lines : list str) :
  forall signatures,
    fold_left (append_entry f) lines signatures
    = signatures ++ flat_map (fun l => match f l with
                                       | Some e => [e]
                                       | None => []
                                       end) lines.
Proof.
  induction lines as [|l lines IH]; intros signatures; simpl.
  - rewrite app_nil_r. reflexivity.
  - rewrite IH. unfold append_entry. destruct (f l); simpl.
    + rewrite <- app_assoc. reflexivity.
    + reflexivity.
Qed.

Lemma in_fold_append_entry (f : str -> option str) (lines : list str) (e : str) :
  In e (fold_left (append_entry f) lines []) ->
  exists l, In l lines /\ f l = Some e.
Proof.
  rewrite fold_append_entry. simpl. rewrite in_flat_map.
  intros [l [Hl He]]. exists l. split; [exact Hl|].
  destruct (f l); simpl in He; [|contradiction].
  destruct He as [->|[]]. reflexivity.
Qed.

End StringFacts.

(** ** Claims about the JavaScript/TypeScript and shell extractors *)

Section LineExtractors.
Context {db : UnicodeDB}.

Lemma js_entry_indent (p : pattern) (l g1 g2 : str) :
  visible_start (body p) = true ->
  re_match p l = Some (g1, g2) ->
  leading_ws (g1 ++ strip g2) = leading_ws l.
Proof.
  intros V H.
  destruct (re_match_groups _ _ _ _ V H) as [E1 [Sp [[x [t [E2 Hx]]] _]]].
  rewrite <- E1. apply leading_ws_entry; [exact Sp|].
  subst g2. destruct (strip_keeps_head x t Hx) as [t' E]. rewrite E.
  exists x, t'. auto.
Qed.

Lemma js_method_entry_indent (l g1 g2 : str) :
  re_match JS_METHOD_PATTERN l = Some (g1, g2) ->
  leading_ws (g1 ++ strip (rstrip_char (chr "{") g2) ++ lit_str "()")
  = leading_ws l.
Proof.
  intros H.
  assert (V : visible_start (body JS_METHOD_PATTERN) = true) by reflexivity.
  destruct (re_match_groups _ _ _ _ V H) as [E1 [Sp _]].
  rewrite <- E1. apply leading_ws_entry; [exact Sp|].
  destruct (strip_starts_visible (rstrip_char (chr "{") g2))
    as [E|[x [t [E Hx]]]]; rewrite E.
  - exists 40%N, [41%N]. split; reflexivity.
  - exists x, (t ++ lit_str "()"). auto.
Qed.

Lemma js_declaration_indent (l e : str) :
  js_declaration l = Some e -> leading_ws e = leading_ws l.
Proof.
  unfold js_declaration.
  repeat match goal with
  | |- context [re_match ?p l] =>
      let M := fresh "M" in
      destruct (re_match p l) as [[? ?]|] eqn:M;
      [intros E; inversion E; subst;
       apply (js_entry_indent p); [reflexivity|exact M]|]
  end.
  discriminate.
Qed.

Lemma js_line_indent (l e : str) :
  js_line l = Some e -> leading_ws e = leading_ws l.
Proof.
  unfold js_line. destruct (js_control_flow l); [discriminate|].
  destruct (js_declaration l) as [e'|] eqn:D.
  - intros E; inversion E; subst. apply js_declaration_indent, D.
  - unfold js_method.
    destruct (re_match JS_METHOD_PATTERN l) as [[g1 g2]|] eqn:M; [|discriminate].
    destruct (Nat.ltb 0 (length g1)); [|discriminate].
    intros E; inversion E; subst. apply js_method_entry_indent, M.
Qed.

Lemma sh_line_indent (l e : str) :
  sh_line l = Some e -> leading_ws e = leading_ws l.
Proof.
  unfold sh_line.
  destruct (re_match SH_FUNC_PATTERN l) as [[g1 g2]|] eqn:M.
  - intros E; inversion E; subst.
    apply (entry_from_match SH_FUNC_PATTERN); [reflexivity|exact M].
  - destruct (re_match SH_FUNC_KEYWORD_PATTERN l) as [[g1 g2]|] eqn:K;
      [|discriminate].
    intros E; inversion E; subst.
    apply (entry_from_match SH_FUNC_KEYWORD_PATTERN); [reflexivity|exact K].
Qed.

(** Every entry of the three extractors is whitespace followed by a word
    character or the mark of a decorator. *)
Lemma wordlike_of (p : pattern) :
  In p (py_patterns ++
        [JS_INTERFACE_PATTERN; JS_TYPE_PATTERN; JS_CLASS_PATTERN;
         JS_FUNC_PATTERN; JS_ARROW_PATTERN; JS_ARROW_SIMPLE_PATTERN;
         JS_METHOD_PATTERN; SH_FUNC_PATTERN; SH_FUNC_KEYWORD_PATTERN]) ->
  wordlike_start (body p) = true /\ visible_start (body p) = true.
Proof.
  intros H. split.
  - pose proof all_patterns_wordlike as W. rewrite Forall_forall in W.
    apply W, H.
  - simpl in H.
    repeat (destruct H as [<-|H]; [reflexivity|]). contradiction.
Qed.

Lemma match_declaration_entry (p : pattern) (l g1 g2 : str) :
  wordlike_start (body p) = true -> visible_start (body p) = true ->
  re_match p l = Some (g1, g2) ->
  declaration_entry (g1 ++ g2) /\ declaration_entry (g1 ++ strip g2) /\
  declaration_entry (g1 ++ strip (rstrip_char (chr "{") g2) ++ lit_str "()").
Proof.
  intros W V M.
  destruct (re_match_groups _ _ _ _ V M) as [_ [Sp _]].
  destruct (re_match_head _ _ _ _ W M) as [x [t [-> Hx]]].
  pose proof (wordlike_not_space x Hx) as Nx.
  split; [|split].
  - exists g1, x, t. auto.
  - destruct (strip_keeps_head x t Nx) as [t' E]. rewrite E.
    exists g1, x, t'. auto.
  - assert (B : N.eqb (chr "{") x = false).
    { destruct (N.eqb (chr "{") x) eqn:E; [|reflexivity].
      apply N.eqb_eq in E. subst x. discriminate. }
    destruct (rstrip_char_keeps_head (chr "{") x t B) as [t1 E1]. rewrite E1.
    destruct (strip_keeps_head x t1 Nx) as [t2 E2]. rewrite E2.
    exists g1, x, (t2 ++ lit_str "()"). auto.
Qed.

Lemma matched_entry_declaration (lines : list str) (e : str) :
  matched_entry lines e -> declaration_entry e.
Proof.
  intros [p [l [g1 [g2 [Hp [_ [M ->]]]]]]].
  destruct (wordlike_of p) as [W V]; [apply in_or_app; left; exact Hp|].
  apply (match_declaration_entry p l g1 g2 W V M).
Qed.

Lemma js_line_declaration_entry (l e : str) :
  js_line l = Some e -> declaration_entry e.
Proof.
  unfold js_line. destruct (js_control_flow l); [discriminate|].
  unfold js_declaration, js_method.
  repeat match goal with
  | |- context [re_match ?p l] =>
      let M := fresh "M" in
      destruct (re_match p l) as [[? ?]|] eqn:M;
      [try (destruct (Nat.ltb 0 _); [|discriminate]);
       intros E; inversion E; subst;
       destruct (wordlike_of p) as [W V]; [simpl; tauto|];
       apply (match_declaration_entry p l _ _ W V M)|]
  end.
  discriminate.
Qed.

Lemma sh_line_declaration_entry (l e : str) :
  sh_line l = Some e -> declaration_entry e.
Proof.
  unfold sh_line.
  repeat match goal with
  | |- context [re_match ?p l] =>
      let M := fresh "M" in
      destruct (re_match p l) as [[? ?]|] eqn:M;
      [intros E; inversion E; subst;
       destruct (wordlike_of p) as [W V]; [simpl; tauto|];
       apply (match_declaration_entry p l _ _ W V M)|]
  end.
  discriminate.
Qed.

(** No such entry is one of the diagnostic entries. *)
Lemma declaration_entry_not_error (d e : str) :
  declaration_entry d ->
  d <> py_error e /\ d <> js_error e /\ d <> sh_error e.
Proof.
  intros [g1 [x [t [-> [Sp Hx]]]]].
  pose proof (wordlike_not_space x Hx) as Nx.
  assert (D : drop_while is_space (g1 ++ x :: t) = x :: t)
    by (apply drop_while_app; assumption).
  repeat split; intros E; rewrite E in D; simpl in D; inversion D; subst x;
    discriminate.
Qed.

(** C5.  A non-blank line whose first token, lowercased, is a control-flow
    keyword yields no entry, whatever declaration pattern it would satisfy:
    the loop body stops before any pattern is tried, and the extraction of
    a file is the same as if the line were not there. *)
Theorem control_flow_lines_are_skipped (line : str) :
  strip line <> [] ->
  str_in (lower (first_token (strip line))) CONTROL_FLOW_KEYWORDS = true ->
  js_control_flow line = true /\
  js_line line = None /\
  forall pre post signatures,
    js_loop (pre ++ line :: post) signatures = js_loop (pre ++ post) signatures.
Proof.
  intros Hne Hkw.
  assert (G : js_control_flow line = true).
  { unfold js_control_flow.
    rewrite (js_first_word_is_first_token _ (strip_starts_visible line)).
    destruct (strip line); [congruence|exact Hkw]. }
  assert (L : js_line line = None) by (unfold js_line; rewrite G; reflexivity).
  repeat split; [exact G|exact L|].
  intros pre post signatures. unfold js_loop.
  rewrite !fold_append_entry, !flat_map_app. simpl. rewrite L. reflexivity.
Qed.

(** C7.  A line that reaches the method test and matches the method pattern
    is accepted only when its indentation is not empty; the entry is then
    the indentation, group 2 without its closing brace and surrounding
    whitespace, and a pair of parentheses.  No other line yields an entry
    through the method test.  In the list that the extractor returns for a
    file, such a line at zero indent leaves nothing between the entries of
    the lines before it and those of the lines after it, and such a line
    with an indent leaves exactly that entry there. *)
Theorem bare_method_requires_indent :
  (forall line g1 g2,
     js_control_flow line = false -> js_declaration line = None ->
     re_match JS_METHOD_PATTERN line = Some (g1, g2) ->
     g1 = leading_ws line /\
     (leading_ws line = [] -> js_line line = None) /\
     (leading_ws line <> [] ->
      js_line line
      = Some (g1 ++ strip (rstrip_char (chr "{") g2) ++ lit_str "()"))) /\
  (forall line e,
     js_line line = Some e ->
     js_declaration line = Some e \/
     exists g1 g2,
       re_match JS_METHOD_PATTERN line = Some (g1, g2) /\
       0 < length g1 /\
       e = g1 ++ strip (rstrip_char (chr "{") g2) ++ lit_str "()") /\
  (forall line g1 g2 pre post,
     js_control_flow line = false -> js_declaration line = None ->
     re_match JS_METHOD_PATTERN line = Some (g1, g2) ->
     (leading_ws line = [] ->
      js_loop (pre ++ line :: post) [] = js_loop pre [] ++ js_loop post [] /\
      forall fs filepath bytes,
        fs filepath = Content bytes ->
        file_lines bytes = pre ++ line :: post ->
        extract_js_signatures fs filepath
        = js_loop pre [] ++ js_loop post []) /\
     (leading_ws line <> [] ->
      js_loop (pre ++ line :: post) []
      = js_loop pre []
        ++ [g1 ++ strip (rstrip_char (chr "{") g2) ++ lit_str "()"]
        ++ js_loop post [] /\
      forall fs filepath bytes,
        fs filepath = Content bytes ->
        file_lines bytes = pre ++ line :: post ->
        extract_js_signatures fs filepath
        = js_loop pre []
          ++ [g1 ++ strip (rstrip_char (chr "{") g2) ++ lit_str "()"]
          ++ js_loop post [])).
Proof.
  assert (Line : forall line g1 g2,
     js_control_flow line = false -> js_declaration line = None ->
     re_match JS_METHOD_PATTERN line = Some (g1, g2) ->
     g1 = leading_ws line /\
     (leading_ws line = [] -> js_line line = None) /\
     (leading_ws line <> [] ->
      js_line line
      = Some (g1 ++ strip (rstrip_char (chr "{") g2) ++ lit_str "()"))).
  { intros line g1 g2 G D M.
    assert (V : visible_start (body JS_METHOD_PATTERN) = true) by reflexivity.
    destruct (re_match_groups _ _ _ _ V M) as [E1 _].
    split; [exact E1|]. unfold js_line, js_method. rewrite G, D, M, <- E1.
    split; intros H.
    + rewrite H. reflexivity.
    + destruct g1; [congruence|reflexivity]. }
  split; [exact Line|]. split; cycle 1.
  { intros line g1 g2 pre post G D M.
    destruct (Line line g1 g2 G D M) as [_ [Zero Indented]].
    assert (Loop : forall o, js_line line = o ->
              js_loop (pre ++ line :: post) []
              = js_loop pre []
                ++ match o with Some e => [e] | None => [] end
                ++ js_loop post []).
    { intros o <-. unfold js_loop.
      rewrite !fold_append_entry, flat_map_app. reflexivity. }
    split; intros H.
    - pose proof (Loop None (Zero H)) as L. split; [exact L|].
      intros fs filepath bytes Hfs Hl. unfold extract_js_signatures.
      rewrite Hfs, Hl. exact L.
    - pose proof (Loop _ (Indented H)) as L. split; [exact L|].
      intros fs filepath bytes Hfs Hl. unfold extract_js_signatures.
      rewrite Hfs, Hl. exact L. }
  - intros line e. unfold js_line.
    destruct (js_control_flow line); [discriminate|].
    destruct (js_declaration line) as [e'|]; [intros H; left; exact H|].
    unfold js_method.
    destruct (re_match JS_METHOD_PATTERN line) as [[g1 g2]|]; [|discriminate].
    destruct (Nat.ltb 0 (length g1)) eqn:Lt; [|discriminate].
    intros E; inversion E; subst. right. exists g1, g2.
    apply Nat.ltb_lt in Lt. auto.
Qed.

(** C6.  Every entry cut from a matched line carries exactly the leading
    whitespace of that line, in each of the three extractors. *)
Theorem entry_indent_is_line_indent :
  (forall fs filepath bytes r e,
     fs filepath = Content bytes ->
     extract_python_signatures fs filepath = Some r -> In e r ->
     exists l, In l (file_lines bytes) /\ is_prefix e l /\
               leading_ws e = leading_ws l) /\
  (forall fs filepath bytes e,
     fs filepath = Content bytes ->
     In e (extract_js_signatures fs filepath) ->
     exists l, In l (file_lines bytes) /\ js_line l = Some e /\
               leading_ws e = leading_ws l) /\
  (forall fs filepath bytes e,
     fs filepath = Content bytes ->
     In e (extract_shell_signatures fs filepath) ->
     exists l, In l (file_lines bytes) /\ sh_line l = Some e /\
               leading_ws e = leading_ws l).
Proof.
  split; [|split].
  - intros fs filepath bytes r e Hfs. unfold extract_python_signatures.
    rewrite Hfs. intros R Hin.
    destruct (py_loop_total (S (length (file_lines bytes)))
                (file_lines bytes) 0 []) as [new [R' F]]; [lia|].
    cbv zeta in R. rewrite R in R'. inversion R'; subst. simpl in Hin.
    rewrite Forall_forall in F.
    exact (matched_entry_from_line _ _ (F _ Hin)).
  - intros fs filepath bytes e Hfs. unfold extract_js_signatures, js_loop.
    rewrite Hfs. intros Hin.
    apply in_fold_append_entry in Hin as [l [Hl He]].
    exists l. repeat split; [exact Hl|exact He|apply js_line_indent, He].
  - intros fs filepath bytes e Hfs. unfold extract_shell_signatures, sh_loop.
    rewrite Hfs. intros Hin.
    apply in_fold_append_entry in Hin as [l [Hl He]].
    exists l. repeat split; [exact Hl|exact He|apply sh_line_indent, He].
Qed.

(** ** Claims about read failures *)

(** C3, as the code has it.  When the file cannot be opened or read, each
    extractor returns normally with exactly one entry, and that entry ends
    with the message of the failure.  Bytes that cannot be decoded are no
    failure: whatever the bytes of a file that can be read, they are
    decoded with the undecodable ones left out, the extraction runs on the
    lines so obtained and returns normally, and none of its entries is a
    diagnostic entry. *)
Theorem read_failure_yields_one_diagnostic
    (fs : filesystem) (filepath : str) :
  (forall e, fs filepath = Unreadable e ->
     extract_python_signatures fs filepath
     = Some [lit_str "  # Error reading file: " ++ e] /\
     extract_js_signatures fs filepath
     = [lit_str "  // Error reading file: " ++ e] /\
     extract_shell_signatures fs filepath
     = [lit_str "  # Error reading file: " ++ e]) /\
  (forall bytes, fs filepath = Content bytes ->
     (extract_python_signatures fs filepath
      = py_loop (S (length (file_lines bytes))) (file_lines bytes) 0 [] /\
      exists r,
        extract_python_signatures fs filepath = Some r /\
        forall d e, In d r -> d <> py_error e) /\
     (extract_js_signatures fs filepath = js_loop (file_lines bytes) [] /\
      forall d e, In d (extract_js_signatures fs filepath) -> d <> js_error e) /\
     (extract_shell_signatures fs filepath = sh_loop (file_lines bytes) [] /\
      forall d e, In d (extract_shell_signatures fs filepath) ->
                  d <> sh_error e)).
Proof.
  unfold extract_python_signatures, extract_js_signatures,
    extract_shell_signatures.
  split; intros x H; rewrite H; [repeat split|].
  split; [|split].
  - split; [reflexivity|].
    destruct (py_loop_total (S (length (file_lines x))) (file_lines x) 0 [])
      as [new [R F]]; [lia|].
    exists new. cbv zeta. rewrite R. split; [reflexivity|].
    intros d e Hd. rewrite Forall_forall in F.
    apply (declaration_entry_not_error d e).
    apply (matched_entry_declaration (file_lines x)), F, Hd.
  - split; [reflexivity|]. intros d e Hd.
    apply in_fold_append_entry in Hd as [l [_ Hl]].
    apply (declaration_entry_not_error d e).
    apply (js_line_declaration_entry l), Hl.
  - split; [reflexivity|]. intros d e Hd.
    apply in_fold_append_entry in Hd as [l [_ Hl]].
    apply (declaration_entry_not_error d e).
    apply (sh_line_declaration_entry l), Hl.
Qed.

(** C4, as the code has it.  The diagnostic entry of each extractor is a
    plain string that begins with two spaces followed by the comment mark
    of the language: its leading whitespace is those two spaces. *)
Theorem diagnostic_entry_indent (fs : filesystem) (filepath e : str) :
  fs filepath = Unreadable e ->
  (exists d, extract_python_signatures fs filepath = Some [d] /\
             d = lit_str "  # Error reading file: " ++ e /\
             leading_ws d = lit_str "  ") /\
  (exists d, extract_js_signatures fs filepath = [d] /\
             d = lit_str "  // Error reading file: " ++ e /\
             leading_ws d = lit_str "  ") /\
  (exists d, extract_shell_signatures fs filepath = [d] /\
             d = lit_str "  # Error reading file: " ++ e /\
             leading_ws d = lit_str "  ").
Proof.
  intros H.
  unfold extract_python_signatures, extract_js_signatures,
    extract_shell_signatures.
  rewrite H. repeat split; eexists; repeat split.
Qed.

(** C2, as the code has it.  The line [def compute(x: int) -> int:] at top
    level yields one entry with no indent whose text stops before the
    closing colon. *)
Theorem compute_header_entry (filepath : str) :
  extract_python_signatures
    (fun _ => Content (line_of "def compute(x: int) -> int:")) filepath
  = Some [lit_str "def compute(x: int) -> int"] /\
  extract_python_signatures
    (fun _ => Content (lit_str "def compute(x: int) -> int:")) filepath
  = Some [lit_str "def compute(x: int) -> int"] /\
  leading_ws (lit_str "def compute(x: int) -> int") = [].
Proof. repeat split; vm_compute; reflexivity. Qed.

End LineExtractors.

(** ** The claims at concrete inputs *)

(** C8 at a two-line file: the round entered on the decorator returns with
    the cursor moved forward. *)
Lemma py_extraction_terminates_witness :
  let lines := [line_of "@staticmethod"; line_of "def helper():"] in
  0 < length lines /\
  exists i' signatures',
    py_iter (length lines) lines 0 [] = Some (i', signatures') /\
    0 < i' /\ i' <= length lines.
Proof.
  intros lines.
  assert (H : 0 < length lines) by (simpl; lia).
  split; [exact H|].
  exact (proj1 py_extraction_terminates lines 0 [] H).
Defined.

(** C9 at a run of two decorators indented by four spaces and a function
    header indented by two. *)
Lemma decorators_attach_across_indents_witness :
  let pre := [line_of "class A:"] in
  let run := [line_of "    @staticmethod"; line_of "    @cache(1)"] in
  let h := line_of "  def helper():" in
  let lines := pre ++ run ++ [h] in
  py_iter (length lines) lines 1 []
  = Some (3, [lit_str "    @staticmethod"; lit_str "    @cache(1)";
              lit_str "  def helper()"]) /\
  extract_python_signatures (fun _ => Content (concat lines)) (lit_str "a.py")
  = Some [lit_str "class A"; lit_str "    @staticmethod";
          lit_str "    @cache(1)"; lit_str "  def helper()";
          lit_str "  def helper()"].
Proof.
  intros pre run h lines.
  assert (T := decorators_attach_across_indents
            pre run [] [lit_str "@staticmethod"; lit_str "@cache(1)"]
            (lit_str "    ") (lit_str "  ") h (lit_str "def helper()") []).
  destruct T as [T1 [_ [_ T4]]].
  - discriminate.
  - constructor; [vm_compute; reflexivity|].
    constructor; [vm_compute; reflexivity|constructor].
  - right. vm_compute. reflexivity.
  - discriminate.
  - split; [exact T1|].
    destruct T4 as [before [after [Hb [Ha [_ Hx]]]]].
    + intros d. vm_compute. discriminate.
    + rewrite (Hx (fun _ => Content (concat lines)) (lit_str "a.py")
                 (concat lines) eq_refl);
        [|vm_compute; reflexivity].
      vm_compute in Hb. vm_compute in Ha.
      injection Hb as <-. injection Ha as <-. reflexivity.
Defined.

(** C10 at a file that ends in two decorators. *)
Lemma trailing_decorators_emit_nothing_witness :
  let pre := [line_of "x = 1"] in
  let run := [line_of "@first"; line_of "@second"] in
  py_iter 3 (pre ++ run) 1 [] = Some (3, []) /\
  py_loop 4 (pre ++ run) 1 [] = Some [].
Proof.
  intros pre run.
  assert (R : decorator_run [] run [lit_str "@first"; lit_str "@second"]).
  { constructor; [vm_compute; reflexivity|].
    constructor; [vm_compute; reflexivity|constructor]. }
  assert (N : run <> []) by discriminate.
  split.
  - exact (proj1 (trailing_decorators_emit_nothing pre run _ [] [] N R)).
  - apply (proj2 (trailing_decorators_emit_nothing pre run _ [] [] N R)).
    lia.
Defined.

(** C1 at a file with the lines [@staticmethod] and [def helper():]:
    three entries come out, the header twice. *)
Lemma decorated_header_is_appended_twice_witness :
  let bytes := line_of "@staticmethod" ++ line_of "def helper():" in
  let lines := [line_of "@staticmethod"; line_of "def helper():"] in
  file_lines bytes = lines /\
  py_iter 2 lines 0 []
  = Some (1, [lit_str "@staticmethod"; lit_str "def helper()"]) /\
  extract_python_signatures (fun _ => Content bytes) []
  = Some [lit_str "@staticmethod"; lit_str "def helper()";
          lit_str "def helper()"].
Proof.
  intros bytes lines.
  assert (L : file_lines bytes = lines) by (vm_compute; reflexivity).
  assert (R : decorator_run [] [line_of "@staticmethod"] [lit_str "@staticmethod"]).
  { constructor; [vm_compute; reflexivity|constructor]. }
  assert (N : [line_of "@staticmethod"] <> []) by discriminate.
  assert (H : re_match PY_CLASS_PATTERN (line_of "def helper():")
                = Some ([], lit_str "def helper()") \/
              re_match PY_FUNC_PATTERN (line_of "def helper():")
                = Some ([], lit_str "def helper()")).
  { right. vm_compute. reflexivity. }
  pose proof (decorated_header_is_appended_twice
                [] [line_of "@staticmethod"] [] [lit_str "@staticmethod"]
                [] [] (line_of "def helper():") (lit_str "def helper()")
                [] 1 N R H) as [P1 P2].
  split; [exact L|]. split; [exact P1|].
  unfold extract_python_signatures. cbv zeta. rewrite L. simpl length.
  etransitivity; [exact P2|]. reflexivity.
Defined.

(** C5 at an indented [if (status) {]: the method pattern on its own would
    match the line, and yet the line yields nothing. *)
Lemma control_flow_lines_are_skipped_witness :
  let line := line_of "  if (status) {" in
  re_match JS_METHOD_PATTERN line
  = Some (lit_str "  ", lit_str "if (status) {") /\
  js_line line = None /\
  js_loop [line_of "class A {"; line; line_of "}"] []
  = js_loop [line_of "class A {"; line_of "}"] [].
Proof.
  intros line.
  assert (H1 : strip line <> []) by (vm_compute; discriminate).
  assert (H2 : str_in (lower (first_token (strip line)))
                 CONTROL_FLOW_KEYWORDS = true) by (vm_compute; reflexivity).
  destruct (control_flow_lines_are_skipped line H1 H2) as [_ [L S]].
  split; [vm_compute; reflexivity|]. split; [exact L|].
  exact (S [line_of "class A {"] [line_of "}"] []).
Defined.

(** C7 at [render(props) {], indented and not. *)
Lemma bare_method_requires_indent_witness :
  js_line (line_of "  render(props) {") = Some (lit_str "  render(props)()") /\
  js_line (line_of "render(props) {") = None /\
  extract_js_signatures
    (fun _ => Content (line_of "class A {" ++ line_of "  render(props) {"
                       ++ line_of "}"))
    (lit_str "a.js")
  = [lit_str "class A"; lit_str "  render(props)()"] /\
  extract_js_signatures
    (fun _ => Content (line_of "render(props) {" ++ line_of "}"))
    (lit_str "a.js")
  = [].
Proof.
  assert (G : js_control_flow (line_of "  render(props) {") = false)
    by (vm_compute; reflexivity).
  assert (D : js_declaration (line_of "  render(props) {") = None)
    by (vm_compute; reflexivity).
  assert (M : re_match JS_METHOD_PATTERN (line_of "  render(props) {")
              = Some (lit_str "  ", lit_str "render(props) {"))
    by (vm_compute; reflexivity).
  assert (G0 : js_control_flow (line_of "render(props) {") = false)
    by (vm_compute; reflexivity).
  assert (D0 : js_declaration (line_of "render(props) {") = None)
    by (vm_compute; reflexivity).
  assert (M0 : re_match JS_METHOD_PATTERN (line_of "render(props) {")
               = Some ([], lit_str "render(props) {"))
    by (vm_compute; reflexivity).
  split; [|split; [|split]].
  - destruct (proj1 bare_method_requires_indent _ _ _ G D M) as [_ [_ H]].
    rewrite H; [vm_compute; reflexivity|]. vm_compute. discriminate.
  - destruct (proj1 bare_method_requires_indent _ _ _ G0 D0 M0) as [_ [H _]].
    apply H. vm_compute. reflexivity.
  - destruct (proj2 (proj2 bare_method_requires_indent) _ _ _
                [line_of "class A {"] [line_of "}"] G D M) as [_ H].
    destruct H as [_ H]; [vm_compute; discriminate|].
    rewrite (H (fun _ => Content (line_of "class A {"
                                  ++ line_of "  render(props) {"
                                  ++ line_of "}"))
               (lit_str "a.js")
               (line_of "class A {" ++ line_of "  render(props) {"
                ++ line_of "}") eq_refl);
      vm_compute; reflexivity.
  - destruct (proj2 (proj2 bare_method_requires_indent) _ _ _
                [] [line_of "}"] G0 D0 M0) as [H _].
    destruct H as [_ H]; [vm_compute; reflexivity|].
    rewrite (H (fun _ => Content (line_of "render(props) {" ++ line_of "}"))
               (lit_str "a.js")
               (line_of "render(props) {" ++ line_of "}") eq_refl);
      vm_compute; reflexivity.
Defined.

(** C6 at a Python header indented by a tab and a space. *)
Lemma entry_indent_is_line_indent_witness :
  let bytes := [9%N; 32%N] ++ line_of "def f():" in
  let e := [9%N; 32%N] ++ lit_str "def f()" in
  extract_python_signatures (fun _ => Content bytes) [] = Some [e] /\
  exists l, In l (file_lines bytes) /\ is_prefix e l /\
            leading_ws e = leading_ws l.
Proof.
  intros bytes e.
  assert (R : extract_python_signatures (fun _ => Content bytes) [] = Some [e])
    by (vm_compute; reflexivity).
  split; [exact R|].
  apply (proj1 entry_indent_is_line_indent
           (fun _ => Content bytes) [] bytes [e] e eq_refl R).
  left. reflexivity.
Defined.

(** C3 as stated fails: a file whose bytes are not valid UTF-8 can be read,
    and its extraction is not a single entry naming a failure. *)
Lemma undecodable_file_counterexample :
  let fs := fun _ : str => Content [255%N; 254%N] in
  utf8_valid [255%N; 254%N] = false /\
  ~ (exists d, extract_python_signatures fs (lit_str "a.py") = Some [d]).
Proof.
  intros fs. split; [reflexivity|].
  intros [d H]. vm_compute in H. discriminate.
Qed.

(** C3 as the code has it, at a file that cannot be opened and at one
    whose bytes are not valid UTF-8. *)
Lemma read_failure_yields_one_diagnostic_witness :
  extract_js_signatures (fun _ => Unreadable (lit_str "Permission denied"))
                        (lit_str "a.js")
  = [lit_str "  // Error reading file: Permission denied"] /\
  extract_shell_signatures
    (fun _ => Content ([255%N] ++ line_of "deploy() {")) (lit_str "a.sh")
  = [lit_str "deploy() {"].
Proof.
  split.
  - exact (proj1 (proj2 (proj1 (read_failure_yields_one_diagnostic
             (fun _ => Unreadable (lit_str "Permission denied"))
             (lit_str "a.js")) _ eq_refl))).
  - rewrite (proj1 (proj2 (proj2 (proj2 (read_failure_yields_one_diagnostic
             (fun _ => Content ([255%N] ++ line_of "deploy() {"))
             (lit_str "a.sh")) _ eq_refl)))).
    vm_compute. reflexivity.
Defined.

(** C4 as stated fails: the diagnostic entry of a file that cannot be
    opened does not have an empty indent. *)
Lemma diagnostic_indent_counterexample :
  let fs := fun _ : str => Unreadable (lit_str "Permission denied") in
  ~ (forall e, In e (extract_js_signatures fs (lit_str "a.js")) ->
               leading_ws e = []).
Proof.
  intros fs H.
  specialize (H (lit_str "  // Error reading file: Permission denied")
                (or_introl eq_refl)).
  vm_compute in H. discriminate.
Qed.

(** C4 as the code has it, at the same file. *)
Lemma diagnostic_entry_indent_witness :
  let fs := fun _ : str => Unreadable (lit_str "Permission denied") in
  exists d, extract_shell_signatures fs (lit_str "a.sh") = [d] /\
            d = lit_str "  # Error reading file: " ++ lit_str "Permission denied" /\
            leading_ws d = lit_str "  ".
Proof.
  intros fs.
  exact (proj2 (proj2 (diagnostic_entry_indent fs (lit_str "a.sh")
                         (lit_str "Permission denied") eq_refl))).
Defined.

(** C2 as stated fails: the entry does not keep the closing colon. *)
Lemma compute_header_counterexample :
  extract_python_signatures
    (fun _ => Content (line_of "def compute(x: int) -> int:")) []
  <> Some [lit_str "def compute(x: int) -> int:"].
Proof. vm_compute. discriminate. Qed.

(** ** Further scenarios *)

(** An indented [if] is no Python signature. *)
Example py_if_line_yields_nothing :
  extract_python_signatures (fun _ => Content (line_of "    if x > 0:")) []
  = Some [].
Proof. vm_compute. reflexivity. Qed.

(** An exported arrow function keeps its text up to the arrow. *)
Example js_arrow_entry :
  extract_js_signatures
    (fun _ => Content (line_of "export const add = (a, b) => {")) []
  = [lit_str "export const add = (a, b) =>"].
Proof. vm_compute. reflexivity. Qed.

(** A shell function keeps its opening brace. *)
Example sh_function_entry :
  extract_shell_signatures (fun _ => Content (line_of "deploy() {")) []
  = [lit_str "deploy() {"].
Proof. vm_compute. reflexivity. Qed.

(** A decorator followed by a plain statement is dropped, and the scan goes
    on with the statement and what follows it. *)
Example py_orphan_decorator :
  extract_python_signatures
    (fun _ => Content (line_of "@register" ++ line_of "x = 1"
                       ++ line_of "class A:")) []
  = Some [lit_str "class A"].
Proof. vm_compute. reflexivity. Qed.

(** A header whose parameter list closes on a later line is cut at the
    first colon when its first line holds a closing parenthesis before
    it. *)
Example py_open_header_with_inner_call :
  extract_python_signatures
    (fun _ => Content (line_of "def f(a=g(1), b: int = 2,"
                       ++ line_of "      c=3):")) []
  = Some [lit_str "def f(a=g(1), b"].
Proof. vm_compute. reflexivity. Qed.

(** The same for a JS function with a call among its default values. *)
Example js_open_header_with_inner_call :
  extract_js_signatures
    (fun _ => Content (line_of "function f(a = g(), "
                       ++ line_of "           b) {")) []
  = [lit_str "function f(a = g(),"].
Proof. vm_compute. reflexivity. Qed.

(** * Further properties *)

(** ** Soundness of the further static checks *)

Section MoreCheckFacts.
Context {db : UnicodeDB}.

Lemma requires_sound (c : char) (r : regex) :
  requires c r = true ->
  forall s cd, In cd (matches r s) -> In c (fst cd).
Proof.
  induction r as [|x|k|a IHa b IHb|a IHa b IHb|a IHa|a IHa|a IHa];
    simpl; intros R s cd; try discriminate.
  - destruct s as [|y t]; [intros []|].
    destruct (N.eqb y x) eqn:E; [|intros []]. intros [<-|[]].
    apply N.eqb_eq in E, R. subst. left. reflexivity.
  - rewrite in_flat_map. intros [c1 [H1 H2]].
    apply in_extend in H2 as [c2 [H2 [Hf _]]]. rewrite Hf.
    apply in_or_app. apply orb_true_iff in R as [R|R];
      [left; apply (IHa R _ _ H1)|right; apply (IHb R _ _ H2)].
  - apply andb_true_iff in R as [Ra Rb]. rewrite in_app_iff.
    intros [H|H]; [apply (IHa Ra _ _ H)|apply (IHb Rb _ _ H)].
  - rewrite in_flat_map. intros [c1 [H1 H2]].
    apply in_extend in H2 as [c2 [H2 [Hf _]]]. rewrite Hf.
    apply in_or_app. left. apply (IHa R _ _ H1).
Qed.

Lemma avoids_sound (c : char) (r : regex) :
  avoids c r = true ->
  forall s cd, In cd (matches r s) ->
    forallb (fun x => negb (N.eqb x c)) (fst cd) = true.
Proof.
  induction r as [|x|k|a IHa b IHb|a IHa b IHb|a IHa|a IHa|a IHa];
    simpl; intros A s cd.
  - intros [<-|[]]. reflexivity.
  - destruct s as [|y t]; [intros []|].
    destruct (N.eqb y x) eqn:E; [|intros []]. intros [<-|[]].
    apply N.eqb_eq in E. subst. simpl. rewrite A. reflexivity.
  - destruct s as [|y t]; [intros []|].
    destruct (in_cls k y) eqn:E; [|intros []]. intros [<-|[]]. simpl.
    destruct (N.eqb y c) eqn:Ec; [|reflexivity].
    apply N.eqb_eq in Ec. subst. rewrite E in A. discriminate.
  - apply andb_true_iff in A as [Aa Ab].
    rewrite in_flat_map. intros [c1 [H1 H2]].
    apply in_extend in H2 as [c2 [H2 [Hf _]]].
    rewrite Hf, forallb_app. apply andb_true_iff.
    split; [apply (IHa Aa _ _ H1)|apply (IHb Ab _ _ H2)].
  - apply andb_true_iff in A as [Aa Ab]. rewrite in_app_iff.
    intros [H|H]; [apply (IHa Aa _ _ H)|apply (IHb Ab _ _ H)].
  - rewrite in_app_iff. intros [H|[<-|[]]]; [apply (IHa A _ _ H)|reflexivity].
  - apply star_n_forall. intros s' c' H'. apply (IHa A _ _ H').
  - rewrite in_flat_map. intros [c1 [H1 H2]].
    apply in_extend in H2 as [c2 [H2 [Hf _]]].
    rewrite Hf, forallb_app. apply andb_true_iff.
    split; [apply (IHa A _ _ H1)|].
    revert H2. apply star_n_forall. intros s' c' H'. apply (IHa A _ _ H').
Qed.

Lemma ends_visible_app (m1 m2 : str) :
  ends_visible m2 -> (m2 = [] -> ends_visible m1) -> ends_visible (m1 ++ m2).
Proof.
  intros [->|[t [x [-> Hx]]]] H1.
  - rewrite app_nil_r. apply H1. reflexivity.
  - right. exists (m1 ++ t), x. rewrite app_assoc. auto.
Qed.

Lemma star_n_ends (step : str -> list cand) :
  (forall s c, In c (step s) -> ends_visible (fst c)) ->
  forall n s c, In c (star_n step n s) -> ends_visible (fst c).
Proof.
  intros Hstep n; induction n as [|n IH]; intros s c; simpl.
  - intros [<-|[]]; left; reflexivity.
  - rewrite in_app_iff, in_flat_map.
    intros [[c1 [H1 H2]]|[<-|[]]]; [|left; reflexivity].
    destruct (Nat.ltb _ _); [|contradiction].
    apply in_extend in H2 as [c2 [H2 [Hf _]]].
    rewrite Hf. apply ends_visible_app; [apply (IH _ _ H2)|].
    intros _. apply (Hstep _ _ H1).
Qed.

Lemma last_nonspace_sound (r : regex) :
  forall s c, In c (matches r s) ->
    last_nonspace r = true -> ends_visible (fst c).
Proof.
  induction r as [|x|k|a IHa b IHb|a IHa b IHb|a IHa|a IHa|a IHa];
    intros s c; simpl.
  - intros [<-|[]] _; left; reflexivity.
  - destruct s as [|y t]; [intros []|].
    destruct (N.eqb y x) eqn:E; [|intros []]. intros [<-|[]] H; simpl.
    apply N.eqb_eq in E; subst y.
    right. exists [], x. split; [reflexivity|]. apply negb_true_iff, H.
  - destruct s as [|y t]; [intros []|].
    destruct (in_cls k y) eqn:E; [|intros []]. intros [<-|[]]; simpl.
    destruct k; try discriminate. intros _.
    right. exists [], y. split; [reflexivity|]. apply word_not_space, E.
  - rewrite in_flat_map. intros [c1 [H1 H2]].
    apply in_extend in H2 as [c2 [H2 [Hf _]]]. rewrite Hf.
    rewrite andb_true_iff. intros [Lb La].
    apply ends_visible_app; [apply (IHb _ _ H2 Lb)|].
    intros E. apply (IHa _ _ H1).
    destruct (nullable b) eqn:Nb; [exact La|].
    exfalso. destruct (static_check_sound b _ _ H2) as [Ne _]. apply Ne; auto.
  - rewrite in_app_iff, andb_true_iff.
    intros [H|H] [La Lb]; [apply (IHa _ _ H La)|apply (IHb _ _ H Lb)].
  - rewrite in_app_iff. intros [H|[<-|[]]] L;
      [apply (IHa _ _ H L)|left; reflexivity].
  - intros H L. revert H. apply star_n_ends.
    intros s' c' H'. apply (IHa _ _ H' L).
  - rewrite in_flat_map. intros [c1 [H1 H2]] L.
    apply in_extend in H2 as [c2 [H2 [Hf _]]]. rewrite Hf.
    apply ends_visible_app.
    + revert H2. apply star_n_ends. intros s' c' H'. apply (IHa _ _ H' L).
    + intros _. apply (IHa _ _ H1 L).
Qed.

(** A pattern that needs a character only matches lines that have it. *)
Lemma re_match_requires (c : char) (p : pattern) (line : str) :
  requires c (body p) || requires c (rest p) = true ->
  ~ In c line -> re_match p line = None.
Proof.
  intros R Hn.
  destruct (re_match p line) as [[g1 g2]|] eqn:M; [|reflexivity].
  exfalso. apply Hn.
  apply re_match_candidates in M as [s1 [s2 [c3 [H1 [H2 H3]]]]].
  pose proof (matches_split _ _ _ H1) as E1.
  pose proof (matches_split _ _ _ H2) as E2.
  pose proof (matches_split _ _ _ H3) as E3. simpl in E1, E2.
  rewrite E1, E2, E3. apply in_or_app. right. apply in_or_app.
  apply orb_true_iff in R as [R|R].
  - left. apply (requires_sound c _ R _ _ H2).
  - right. apply in_or_app. left. apply (requires_sound c _ R _ _ H3).
Qed.

End MoreCheckFacts.

(** ** The shape of the Python signature list *)

Section PythonShape.
Context {db : UnicodeDB}.

(** Without decorators the loop takes the lines one by one. *)
Lemma py_loop_plain (lines : list str) :
  (forall l, In l lines -> re_match PY_DECORATOR_PATTERN l = None) ->
  forall fuel i signatures, length lines - i < fuel ->
    py_loop fuel lines i signatures
    = Some (signatures ++
            flat_map (fun l => match py_plain l with
                               | Some e => [e]
                               | None => []
                               end) (skipn i lines)).
Proof.
  intros Hd fuel. induction fuel as [|fuel IH]; intros i signatures Hf; [lia|].
  simpl. destruct (Nat.ltb i (length lines)) eqn:Lt.
  - apply Nat.ltb_lt in Lt. rewrite (skipn_nth lines i Lt). simpl.
    unfold py_iter, py_plain.
    rewrite (Hd (nth i lines [])) by (apply nth_In; exact Lt).
    destruct (re_match PY_CLASS_PATTERN (nth i lines [])) as [[g1 g2]|].
    + rewrite IH by lia. rewrite <- app_assoc, Nat.add_1_r. reflexivity.
    + destruct (re_match PY_FUNC_PATTERN (nth i lines [])) as [[g1 g2]|];
        rewrite IH by lia; rewrite ?Nat.add_1_r, <- ?app_assoc; reflexivity.
  - apply Nat.ltb_ge in Lt. rewrite skipn_all2 by exact Lt.
    rewrite app_nil_r. reflexivity.
Qed.

End PythonShape.

(** ** What the extractors skip and what they keep *)

Section ExtractorFacts.
Context {db : UnicodeDB}.

(** After the leading whitespace of a matched line comes group 2. *)
Lemma match_lstrip (p : pattern) (l g1 g2 : str) :
  visible_start (body p) = true -> re_match p l = Some (g1, g2) ->
  exists tl, lstrip l = g2 ++ tl /\ l = g1 ++ g2 ++ tl /\
             lstrip (g1 ++ g2) = g2.
Proof.
  intros V M.
  destruct (re_match_groups _ _ _ _ V M) as [_ [Sp [[x [t [E Hx]]] [tl [El _]]]]].
  exists tl. subst g2. repeat split; [|exact El|].
  - rewrite El. unfold lstrip. simpl. apply drop_while_app; assumption.
  - unfold lstrip. apply drop_while_app; assumption.
Qed.

Lemma py_plain_inv (l e : str) :
  py_plain l = Some e ->
  exists g1 g2, e = g1 ++ g2 /\
    (re_match PY_CLASS_PATTERN l = Some (g1, g2) \/
     re_match PY_FUNC_PATTERN l = Some (g1, g2)).
Proof.
  unfold py_plain.
  destruct (re_match PY_CLASS_PATTERN l) as [[g1 g2]|] eqn:C.
  - intros E; inversion E. exists g1, g2. auto.
  - destruct (re_match PY_FUNC_PATTERN l) as [[g1 g2]|] eqn:F; [|discriminate].
    intros E; inversion E. exists g1, g2. auto.
Qed.

Lemma no_at_no_decorator (l : str) :
  hd_error (lstrip l) <> Some (chr "@") ->
  re_match PY_DECORATOR_PATTERN l = None.
Proof.
  intros H. destruct (re_match PY_DECORATOR_PATTERN l) as [[g1 g2]|] eqn:M;
    [|reflexivity].
  exfalso. apply H.
  destruct (match_lstrip _ _ _ _ py_decorator_visible M) as [tl [E _]].
  rewrite E. pose proof (py_decorator_head _ _ _ M) as Hd.
  destruct g2; [discriminate|exact Hd].
Qed.

Lemma run_decs_spec (I : str) (more : list str) :
  decorator_run I (firstn (length (run_decs I more)) more) (run_decs I more) /\
  match skipn (length (run_decs I more)) more with
  | [] => True
  | x :: _ => ends_run I x
  end.
Proof.
  induction more as [|l more [R E]]; simpl.
  - split; [constructor|exact Logic.I].
  - destruct (re_match PY_DECORATOR_PATTERN l) as [[g1 g2]|] eqn:M.
    + destruct (str_eqb g1 I) eqn:Eq.
      * apply str_eqb_eq in Eq. subst g1. simpl.
        split; [constructor; assumption|exact E].
      * simpl. split; [constructor|]. intros d H. rewrite M in H.
        inversion H; subst.
        rewrite (proj2 (str_eqb_eq I I) eq_refl) in Eq. discriminate.
    + simpl. split; [constructor|]. intros d H. rewrite M in H. discriminate.
Qed.

Lemma decorator_run_no_header (I : str) (run decs : list str) :
  decorator_run I run decs -> Forall (fun l => py_plain l = None) run.
Proof.
  intros R. induction R as [|l d run decs M R IH]; constructor; [|exact IH].
  apply (decorator_not_plain _ _ _ M).
Qed.

Lemma decorator_run_last (I : str) (run decs : list str) :
  decorator_run I run decs -> run <> [] ->
  exists d, re_match PY_DECORATOR_PATTERN (last run []) = Some (I, d).
Proof.
  intros R. induction R as [|l d run decs M R IH]; intros Hne; [congruence|].
  destruct run as [|x run]; [exists d; exact M|].
  change (last (l :: x :: run) []) with (last (x :: run) []).
  apply IH. discriminate.
Qed.

Lemma last_app_nonempty {A : Type} (d : A) (a b : list A) :
  b <> [] -> last (a ++ b) d = last b d.
Proof.
  intros H. induction a as [|x a IH]; [reflexivity|].
  simpl app. destruct (a ++ b) eqn:E.
  - destruct a; [simpl in E; congruence|discriminate].
  - rewrite <- IH. reflexivity.
Qed.

(** The entries of the rounds are grouped along the lines. *)
Lemma py_entries_grouped (n : nat) :
  forall rest skipped, length rest <= n ->
    Forall (fun l => py_plain l = None) skipped ->
    round_boundary skipped rest ->
    py_grouped (skipped ++ rest) (py_entries rest).
Proof.
  induction n as [|n IH]; intros rest skipped Hn F B.
  { destruct rest; [|simpl in Hn; lia]. rewrite app_nil_r.
    apply grouped_nil. exact F. }
  destruct rest as [|l more].
  { rewrite app_nil_r. apply grouped_nil. exact F. }
  simpl in Hn.
  destruct (re_match PY_DECORATOR_PATTERN l) as [[I d]|] eqn:M.
  - destruct (run_decs_spec I more) as [R E].
    set (k := length (run_decs I more)) in *.
    assert (R' : decorator_run I (l :: firstn k more)
                   (d :: run_decs I more)) by (constructor; assumption).
    assert (Hne : l :: firstn k more <> []) by discriminate.
    assert (Hl : l :: more = (l :: firstn k more) ++ skipn k more)
      by (simpl; rewrite firstn_skipn; reflexivity).
    assert (Lk : length (skipn k more) <= n)
      by (rewrite length_skipn; lia).
    revert Hl. generalize (l :: more). intros whole ->.
    rewrite (py_entries_run I _ _ (skipn k more) Hne R' E).
    destruct (skipn k more) as [|h tl] eqn:Er.
    + change (py_entries []) with (@nil str). rewrite app_nil_r.
      cbn [app]. apply grouped_nil.
      apply Forall_app. split; [exact F|].
      apply (decorator_run_no_header I _ _ R').
    + destruct (py_plain h) as [e|] eqn:P.
      * rewrite <- app_assoc.
        apply (grouped_decorated skipped (l :: firstn k more)
                 (d :: run_decs I more) I h tl e (py_entries (h :: tl)));
          try assumption.
        -- intros d0 Ml. destruct (B I d0 Ml) as [_ Hend].
           exact (Hend d M).
        -- apply (IH (h :: tl) []); [exact Lk|constructor|].
           apply round_boundary_nil.
      * change ([] ++ py_entries (h :: tl)) with (py_entries (h :: tl)).
        rewrite app_assoc. apply IH; [exact Lk| |].
        -- apply Forall_app. split; [exact F|].
           apply (decorator_run_no_header I _ _ R').
        -- intros I' d' Ml. rewrite last_app_nonempty in Ml by exact Hne.
           destruct (decorator_run_last I _ _ R' Hne) as [d1 M1].
           rewrite M1 in Ml. inversion Ml; subst. split; [exact P|exact E].
  - rewrite (py_entries_plain l more M).
    destruct (py_plain l) as [e|] eqn:P; cbn [app].
    + apply grouped_plain; try assumption.
      * destruct (re_match PY_DECORATOR_PATTERN (last skipped []))
          as [[I d]|] eqn:Ml; [|reflexivity].
        destruct (B I d Ml) as [Pn _]. congruence.
      * apply (IH more []); [lia|constructor|apply round_boundary_nil].
    + replace (skipped ++ l :: more) with ((skipped ++ [l]) ++ more)
        by (rewrite <- app_assoc; reflexivity).
      apply IH; [lia| |].
      * apply Forall_app. split; [exact F|]. constructor; [exact P|constructor].
      * intros I d Ml. rewrite last_last in Ml. congruence.
Qed.

(** A grouping of the lines is the list of the entries of the rounds. *)
Lemma py_grouped_entries (lines r : list str) :
  py_grouped lines r -> py_entries lines = r.
Proof.
  intros G.
  induction G as [lines F|skipped h rest e more F Ml P G IH
                  |skipped run decs I h rest e more F Hs Hne R P G IH].
  - apply py_entries_no_header. exact F.
  - rewrite (py_entries_app (length skipped) skipped _ (le_n _))
      by (intros I d H; congruence).
    rewrite (py_entries_no_header skipped F).
    rewrite (py_entries_plain h rest (py_plain_not_decorator _ _ P)), P, IH.
    reflexivity.
  - rewrite (py_entries_decorated skipped run rest decs I h e Hne R P Hs).
    rewrite (py_entries_no_header skipped F).
    rewrite (py_entries_plain h rest (py_plain_not_decorator _ _ P)), P in IH.
    rewrite <- IH. reflexivity.
Qed.

(** X1.  The signature list of a Python file that can be read is built
    group by group along the lines, and nothing else is: [r] is the list
    of the file exactly when it is grouped on the lines of the file.  Lines
    that are no header are passed over; a header line that does not follow
    a decorator line gives its entry; a header line that follows a run of
    decorator lines at one indent, the run taken from its first line, gives
    the entries of these decorators in their order and then its own entry,
    and the scan goes on from the header line itself, which so gives its
    entry a second time.  Decorators that no header follows give
    nothing. *)
Theorem py_signatures_are_grouped
    (fs : filesystem) (filepath : str) (bytes : list N) (r : list str) :
  fs filepath = Content bytes ->
  (extract_python_signatures fs filepath = Some r <->
   py_grouped (file_lines bytes) r).
Proof.
  intros Hfs. rewrite (extract_python_entries fs filepath bytes Hfs).
  split.
  - intros E. inversion E; subst.
    apply (py_entries_grouped (length (file_lines bytes))
             (file_lines bytes) []); [lia|constructor|].
    apply round_boundary_nil.
  - intros G. rewrite (py_grouped_entries _ _ G). reflexivity.
Qed.

(** X2.  A Python file in which no line has the mark of a decorator as its
    first visible character is taken line by line: the signature list is
    made of the class or function entry of each line that has one, in the
    order of the lines, one entry per line at most. *)
Theorem py_without_decorators_is_linewise
    (fs : filesystem) (filepath : str) (bytes : list N) :
  fs filepath = Content bytes ->
  (forall l, In l (file_lines bytes) ->
             hd_error (lstrip l) <> Some (chr "@")) ->
  extract_python_signatures fs filepath
  = Some (flat_map (fun l => match py_plain l with
                             | Some e => [e]
                             | None => []
                             end) (file_lines bytes)).
Proof.
  intros Hfs H. unfold extract_python_signatures. rewrite Hfs. cbv zeta.
  rewrite py_loop_plain; [reflexivity| |lia].
  intros l Hl. apply no_at_no_decorator, H, Hl.
Qed.

(** X3.  A line without a closing parenthesis matches none of the patterns
    for Python functions, JS functions, arrow functions, methods and shell
    functions; a line without a colon is no Python header; and a Python
    file none of whose lines has a colon has no signatures at all.  (A
    header whose parameter list closes on a later line is detected all the
    same when its first line holds a closing parenthesis and a colon of
    its own, as the scenario [py_open_header_with_inner_call] shows.) *)
Theorem lines_without_closing_mark_match_nothing :
  (forall line, ~ In (chr ")") line ->
     re_match PY_FUNC_PATTERN line = None /\
     re_match JS_FUNC_PATTERN line = None /\
     re_match JS_ARROW_PATTERN line = None /\
     re_match JS_METHOD_PATTERN line = None /\
     re_match SH_FUNC_PATTERN line = None) /\
  (forall line, ~ In (chr ":") line -> py_plain line = None) /\
  (forall fs filepath bytes,
     fs filepath = Content bytes ->
     (forall l, In l (file_lines bytes) -> ~ In (chr ":") l) ->
     extract_python_signatures fs filepath = Some []).
Proof.
  assert (P : forall line, ~ In (chr ":") line -> py_plain line = None).
  { intros line H. unfold py_plain.
    rewrite (re_match_requires (chr ":") PY_CLASS_PATTERN line eq_refl H).
    rewrite (re_match_requires (chr ":") PY_FUNC_PATTERN line eq_refl H).
    reflexivity. }
  split; [|split].
  - intros line H.
    repeat split; apply (re_match_requires (chr ")")); auto.
  - exact P.
  - intros fs filepath bytes Hfs H.
    rewrite (extract_python_entries fs filepath bytes Hfs).
    rewrite py_entries_no_header; [reflexivity|].
    apply Forall_forall. intros l Hl. apply P, H, Hl.
Qed.

Lemma no_wordlike_no_match (p : pattern) (l : str) :
  wordlike_start (body p) = true -> visible_start (body p) = true ->
  starts_with (fun c => negb (wordlike c)) (lstrip l) ->
  re_match p l = None.
Proof.
  intros W V H. destruct (re_match p l) as [[g1 g2]|] eqn:M; [|reflexivity].
  exfalso.
  destruct (match_lstrip _ _ _ _ V M) as [tl [E _]].
  destruct (re_match_head _ _ _ _ W M) as [x [t [-> Hx]]].
  rewrite E in H. destruct H as [H|[y [u [H Hy]]]]; [discriminate|].
  inversion H; subst. rewrite Hx in Hy. discriminate.
Qed.

Lemma flat_map_nil {A B : Type} (f : A -> list B) (l : list A) :
  (forall x, In x l -> f x = []) -> flat_map f l = [].
Proof.
  induction l as [|x l IH]; intros H; [reflexivity|]. simpl.
  rewrite (H x (or_introl eq_refl)), IH; [reflexivity|].
  intros y Hy. apply H. right. exact Hy.
Qed.

(** X4.  A line that is blank, or whose first visible character is neither
    a word character nor the mark of a decorator (a comment, a brace, a
    quote, an operator), yields no entry in any of the three extractors,
    and a file made of such lines has an empty signature list. *)
Theorem other_lines_yield_nothing :
  (forall line,
     starts_with (fun c => negb (wordlike c)) (lstrip line) ->
     py_plain line = None /\
     re_match PY_DECORATOR_PATTERN line = None /\
     js_line line = None /\ sh_line line = None) /\
  (forall fs filepath bytes,
     fs filepath = Content bytes ->
     (forall l, In l (file_lines bytes) ->
        starts_with (fun c => negb (wordlike c)) (lstrip l)) ->
     extract_python_signatures fs filepath = Some [] /\
     extract_js_signatures fs filepath = [] /\
     extract_shell_signatures fs filepath = []).
Proof.
  assert (N : forall p line,
            In p (py_patterns ++
                  [JS_INTERFACE_PATTERN; JS_TYPE_PATTERN; JS_CLASS_PATTERN;
                   JS_FUNC_PATTERN; JS_ARROW_PATTERN; JS_ARROW_SIMPLE_PATTERN;
                   JS_METHOD_PATTERN; SH_FUNC_PATTERN;
                   SH_FUNC_KEYWORD_PATTERN]) ->
            starts_with (fun c => negb (wordlike c)) (lstrip line) ->
            re_match p line = None).
  { intros p line Hp H. destruct (wordlike_of p Hp) as [W V].
    apply no_wordlike_no_match; assumption. }
  assert (L : forall line,
            starts_with (fun c => negb (wordlike c)) (lstrip line) ->
            py_plain line = None /\
            re_match PY_DECORATOR_PATTERN line = None /\
            js_line line = None /\ sh_line line = None).
  { intros line H. repeat split.
    - unfold py_plain. rewrite !N; auto; simpl; tauto.
    - apply N; [simpl; tauto|exact H].
    - unfold js_line, js_declaration, js_method.
      destruct (js_control_flow line); [reflexivity|].
      rewrite !N; auto; simpl; tauto.
    - unfold sh_line. rewrite !N; auto; simpl; tauto. }
  split; [exact L|].
  intros fs filepath bytes Hfs H.
  unfold extract_python_signatures, extract_js_signatures,
    extract_shell_signatures, js_loop, sh_loop.
  rewrite Hfs. cbv zeta. repeat split.
  - rewrite py_loop_plain; [|intros l Hl; apply (L l (H l Hl))|lia].
    simpl. rewrite flat_map_nil; [reflexivity|].
    intros l Hl. rewrite (proj1 (L l (H l Hl))). reflexivity.
  - rewrite fold_append_entry. simpl. apply flat_map_nil.
    intros l Hl. destruct (L l (H l Hl)) as [_ [_ [J _]]]. rewrite J. reflexivity.
  - rewrite fold_append_entry. simpl. apply flat_map_nil.
    intros l Hl. destruct (L l (H l Hl)) as [_ [_ [_ S]]]. rewrite S. reflexivity.
Qed.

Lemma forallb_impl (p q : char -> bool) (l : str) :
  (forall x, p x = true -> q x = true) ->
  forallb p l = true -> forallb q l = true.
Proof.
  intros H. induction l as [|x l IH]; simpl; [reflexivity|].
  rewrite !andb_true_iff. intros [Hx Hl]. split; [apply H, Hx|apply IH, Hl].
Qed.

(** A matched Python header is followed by a colon on its line. *)
Lemma py_rest_colon (p : pattern) (l g1 g2 : str) :
  rest p = Chr (chr ":") ->
  re_match p l = Some (g1, g2) ->
  exists tail, l = (g1 ++ g2) ++ chr ":" :: tail.
Proof.
  intros Hr M.
  apply re_match_candidates in M as [s1 [s2 [c3 [H1 [H2 H3]]]]].
  pose proof (matches_split _ _ _ H1) as E1.
  pose proof (matches_split _ _ _ H2) as E2. simpl in E1, E2.
  rewrite Hr in H3. destruct s2 as [|y t]; [simpl in H3; contradiction|].
  change (In c3 (if N.eqb y (chr ":") then [([y], t)] else [])) in H3.
  destruct (N.eqb y (chr ":")) eqn:E; [|contradiction].
  apply N.eqb_eq in E. subst y. exists t.
  rewrite E1, E2, <- app_assoc. reflexivity.
Qed.

Lemma py_plain_colon (l e : str) :
  py_plain l = Some e -> exists tail, l = e ++ chr ":" :: tail.
Proof.
  intros P. apply py_plain_inv in P as [g1 [g2 [-> [M|M]]]].
  - apply (py_rest_colon PY_CLASS_PATTERN _ _ _ eq_refl M).
  - apply (py_rest_colon PY_FUNC_PATTERN _ _ _ eq_refl M).
Qed.

(** X5.  The entry of a Python class or function header is the line cut
    right before a colon, which is left out; for a class header it is the
    whole text of the line before its first colon. *)
Theorem py_header_is_cut_before_colon :
  (forall l e, py_plain l = Some e ->
     exists tail, l = e ++ chr ":" :: tail) /\
  (forall l g1 g2, re_match PY_CLASS_PATTERN l = Some (g1, g2) ->
     g1 ++ g2 = take_while (fun c => negb (N.eqb c (chr ":"))) l).
Proof.
  split.
  - apply py_plain_colon.
  - intros l g1 g2 M.
    destruct (py_rest_colon PY_CLASS_PATTERN _ _ _ eq_refl M) as [tail E].
    rewrite E. symmetry. apply take_while_app; [|reflexivity].
    destruct (re_match_groups _ _ _ _ py_class_visible M) as [_ [Sp _]].
    pose proof M as M'.
    apply re_match_candidates in M' as [s1 [s2 [c3 [_ [H2 _]]]]].
    rewrite forallb_app. apply andb_true_iff. split.
    + revert Sp. apply forallb_impl. intros x Hx.
      destruct (N.eqb x (chr ":")) eqn:Ex; [|reflexivity].
      apply N.eqb_eq in Ex. subst x. discriminate.
    + apply (avoids_sound (chr ":") (body PY_CLASS_PATTERN) eq_refl _ _ H2).
Qed.

(** X6.  A decorator line at another indent cuts a run short: the
    decorators collected so far are dropped, nothing is appended, and the
    scan resumes on that line, which begins a run of its own. *)
Theorem indent_change_drops_decorators
    (pre run post decs : list str) (I I' x d : str) (signatures : list str) :
  run <> [] -> decorator_run I run decs ->
  re_match PY_DECORATOR_PATTERN x = Some (I', d) -> I' <> I ->
  let lines := pre ++ run ++ x :: post in
  py_iter (length lines) lines (length pre) signatures
  = Some (length pre + length run, signatures) /\
  nth (length pre + length run) lines [] = x.
Proof.
  intros Hne R M Hd. apply (orphan_decorators_emit_nothing pre run post decs I x).
  - exact Hne.
  - exact R.
  - intros d' E. rewrite M in E. inversion E. congruence.
  - destruct (re_match PY_CLASS_PATTERN x) as [[g1 g2]|] eqn:C; [|reflexivity].
    rewrite (py_class_not_decorator _ _ _ C) in M. discriminate.
  - destruct (re_match PY_FUNC_PATTERN x) as [[g1 g2]|] eqn:F; [|reflexivity].
    rewrite (py_func_not_decorator _ _ _ F) in M. discriminate.
Qed.

(** X7.  The JS/TS and shell extractors work line by line: the entries of
    a list of lines are the entries of its parts put end to end, each line
    gives one entry at most, and so there are never more entries than
    lines. *)
Theorem js_and_shell_are_linewise (l1 l2 : list str) :
  js_loop (l1 ++ l2) [] = js_loop l1 [] ++ js_loop l2 [] /\
  sh_loop (l1 ++ l2) [] = sh_loop l1 [] ++ sh_loop l2 [] /\
  length (js_loop l1 []) <= length l1 /\
  length (sh_loop l1 []) <= length l1.
Proof.
  assert (B : forall (f : str -> option str) (l : list str),
            length (flat_map (fun x => match f x with
                                       | Some e => [e]
                                       | None => []
                                       end) l) <= length l).
  { intros f l. induction l as [|x l IH]; simpl; [lia|].
    rewrite length_app. destruct (f x); simpl; lia. }
  unfold js_loop, sh_loop. rewrite !fold_append_entry. simpl.
  rewrite !flat_map_app. repeat split; auto.
Qed.

(** *** Entries are cut out of their line and stay on one line *)

Lemma drop_while_suffix (p : char -> bool) (l : str) :
  exists a, l = a ++ drop_while p l.
Proof.
  induction l as [|x l [a IH]]; simpl; [exists []; reflexivity|].
  destruct (p x); [|exists []; reflexivity].
  exists (x :: a). simpl. rewrite <- IH. reflexivity.
Qed.

Lemma rev_drop_while_prefix (p : char -> bool) (s : str) :
  exists t, s = rev (drop_while p (rev s)) ++ t.
Proof.
  destruct (drop_while_suffix p (rev s)) as [a E].
  exists (rev a). rewrite <- rev_app_distr, <- E, rev_involutive. reflexivity.
Qed.

Lemma rstrip_prefix (s : str) : exists t, s = rstrip s ++ t.
Proof. apply rev_drop_while_prefix. Qed.

Lemma rstrip_char_prefix (c : char) (s : str) :
  exists t, s = rstrip_char c s ++ t.
Proof. apply rev_drop_while_prefix. Qed.

Lemma rstrip_ends_visible (s : str) : ends_visible (rstrip s).
Proof.
  unfold rstrip.
  destruct (drop_while_visible (rev s)) as [E|[x [t [E Hx]]]]; rewrite E.
  - left. reflexivity.
  - right. exists (rev t), x. auto.
Qed.

Lemma strip_ends_visible (s : str) : ends_visible (strip s).
Proof. apply rstrip_ends_visible. Qed.

Lemma strip_visible_prefix (x : char) (t : str) :
  is_space x = false -> exists w, x :: t = strip (x :: t) ++ w.
Proof.
  intros Hx. unfold strip, lstrip. simpl. rewrite Hx. apply rstrip_prefix.
Qed.

(** A declaration entry of the JS/TS extractor is an initial segment of
    its line and ends with a visible character. *)
Lemma js_declaration_excerpt (l e : str) :
  js_declaration l = Some e ->
  is_prefix e l /\ e <> [] /\ ends_visible e.
Proof.
  unfold js_declaration.
  repeat match goal with
  | |- context [re_match ?p l] =>
      let M := fresh "M" in
      destruct (re_match p l) as [[g1 g2]|] eqn:M;
      [intros E; inversion E; subst; clear E;
       destruct (re_match_groups p l g1 g2 eq_refl M)
         as [_ [_ [[x [t [-> Hx]]] [tl [El _]]]]];
       destruct (strip_keeps_head x t Hx) as [t' Es];
       destruct (strip_visible_prefix x t Hx) as [w Ew];
       repeat split;
       [exists (w ++ tl); rewrite El at 1; rewrite Ew at 1;
        rewrite <- !app_assoc; reflexivity
       |rewrite Es; destruct g1; discriminate
       |apply ends_visible_app; [apply strip_ends_visible|];
        rewrite Es; discriminate]|]
  end.
  discriminate.
Qed.

(** A method entry is an initial segment of its line, ending with a
    visible character, followed by a pair of parentheses. *)
Lemma js_method_excerpt (l e : str) :
  js_method l = Some e ->
  exists e', e = e' ++ lit_str "()" /\
             is_prefix e' l /\ e' <> [] /\ ends_visible e'.
Proof.
  unfold js_method.
  destruct (re_match JS_METHOD_PATTERN l) as [[g1 g2]|] eqn:M; [|discriminate].
  destruct (Nat.ltb 0 (length g1)); [|discriminate].
  intros E; inversion E; subst; clear E.
  destruct (re_match_groups JS_METHOD_PATTERN l g1 g2 eq_refl M)
    as [_ [_ [_ [tl [El _]]]]].
  destruct (re_match_head JS_METHOD_PATTERN l g1 g2 eq_refl M)
    as [x [t [-> Hx]]].
  pose proof (wordlike_not_space x Hx) as Nx.
  assert (B : N.eqb (chr "{") x = false).
  { destruct (N.eqb (chr "{") x) eqn:E; [|reflexivity].
    apply N.eqb_eq in E. subst x. discriminate. }
  destruct (rstrip_char_keeps_head (chr "{") x t B) as [t1 E1].
  destruct (rstrip_char_prefix (chr "{") (x :: t)) as [w1 Ew1].
  rewrite E1 in *.
  destruct (strip_keeps_head x t1 Nx) as [t2 E2].
  destruct (strip_visible_prefix x t1 Nx) as [w2 Ew2].
  exists (g1 ++ strip (x :: t1)). repeat split.
  - change (rstrip_char 123%N (x :: t)) with (rstrip_char (chr "{") (x :: t)).
    rewrite E1, <- app_assoc. reflexivity.
  - exists (w2 ++ w1 ++ tl). rewrite El at 1. rewrite Ew1 at 1.
    rewrite Ew2 at 1. rewrite <- !app_assoc. reflexivity.
  - rewrite E2. destruct g1; discriminate.
  - apply ends_visible_app; [apply strip_ends_visible|].
    rewrite E2. discriminate.
Qed.

(** An entry of the shell extractor, and a decorator entry, is an initial
    segment of its line and ends with a visible character. *)
Lemma match_excerpt (p : pattern) (l g1 g2 : str) :
  visible_start (body p) = true -> last_nonspace (body p) = true ->
  re_match p l = Some (g1, g2) ->
  is_prefix (g1 ++ g2) l /\ g1 ++ g2 <> [] /\ ends_visible (g1 ++ g2).
Proof.
  intros V L M.
  destruct (entry_from_match p l g1 g2 V M) as [P _].
  destruct (re_match_groups p l g1 g2 V M) as [_ [_ [[x [t [E Hx]]] _]]].
  pose proof M as M'.
  apply re_match_candidates in M' as [s1 [s2 [c3 [_ [H2 _]]]]].
  pose proof (last_nonspace_sound _ _ _ H2 L) as Ev. simpl in Ev.
  repeat split; [exact P| |].
  - subst g2. destruct g1; discriminate.
  - apply ends_visible_app; [exact Ev|]. subst g2. discriminate.
Qed.

Lemma sh_line_excerpt (l e : str) :
  sh_line l = Some e -> is_prefix e l /\ e <> [] /\ ends_visible e.
Proof.
  unfold sh_line.
  destruct (re_match SH_FUNC_PATTERN l) as [[g1 g2]|] eqn:M.
  - intros E; inversion E; subst.
    apply (match_excerpt SH_FUNC_PATTERN); [reflexivity|reflexivity|exact M].
  - destruct (re_match SH_FUNC_KEYWORD_PATTERN l) as [[g1 g2]|] eqn:K;
      [|discriminate].
    intros E; inversion E; subst.
    apply (match_excerpt SH_FUNC_KEYWORD_PATTERN);
      [reflexivity|reflexivity|exact K].
Qed.

Lemma js_line_excerpt (l e : str) :
  js_line l = Some e ->
  (is_prefix e l /\ ends_visible e) \/
  (exists e', e = e' ++ lit_str "()" /\ is_prefix e' l /\ ends_visible e').
Proof.
  unfold js_line.
  destruct (js_control_flow l); [discriminate|].
  destruct (js_declaration l) as [e'|] eqn:D.
  - intros E; inversion E; subst.
    destruct (js_declaration_excerpt l e D) as [P [_ V]]. left. auto.
  - intros H. right.
    destruct (js_method_excerpt l e H) as [e' [E [P [_ V]]]].
    exists e'. auto.
Qed.

(** X8.  Entries are copied from their line, never rewritten: a shell
    entry and a JS/TS declaration entry are initial segments of the line
    they come from, and a method entry is such a segment followed by a pair
    of parentheses; none of these segments ends with whitespace. *)
Theorem entries_are_excerpts :
  (forall l e, sh_line l = Some e -> is_prefix e l /\ ends_visible e) /\
  (forall l e, js_line l = Some e ->
     (is_prefix e l /\ ends_visible e) \/
     (exists e', e = e' ++ lit_str "()" /\ is_prefix e' l /\
                 ends_visible e')).
Proof.
  split.
  - intros l e H. destruct (sh_line_excerpt l e H) as [P [_ V]]. auto.
  - apply js_line_excerpt.
Qed.

Lemma lf_is_space : is_space 10%N = true.
Proof. reflexivity. Qed.

(** An initial segment of a line that ends with a visible character holds
    no line feed. *)
Lemma excerpt_no_lf (l e : str) :
  lf_last l -> is_prefix e l -> ends_visible e -> ~ In 10%N e.
Proof.
  intros Hl [t E] Ev Hin.
  apply in_split in Hin as [a [b Eab]].
  assert (Hb : b ++ t = []).
  { apply (Hl a). rewrite E, Eab, <- app_assoc. reflexivity. }
  apply app_eq_nil in Hb as [-> ->].
  destruct Ev as [Ev|[t' [x [Ev Hx]]]].
  - rewrite Ev in Eab. destruct a; discriminate.
  - rewrite Ev in Eab. apply app_inj_tail in Eab as [_ ->].
    rewrite lf_is_space in Hx. discriminate.
Qed.

Lemma lf_last_snoc (m : str) : ~ In 10%N m -> lf_last (m ++ [10%N]).
Proof.
  intros Hm a b E. destruct b as [|z b] using rev_ind; [reflexivity|].
  exfalso. apply Hm.
  replace (a ++ 10%N :: b ++ [z]) with ((a ++ 10%N :: b) ++ [z]) in E
    by (rewrite <- app_assoc; reflexivity).
  apply app_inj_tail in E as [-> _]. apply in_or_app. right. left. reflexivity.
Qed.

Lemma lf_last_none (m : str) : ~ In 10%N m -> lf_last m.
Proof.
  intros Hm a b E. exfalso. apply Hm. rewrite E.
  apply in_or_app. right. left. reflexivity.
Qed.

(** The lines that [readlines] hands over have their line feed at the
    end. *)
Lemma split_lines_lf_last :
  forall n s cur, length s <= n -> ~ In 10%N cur ->
    Forall lf_last (split_lines cur s).
Proof.
  induction n as [|n IH]; intros s cur Hn Hc.
  - destruct s; [|simpl in Hn; lia]. simpl.
    destruct cur; constructor; [|constructor].
    apply lf_last_none. rewrite <- in_rev. exact Hc.
  - destruct s as [|c t]; simpl.
    + destruct cur; constructor; [|constructor].
      apply lf_last_none. rewrite <- in_rev. exact Hc.
    + assert (Hr : lf_last (rev (10%N :: cur))).
      { simpl. apply lf_last_snoc. rewrite <- in_rev. exact Hc. }
      simpl in Hn.
      destruct (N.eqb c 10) eqn:E10.
      * constructor; [exact Hr|]. apply IH; [lia|intros []].
      * destruct (N.eqb c 13) eqn:E13.
        -- destruct t as [|d t']; [constructor; [exact Hr|constructor]|].
           destruct (N.eqb d 10); constructor; try exact Hr;
             apply IH; simpl in *; try lia; intros [].
        -- apply IH; [lia|]. intros [H|H]; [|exact (Hc H)].
           subst c. discriminate.
Qed.

Lemma file_lines_lf_last (bytes : list N) : Forall lf_last (file_lines bytes).
Proof.
  apply (split_lines_lf_last (length (utf8_decode_ignore bytes)));
    [lia|intros []].
Qed.

Lemma py_plain_no_lf (l e : str) :
  lf_last l -> py_plain l = Some e -> ~ In 10%N e.
Proof.
  intros Hl P Hin.
  destruct (py_plain_colon l e P) as [tail E].
  apply in_split in Hin as [a [b Eab]].
  assert (Hb : b ++ chr ":" :: tail = []).
  { apply (Hl a). rewrite E, Eab, <- app_assoc. reflexivity. }
  destruct b; discriminate.
Qed.

(** X9.  Every entry taken from a file stays on one line: no entry of any
    of the three extractors holds a line feed, so each signature is one
    line of the map. *)
Theorem entries_hold_no_line_feed
    (fs : filesystem) (filepath : str) (bytes : list N) :
  fs filepath = Content bytes ->
  (forall r e, extract_python_signatures fs filepath = Some r ->
               In e r -> ~ In 10%N e) /\
  (forall e, In e (extract_js_signatures fs filepath) -> ~ In 10%N e) /\
  (forall e, In e (extract_shell_signatures fs filepath) -> ~ In 10%N e).
Proof.
  intros Hfs.
  pose proof (file_lines_lf_last bytes) as LF. rewrite Forall_forall in LF.
  unfold extract_python_signatures, extract_js_signatures,
    extract_shell_signatures, js_loop, sh_loop.
  rewrite Hfs. cbv zeta. split; [|split].
  - intros r e R Hin.
    destruct (py_loop_total (S (length (file_lines bytes)))
                (file_lines bytes) 0 []) as [new [R' F]]; [lia|].
    rewrite R in R'. inversion R'; subst. simpl in Hin.
    rewrite Forall_forall in F.
    destruct (F e Hin) as [p [l [g1 [g2 [Hp [Hl [M ->]]]]]]].
    simpl in Hp. destruct Hp as [<-|[<-|[<-|[]]]].
    + apply (py_plain_no_lf l); [apply LF, Hl|apply py_plain_class, M].
    + destruct (re_match PY_CLASS_PATTERN l) as [[h1 h2]|] eqn:C.
      * rewrite (py_class_not_func _ _ _ C) in M. discriminate.
      * apply (py_plain_no_lf l); [apply LF, Hl|apply py_plain_func; assumption].
    + destruct (match_excerpt PY_DECORATOR_PATTERN l g1 g2 eq_refl eq_refl M)
        as [P [_ V]].
      apply (excerpt_no_lf l); [apply LF, Hl|exact P|exact V].
  - intros e Hin. apply in_fold_append_entry in Hin as [l [Hl He]].
    destruct (js_line_excerpt l e He) as [[P V]|[e' [-> [P V]]]].
    + apply (excerpt_no_lf l); [apply LF, Hl|exact P|exact V].
    + intros Hin. apply in_app_or in Hin as [Hin|Hin].
      * revert Hin. apply (excerpt_no_lf l); [apply LF, Hl|exact P|exact V].
      * simpl in Hin. destruct Hin as [H|[H|[]]]; discriminate.
  - intros e Hin. apply in_fold_append_entry in Hin as [l [Hl He]].
    destruct (sh_line_excerpt l e He) as [P [_ V]].
    apply (excerpt_no_lf l); [apply LF, Hl|exact P|exact V].
Qed.

End ExtractorFacts.

(** ** Ignore rules, extensions and dispatch *)

Section TraversalFacts.
Context {db : UnicodeDB}.

Lemma startswith_spec (s pre : str) :
  startswith s pre = true <-> exists t, s = pre ++ t.
Proof.
  revert s. induction pre as [|p pre IH]; intros s; simpl.
  - split; [intros _; exists s; reflexivity|reflexivity].
  - destruct s as [|c s]; [split; [discriminate|intros [t E]; discriminate]|].
    rewrite andb_true_iff, N.eqb_eq, IH. split.
    + intros [-> [t ->]]. exists t. reflexivity.
    + intros [t E]. inversion E. split; [reflexivity|exists t; reflexivity].
Qed.

Lemma endswith_spec (s suf : str) :
  endswith s suf = true <-> exists a, s = a ++ suf.
Proof.
  unfold endswith. rewrite startswith_spec. split.
  - intros [t E]. exists (rev t).
    rewrite <- (rev_involutive s), E, rev_app_distr, rev_involutive.
    reflexivity.
  - intros [a ->]. exists (rev a). apply rev_app_distr.
Qed.

Lemma contains_spec (sub s : str) :
  contains sub s = true <-> exists a b, s = a ++ sub ++ b.
Proof.
  induction s as [|c s IH]; simpl.
  - rewrite orb_false_r, startswith_spec. split.
    + intros [t E]. exists [], t. exact E.
    + intros [a [b E]]. destruct a; [exists b; exact E|discriminate].
  - rewrite orb_true_iff, startswith_spec, IH. split.
    + intros [[t E]|[a [b E]]].
      * exists [], t. exact E.
      * exists (c :: a), b. rewrite E. reflexivity.
    + intros [a [b E]]. destruct a as [|x a].
      * left. exists b. exact E.
      * right. inversion E. exists a, b. reflexivity.
Qed.

Lemma endswith_contains (s a b : str) :
  endswith s (a ++ b) = true -> contains a s = true.
Proof.
  rewrite endswith_spec, contains_spec. intros [pre ->]. exists pre, b.
  reflexivity.
Qed.

Lemma str_eqb_refl (a : str) : str_eqb a a = true.
Proof. apply str_eqb_eq. reflexivity. Qed.

Lemma str_in_spec (w : str) (ws : list str) :
  str_in w ws = true <-> In w ws.
Proof.
  unfold str_in. rewrite existsb_exists. split.
  - intros [x [Hx E]]. apply str_eqb_eq in E. subst. exact Hx.
  - intros H. exists w. split; [exact H|apply str_eqb_refl].
Qed.

(** X10.  A directory is skipped exactly when its name begins with a dot
    or is one of the nine undotted names of [IGNORE_DIRS]; the dotted
    entries of that set change nothing, and no hidden directory is ever
    entered. *)
Theorem hidden_directories_are_ignored (dirname : str) :
  should_ignore_dir dirname
  = str_in dirname
      (map lit_str ["node_modules"; "venv"; "__pycache__"; "dist"; "build";
                    "coverage"; "logs"; "uploads"; "data"]%string)
    || startswith dirname (lit_str ".") /\
  (startswith dirname (lit_str ".") = true ->
   should_ignore_dir dirname = true).
Proof.
  split.
  - unfold should_ignore_dir.
    destruct (startswith dirname (lit_str ".")) eqn:S;
      [rewrite !orb_true_r; reflexivity|].
    rewrite !orb_false_r.
    destruct dirname as [|c d]; [reflexivity|].
    simpl in S. rewrite andb_true_r in S.
    unfold str_in, IGNORE_DIRS. simpl existsb.
    change (lit_str ".git") with (46%N :: lit_str "git").
    change (lit_str ".next") with (46%N :: lit_str "next").
    change (lit_str ".cursor") with (46%N :: lit_str "cursor").
    change (lit_str ".vscode") with (46%N :: lit_str "vscode").
    change (lit_str ".gemini") with (46%N :: lit_str "gemini").
    cbn [str_eqb]. rewrite S. simpl andb.
    repeat rewrite orb_false_r. repeat rewrite orb_false_l.
    repeat rewrite orb_assoc. reflexivity.
  - intros S. unfold should_ignore_dir. rewrite S. apply orb_true_r.
Qed.

Lemma should_ignore_file_eq (filename : str) :
  should_ignore_file filename
  = str_in filename
      (map lit_str ["package-lock.json"; "pnpm-lock.yaml"; ".DS_Store";
                    "Thumbs.db"]%string)
    || existsb (endswith filename)
         (map lit_str [".png"; ".svg"; ".ico"; ".jpg"; ".jpeg"; ".gif";
                       ".webp"; ".woff"; ".woff2"; ".ttf"; ".eot"; ".map";
                       ".lock"]%string)
    || contains (lit_str ".min.") filename.
Proof.
  unfold should_ignore_file.
  destruct (contains (lit_str ".min.") filename) eqn:C.
  - rewrite orb_true_r.
    destruct (str_in filename IGNORE_FILES); [reflexivity|].
    destruct (existsb (endswith filename) IGNORE_EXTENSIONS); reflexivity.
  - rewrite orb_false_r.
    assert (J : endswith filename (lit_str ".min.js") = false).
    { destruct (endswith filename (lit_str ".min.js")) eqn:E; [|reflexivity].
      rewrite (endswith_contains filename (lit_str ".min.") (lit_str "js") E)
        in C. discriminate. }
    assert (K : endswith filename (lit_str ".min.css") = false).
    { destruct (endswith filename (lit_str ".min.css")) eqn:E; [|reflexivity].
      rewrite (endswith_contains filename (lit_str ".min.") (lit_str "css") E)
        in C. discriminate. }
    unfold IGNORE_EXTENSIONS. cbn [map existsb]. rewrite J, K.
    unfold IGNORE_FILES, str_in. cbn [map existsb].
    destruct (str_eqb filename (lit_str "yarn.lock")) eqn:Y.
    + apply str_eqb_eq in Y. subst filename.
      vm_compute. reflexivity.
    + destruct (str_eqb filename (lit_str "package-lock.json")); [reflexivity|].
      destruct (str_eqb filename (lit_str "pnpm-lock.yaml")); [reflexivity|].
      destruct (str_eqb filename (lit_str ".DS_Store")); [reflexivity|].
      destruct (str_eqb filename (lit_str "Thumbs.db")); [reflexivity|].
      cbn [orb]. repeat rewrite orb_false_r.
      repeat match goal with
      | |- context [endswith filename ?e] =>
          destruct (endswith filename e); [reflexivity|]
      end.
      reflexivity.
Qed.

(** X11.  A file is skipped exactly when its name is one of four fixed
    names, ends with one of thirteen extensions or holds [.min.]; the
    entries [.min.js] and [.min.css] of [IGNORE_EXTENSIONS] and the entry
    [yarn.lock] of [IGNORE_FILES] change nothing. *)
Theorem should_ignore_file_reduced (filename : str) :
  should_ignore_file filename
  = str_in filename
      (map lit_str ["package-lock.json"; "pnpm-lock.yaml"; ".DS_Store";
                    "Thumbs.db"]%string)
    || existsb (endswith filename)
         (map lit_str [".png"; ".svg"; ".ico"; ".jpg"; ".jpeg"; ".gif";
                       ".webp"; ".woff"; ".woff2"; ".ttf"; ".eot"; ".map";
                       ".lock"]%string)
    || contains (lit_str ".min.") filename.
Proof. apply should_ignore_file_eq. Qed.

(** *** The extension of a file name *)

Lemma split_char_bare (c : char) (n : str) :
  ~ In c n -> split_char c n = [n].
Proof.
  induction n as [|x n IH]; intros H; simpl; [reflexivity|].
  destruct (N.eqb x c) eqn:E.
  - apply N.eqb_eq in E. subst. elim H. left. reflexivity.
  - rewrite IH; [reflexivity|]. intros Hin. apply H. right. exact Hin.
Qed.

Lemma path_name_bare (n : str) :
  ~ In (chr "/") n ->
  path_name n = if str_eqb n [] || str_eqb n (lit_str ".") then [] else n.
Proof.
  intros H. unfold path_name. rewrite (split_char_bare _ _ H). simpl.
  destruct (str_eqb n [] || str_eqb n (lit_str ".")); reflexivity.
Qed.

Lemma rfind_none (c : char) (s : str) : ~ In c s -> rfind c s = None.
Proof.
  induction s as [|x s IH]; intros H; simpl; [reflexivity|].
  rewrite IH by (intros Hin; apply H; right; exact Hin).
  destruct (N.eqb x c) eqn:E; [|reflexivity].
  apply N.eqb_eq in E. subst. elim H. left. reflexivity.
Qed.

Lemma rfind_last (c : char) (pre r : str) :
  ~ In c r -> rfind c (pre ++ c :: r) = Some (length pre).
Proof.
  intros H. induction pre as [|x pre IH]; simpl.
  - rewrite (rfind_none c r H), N.eqb_refl. reflexivity.
  - rewrite IH. reflexivity.
Qed.

Lemma rfind_some (c : char) (s : str) : In c s -> rfind c s <> None.
Proof.
  induction s as [|x s IH]; intros H; simpl; [contradiction|].
  destruct (rfind c s) as [j|] eqn:R; [discriminate|].
  destruct H as [->|H]; [rewrite N.eqb_refl; discriminate|].
  elim (IH H). reflexivity.
Qed.

Lemma rfind_inv (c : char) (s : str) (i : nat) :
  rfind c s = Some i ->
  exists pre r, s = pre ++ c :: r /\ length pre = i /\ ~ In c r.
Proof.
  revert i. induction s as [|x s IH]; intros i; simpl; [discriminate|].
  destruct (rfind c s) as [j|] eqn:R.
  - intros E; inversion E; subst.
    destruct (IH j eq_refl) as [pre [r [-> [L H]]]].
    exists (x :: pre), r. simpl. auto.
  - destruct (N.eqb x c) eqn:E; [|discriminate].
    apply N.eqb_eq in E. subst x. intros E; inversion E; subst.
    exists [], s. repeat split.
    intros Hin. apply (rfind_some c s Hin R).
Qed.

Lemma skipn_length_app (a b : str) : skipn (length a) (a ++ b) = b.
Proof. induction a as [|x a IH]; simpl; [reflexivity|exact IH]. Qed.

(** The suffix of [stem.ext] is [.ext]. *)
Lemma name_suffix_split (stem r : str) :
  stem <> [] -> r <> [] -> ~ In (chr ".") r ->
  name_suffix (stem ++ chr "." :: r) = chr "." :: r.
Proof.
  intros Hs Hr Hd. unfold name_suffix. rewrite (rfind_last _ _ _ Hd).
  replace (Nat.ltb 0 (length stem)) with true
    by (symmetry; apply Nat.ltb_lt; destruct stem; [congruence|simpl; lia]).
  replace (Nat.ltb (length stem) (length (stem ++ chr "." :: r) - 1)) with true.
  - simpl. apply skipn_length_app.
  - symmetry. apply Nat.ltb_lt. rewrite length_app. simpl.
    destruct r; [congruence|simpl; lia].
Qed.

Lemma name_suffix_inv (n : str) :
  name_suffix n <> [] ->
  exists stem r, n = stem ++ chr "." :: r /\ stem <> [] /\ r <> [] /\
                 ~ In (chr ".") r /\ name_suffix n = chr "." :: r.
Proof.
  intros H.
  assert (E : exists stem r, n = stem ++ chr "." :: r /\ ~ In (chr ".") r /\
                stem <> [] /\ r <> []).
  { unfold name_suffix in H.
    destruct (rfind (chr ".") n) as [i|] eqn:R; [|congruence].
    destruct (rfind_inv _ _ _ R) as [pre [r [-> [L Hd]]]]. subst i.
    destruct (Nat.ltb 0 (length pre)) eqn:L0; [|simpl in H; congruence].
    destruct (Nat.ltb (length pre) (length (pre ++ chr "." :: r) - 1)) eqn:L1;
      [|simpl in H; congruence].
    apply Nat.ltb_lt in L0, L1. rewrite length_app in L1. simpl in L1.
    exists pre, r. repeat split; auto.
    - destruct pre; [simpl in L0; lia|discriminate].
    - destruct r; [simpl in L1; lia|discriminate]. }
  destruct E as [stem [r [-> [Hd [Hs Hr]]]]].
  exists stem, r. repeat split; auto. apply name_suffix_split; assumption.
Qed.

Lemma bare_name_kept (stem r : str) :
  stem <> [] ->
  str_eqb (stem ++ chr "." :: r) [] ||
  str_eqb (stem ++ chr "." :: r) (lit_str ".") = false.
Proof.
  intros Hs. destruct stem as [|x stem]; [congruence|].
  apply orb_false_iff. split; [reflexivity|].
  destruct (str_eqb ((x :: stem) ++ chr "." :: r) (lit_str ".")) eqn:E;
    [|reflexivity].
  apply str_eqb_eq in E. destruct stem; discriminate.
Qed.

Lemma extension_split (stem r : str) :
  stem <> [] -> r <> [] -> ~ In (chr ".") r ->
  ~ In (chr "/") (stem ++ chr "." :: r) ->
  get_file_extension (stem ++ chr "." :: r) = lower (chr "." :: r).
Proof.
  intros Hs Hr Hd Hb. unfold get_file_extension.
  rewrite (path_name_bare _ Hb), (bare_name_kept stem r Hs).
  rewrite name_suffix_split; auto.
Qed.

Lemma extension_hidden (r : str) :
  ~ In (chr "/") r -> ~ In (chr ".") r ->
  get_file_extension (chr "." :: r) = [].
Proof.
  intros Hb Hd. unfold get_file_extension.
  assert (Hb' : ~ In (chr "/") (chr "." :: r)).
  { intros [H|H]; [discriminate|exact (Hb H)]. }
  rewrite (path_name_bare _ Hb').
  destruct (str_eqb (chr "." :: r) [] || str_eqb (chr "." :: r) (lit_str "."));
    [reflexivity|].
  unfold name_suffix.
  pose proof (rfind_last (chr ".") [] r Hd) as R.
  change ([] ++ chr "." :: r) with (chr "." :: r) in R.
  rewrite R. reflexivity.
Qed.

(** X12.  For a file name as the traversal gives it, the extension is the
    lowercased text from the last dot on, provided something stands before
    that dot and after it: [stem.ext] has the extension of [.ext] in lower
    case, a name without a dot has none, and a hidden name with no further
    dot has none. *)
Theorem extension_is_last_suffix :
  (forall stem r,
     stem <> [] -> r <> [] -> ~ In (chr ".") r ->
     ~ In (chr "/") (stem ++ chr "." :: r) ->
     get_file_extension (stem ++ chr "." :: r) = lower (chr "." :: r)) /\
  (forall n, ~ In (chr "/") n -> ~ In (chr ".") n ->
     get_file_extension n = []) /\
  (forall r, ~ In (chr "/") r -> ~ In (chr ".") r ->
     get_file_extension (chr "." :: r) = []).
Proof.
  split; [exact extension_split|]. split; [|exact extension_hidden].
  intros n Hb Hd. unfold get_file_extension. rewrite (path_name_bare _ Hb).
  destruct (str_eqb n [] || str_eqb n (lit_str ".")); [reflexivity|].
  unfold name_suffix. rewrite (rfind_none _ _ Hd). reflexivity.
Qed.

(** The extension of a name that ends with a one-dot ending is that ending
    in lower case, or nothing. *)
Lemma extension_of_ending (n r : str) :
  r <> [] -> ~ In (chr ".") r -> ~ In (chr "/") n ->
  endswith n (chr "." :: r) = true ->
  get_file_extension n = lower (chr "." :: r) \/ get_file_extension n = [].
Proof.
  intros Hr Hd Hb E. apply endswith_spec in E as [a ->].
  destruct a as [|x a].
  - right. apply extension_hidden; [|exact Hd].
    intros H. apply Hb. right. exact H.
  - left. apply extension_split; auto. discriminate.
Qed.

(** A name with an extension, as the traversal gives it, is [stem.ext]. *)
Lemma extension_inv (n : str) :
  ~ In (chr "/") n -> get_file_extension n <> [] ->
  exists stem r, n = stem ++ chr "." :: r /\ stem <> [] /\ r <> [] /\
                 ~ In (chr ".") r.
Proof.
  intros Hb H. unfold get_file_extension in H. rewrite (path_name_bare _ Hb) in H.
  destruct (str_eqb n [] || str_eqb n (lit_str ".")); [elim H; reflexivity|].
  destruct (name_suffix_inv n) as [stem [r [E [Hs [Hr [Hd _]]]]]].
  - intros E. rewrite E in H. apply H. reflexivity.
  - exists stem, r. auto.
Qed.

(** X13.  Among the files with a code extension, exactly those whose name
    holds [.min.] are skipped: no fixed name and no ignored extension other
    than the minified ones can hide a code file. *)
Theorem code_files_are_skipped_only_when_minified (filename : str) :
  ~ In (chr "/") filename ->
  str_in (get_file_extension filename) CODE_EXTENSIONS = true ->
  should_ignore_file filename = contains (lit_str ".min.") filename.
Proof.
  intros Hb Hc. rewrite should_ignore_file_eq.
  assert (F : str_in filename
                (map lit_str ["package-lock.json"; "pnpm-lock.yaml";
                              ".DS_Store"; "Thumbs.db"]%string) = false).
  { destruct (str_in filename _) eqn:E; [|reflexivity].
    apply str_in_spec in E. simpl in E.
    destruct E as [<-|[<-|[<-|[<-|[]]]]]; vm_compute in Hc; discriminate. }
  assert (X : existsb (endswith filename)
                (map lit_str [".png"; ".svg"; ".ico"; ".jpg"; ".jpeg"; ".gif";
                              ".webp"; ".woff"; ".woff2"; ".ttf"; ".eot";
                              ".map"; ".lock"]%string) = false).
  { destruct (existsb _ _) eqn:E; [|reflexivity].
    apply existsb_exists in E as [e [He Hend]]. exfalso.
    assert (K : exists r, e = chr "." :: r /\ r <> [] /\ ~ In (chr ".") r /\
                  str_in (lower e) CODE_EXTENSIONS = false).
    { simpl in He.
      repeat (destruct He as [<-|He];
        [eexists; split; [reflexivity|]; split; [discriminate|];
         split; [simpl; intuition discriminate|vm_compute; reflexivity]|]).
      contradiction. }
    destruct K as [r [-> [Hr [Hd Hl]]]].
    destruct (extension_of_ending filename r Hr Hd Hb Hend) as [G|G];
      rewrite G in Hc.
    - rewrite Hl in Hc. discriminate.
    - vm_compute in Hc. discriminate. }
  rewrite F, X. reflexivity.
Qed.

(** X14.  The dispatcher and [CODE_EXTENSIONS] agree: for an extension
    outside the set nothing is read and the result is the empty list,
    whatever lies under the path; for an extension of the set the file is
    read by one of the three extractors, so that a file that cannot be read
    shows as one diagnostic entry. *)
Theorem dispatch_agrees_with_code_extensions
    (fs : filesystem) (filepath extension : str) :
  (str_in extension CODE_EXTENSIONS = false ->
   extract_signatures fs filepath extension = Some []) /\
  (str_in extension CODE_EXTENSIONS = true ->
   (extract_signatures fs filepath extension
    = extract_python_signatures fs filepath \/
    extract_signatures fs filepath extension
    = Some (extract_js_signatures fs filepath) \/
    extract_signatures fs filepath extension
    = Some (extract_shell_signatures fs filepath)) /\
   forall e, fs filepath = Unreadable e ->
     exists d, extract_signatures fs filepath extension = Some [d]).
Proof.
  unfold extract_signatures, CODE_EXTENSIONS, str_in. cbn [map existsb].
  destruct (str_eqb extension (lit_str ".py")) eqn:P;
  destruct (str_eqb extension (lit_str ".ts")) eqn:T;
  destruct (str_eqb extension (lit_str ".tsx")) eqn:TX;
  destruct (str_eqb extension (lit_str ".js")) eqn:J;
  destruct (str_eqb extension (lit_str ".jsx")) eqn:JX;
  destruct (str_eqb extension (lit_str ".sh")) eqn:S;
  cbn [orb]; (split; [intros H; try discriminate; reflexivity|]);
  intros H; try discriminate;
  (split; [auto|]);
  intros e He;
  unfold extract_python_signatures, extract_js_signatures,
    extract_shell_signatures; rewrite He; eexists; reflexivity.
Qed.

End TraversalFacts.

(** ** The project map *)

Section SortFacts.

Lemma str_leb_refl (a : str) : str_leb a a = true.
Proof.
  induction a as [|x a IH]; simpl; [reflexivity|].
  rewrite N.ltb_irrefl, N.eqb_refl. exact IH.
Qed.

Lemma str_leb_total (a b : str) : str_leb a b = true \/ str_leb b a = true.
Proof.
  revert b. induction a as [|x a IH]; intros [|y b]; simpl; auto.
  destruct (N.ltb x y) eqn:L1; [auto|].
  destruct (N.ltb y x) eqn:L2; [auto|].
  apply N.ltb_ge in L1, L2. assert (x = y) by lia. subst.
  rewrite N.eqb_refl. apply IH.
Qed.

Lemma str_leb_antisym (a b : str) :
  str_leb a b = true -> str_leb b a = true -> a = b.
Proof.
  revert b. induction a as [|x a IH]; intros [|y b]; simpl; try discriminate;
    [reflexivity|].
  destruct (N.ltb x y) eqn:L1.
  - apply N.ltb_lt in L1. intros _.
    replace (N.ltb y x) with false by (symmetry; apply N.ltb_ge; lia).
    replace (N.eqb y x) with false by (symmetry; apply N.eqb_neq; lia).
    discriminate.
  - destruct (N.eqb x y) eqn:E; [|discriminate].
    apply N.eqb_eq in E. subst. rewrite N.ltb_irrefl, N.eqb_refl.
    intros H1 H2. f_equal. apply IH; assumption.
Qed.

Lemma str_leb_trans (a b c : str) :
  str_leb a b = true -> str_leb b c = true -> str_leb a c = true.
Proof.
  revert b c. induction a as [|x a IH]; intros [|y b] [|z c]; simpl;
    try discriminate; try reflexivity.
  destruct (N.ltb x y) eqn:L1.
  - apply N.ltb_lt in L1. intros _.
    destruct (N.ltb y z) eqn:L2.
    + apply N.ltb_lt in L2. intros _.
      replace (N.ltb x z) with true by (symmetry; apply N.ltb_lt; lia).
      reflexivity.
    + destruct (N.eqb y z) eqn:E; [|discriminate].
      apply N.eqb_eq in E. subst. intros _.
      replace (N.ltb x z) with true by (symmetry; apply N.ltb_lt; lia).
      reflexivity.
  - destruct (N.eqb x y) eqn:E; [|discriminate].
    apply N.eqb_eq in E. subst. intros H1.
    destruct (N.ltb y z); [reflexivity|].
    destruct (N.eqb y z); [|discriminate]. apply IH, H1.
Qed.

Lemma insert_sorted_comm (x y : str) (l : list str) :
  insert_sorted x (insert_sorted y l) = insert_sorted y (insert_sorted x l).
Proof.
  induction l as [|z l IH]; simpl.
  - destruct (str_leb x y) eqn:XY, (str_leb y x) eqn:YX; try reflexivity.
    + rewrite (str_leb_antisym x y XY YX). reflexivity.
    + destruct (str_leb_total x y) as [H|H]; congruence.
  - destruct (str_leb y z) eqn:YZ, (str_leb x z) eqn:XZ; simpl.
    + destruct (str_leb x y) eqn:XY, (str_leb y x) eqn:YX;
        rewrite ?XZ, ?YZ; try reflexivity.
      * rewrite (str_leb_antisym x y XY YX). reflexivity.
      * destruct (str_leb_total x y) as [H|H]; congruence.
    + assert (XY : str_leb x y = false).
      { destruct (str_leb x y) eqn:XY; [|reflexivity].
        rewrite (str_leb_trans x y z XY YZ) in XZ. discriminate. }
      rewrite ?XY, ?YZ, ?XZ. simpl. rewrite ?XY, ?YZ, ?XZ. reflexivity.
    + assert (YX : str_leb y x = false).
      { destruct (str_leb y x) eqn:YX; [|reflexivity].
        rewrite (str_leb_trans y x z YX XZ) in YZ. discriminate. }
      rewrite ?YX, ?YZ, ?XZ. simpl. rewrite ?YX, ?YZ, ?XZ. reflexivity.
    + rewrite XZ, YZ, IH. reflexivity.
Qed.

(** Sorting forgets the order of the listing. *)
Lemma sort_names_perm (l l' : list str) :
  Permutation l l' -> sort_names l = sort_names l'.
Proof.
  intros P. induction P; simpl.
  - reflexivity.
  - rewrite IHP. reflexivity.
  - apply insert_sorted_comm.
  - congruence.
Qed.

Lemma in_insert_sorted (x y : str) (l : list str) :
  In y (insert_sorted x l) <-> y = x \/ In y l.
Proof.
  induction l as [|z l IH]; simpl.
  - intuition.
  - destruct (str_leb x z); simpl; [intuition|]. rewrite IH. intuition.
Qed.

Lemma in_sort_names (y : str) (l : list str) :
  In y (sort_names l) <-> In y l.
Proof.
  induction l as [|x l IH]; simpl; [reflexivity|].
  rewrite in_insert_sorted, IH. intuition.
Qed.

End SortFacts.

Section MapFacts.
Context {db : UnicodeDB}.

Lemma collect_lines_ext {A : Type} (f g : A -> option (list str))
    (l : list A) :
  (forall x, In x l -> f x = g x) -> collect_lines f l = collect_lines g l.
Proof.
  induction l as [|x l IH]; intros H; simpl; [reflexivity|].
  rewrite (H x (or_introl eq_refl)), IH; [reflexivity|].
  intros y Hy. apply H. right. exact Hy.
Qed.



Lemma extract_signatures_ext (fs fs' : filesystem) (filepath extension : str) :
  fs filepath = fs' filepath ->
  extract_signatures fs filepath extension
  = extract_signatures fs' filepath extension.
Proof.
  intros H. unfold extract_signatures, extract_python_signatures,
    extract_js_signatures, extract_shell_signatures.
  rewrite H. reflexivity.
Qed.


Lemma walk_S (fuel : nat) (fs : filesystem) (dirpath : str) (depth : nat)
    (name : str) (s : list (str * tree)) (f : list str) :
  walk (S fuel) fs dirpath depth name (Dir s f)
  = match collect_lines (file_block fs dirpath depth) (sort_names f),
          collect_lines
            (fun d => match subdir d s with
                      | Some t' => walk fuel fs (path_join dirpath d)
                                        (S depth) d t'
                      | None => Some []
                      end)
            (sort_names (filter (fun d => negb (should_ignore_dir d))
                                (map fst s))) with
    | Some files, Some below =>
        Some (dir_header depth name :: files ++ [[]] ++ below)
    | _, _ => None
    end.
Proof. reflexivity. Qed.



Lemma subdir_none (d : str) (s : list (str * tree)) :
  subdir d s = None -> ~ In d (map fst s).
Proof.
  induction s as [|[n t'] s IH]; simpl; [tauto|].
  destruct (str_eqb n d) eqn:E; [discriminate|].
  intros H [K|K].
  - subst. rewrite str_eqb_refl in E. discriminate.
  - exact (IH H K).
Qed.





(** *** What the map depends on *)

Lemma file_block_ext (fs fs' : filesystem) (dirpath : str) (depth : nat)
    (filename : str) :
  (should_ignore_file filename = false ->
   str_in (get_file_extension filename) CODE_EXTENSIONS = true ->
   fs (path_join dirpath filename) = fs' (path_join dirpath filename)) ->
  file_block fs dirpath depth filename = file_block fs' dirpath depth filename.
Proof.
  intros H. unfold file_block.
  destruct (should_ignore_file filename); [reflexivity|].
  destruct (str_in (get_file_extension filename) CODE_EXTENSIONS);
    [|reflexivity].
  rewrite (extract_signatures_ext fs fs' _ _ (H eq_refl eq_refl)).
  reflexivity.
Qed.

Lemma walk_ext (fs fs' : filesystem) (fuel : nat) (dirpath : str)
    (depth : nat) (name : str) (t : tree) :
  (forall p, opened dirpath t p -> fs p = fs' p) ->
  walk fuel fs dirpath depth name t = walk fuel fs' dirpath depth name t.
Proof.
  revert dirpath depth name t.
  induction fuel as [|fuel IH]; intros dirpath depth name [s f] H;
    [reflexivity|].
  rewrite !walk_S.
  rewrite (collect_lines_ext (file_block fs dirpath depth)
             (file_block fs' dirpath depth)).
  2:{ intros x Hx. apply file_block_ext. intros Hi Hc. apply H.
      apply opened_here; [apply in_sort_names; exact Hx|exact Hi|exact Hc]. }
  rewrite (collect_lines_ext
             (fun d => match subdir d s with
                       | Some t' => walk fuel fs (path_join dirpath d)
                                         (S depth) d t'
                       | None => Some []
                       end)
             (fun d => match subdir d s with
                       | Some t' => walk fuel fs' (path_join dirpath d)
                                         (S depth) d t'
                       | None => Some []
                       end)); [reflexivity|].
  intros d Hd. apply in_sort_names, filter_In in Hd. destruct Hd as [Hd Hn].
  destruct (subdir d s) as [t'|] eqn:E; [|reflexivity].
  apply IH. intros p Hp. apply H.
  apply (opened_below dirpath s f d t' p); auto.
  destruct (should_ignore_dir d); [discriminate|reflexivity].
Qed.

(** X16.  The map reads nothing but the code files that are not skipped, in
    directories that are not skipped: two file systems that agree on these
    paths give the same map, whatever the other files hold.  In particular
    the content of a file without a code extension, of a skipped file or of
    anything below a skipped directory never shows. *)
Theorem map_reads_only_opened_files
    (fs fs' : filesystem) (fuel : nat) (root_dir now : str) (t : tree) :
  (forall p, opened root_dir t p -> fs p = fs' p) ->
  generate_project_map fuel fs root_dir now (Some t)
  = generate_project_map fuel fs' root_dir now (Some t).
Proof.
  intros H. unfold generate_project_map.
  rewrite (walk_ext fs fs' fuel root_dir 0 [] t H). reflexivity.
Qed.

(** *** Skipped directories *)

Lemma prune_unfold (s : list (str * tree)) (f : list str) :
  prune (Dir s f) = Dir (prune_subdirs s) f.
Proof.
  reflexivity.
Qed.

Lemma prune_names (s : list (str * tree)) :
  map fst (prune_subdirs s)
  = filter (fun d => negb (should_ignore_dir d)) (map fst s).
Proof.
  induction s as [|[n t'] s IH]; simpl; [reflexivity|].
  destruct (should_ignore_dir n); simpl; rewrite IH; reflexivity.
Qed.

Lemma prune_lookup (d : str) (s : list (str * tree)) :
  should_ignore_dir d = false ->
  subdir d (prune_subdirs s) = option_map prune (subdir d s).
Proof.
  intros Hd. induction s as [|[n t'] s IH]; simpl; [reflexivity|].
  destruct (should_ignore_dir n) eqn:Hn; simpl.
  - destruct (str_eqb n d) eqn:E; [|exact IH].
    apply str_eqb_eq in E. subst. congruence.
  - destruct (str_eqb n d); [reflexivity|exact IH].
Qed.

Lemma filter_idem {A : Type} (p : A -> bool) (l : list A) :
  filter p (filter p l) = filter p l.
Proof.
  induction l as [|x l IH]; simpl; [reflexivity|].
  destruct (p x) eqn:E; simpl; rewrite ?E, IH; reflexivity.
Qed.

Lemma walk_prune (fs : filesystem) (fuel : nat) (dirpath : str)
    (depth : nat) (name : str) (t : tree) :
  walk fuel fs dirpath depth name (prune t)
  = walk fuel fs dirpath depth name t.
Proof.
  revert dirpath depth name t.
  induction fuel as [|fuel IH]; intros dirpath depth name [s f];
    [reflexivity|].
  rewrite prune_unfold, !walk_S, prune_names, filter_idem.
  rewrite (collect_lines_ext
             (fun d => match subdir d (prune_subdirs s) with
                       | Some t' => walk fuel fs (path_join dirpath d)
                                         (S depth) d t'
                       | None => Some []
                       end)
             (fun d => match subdir d s with
                       | Some t' => walk fuel fs (path_join dirpath d)
                                         (S depth) d t'
                       | None => Some []
                       end)); [reflexivity|].
  intros d Hd. apply in_sort_names, filter_In in Hd. destruct Hd as [_ Hn].
  rewrite prune_lookup
    by (destruct (should_ignore_dir d); [discriminate|reflexivity]).
  destruct (subdir d s) as [t'|]; simpl; [apply IH|reflexivity].
Qed.

(** X17.  A skipped directory leaves no trace in the map: the map of a tree
    is the map of the tree without its skipped directories, so that two
    trees that differ only inside skipped directories, or in which of them
    exist, have the same map. *)
Theorem skipped_directories_leave_no_trace
    (fs : filesystem) (fuel : nat) (root_dir now : str) (t : tree) :
  generate_project_map fuel fs root_dir now (Some (prune t))
  = generate_project_map fuel fs root_dir now (Some t) /\
  forall t', prune t = prune t' ->
    generate_project_map fuel fs root_dir now (Some t)
    = generate_project_map fuel fs root_dir now (Some t').
Proof.
  unfold generate_project_map. split.
  - rewrite (walk_prune fs fuel root_dir 0 [] t). reflexivity.
  - intros t' H.
    rewrite <- (walk_prune fs fuel root_dir 0 [] t),
            <- (walk_prune fs fuel root_dir 0 [] t'), H.
    reflexivity.
Qed.

(** *** The order of the listing *)

Lemma filter_perm {A : Type} (p : A -> bool) (l l' : list A) :
  Permutation l l' -> Permutation (filter p l) (filter p l').
Proof.
  intros P. induction P; simpl.
  - constructor.
  - destruct (p x); [constructor|]; assumption.
  - destruct (p x), (p y); try apply Permutation_refl.
    apply perm_swap.
  - eapply Permutation_trans; eassumption.
Qed.

Lemma walk_same_listing (fs : filesystem) (fuel : nat) (dirpath : str)
    (depth : nat) (name : str) (t t' : tree) :
  same_listing t t' ->
  walk fuel fs dirpath depth name t = walk fuel fs dirpath depth name t'.
Proof.
  revert dirpath depth name t t'.
  induction fuel as [|fuel IH]; intros dirpath depth name t t' H;
    [reflexivity|].
  destruct H as [s s' f f' Pf Ps Hs].
  rewrite !walk_S.
  rewrite (sort_names_perm f f' Pf).
  rewrite (sort_names_perm _ _
             (filter_perm (fun d => negb (should_ignore_dir d)) _ _ Ps)).
  rewrite (collect_lines_ext
             (fun d => match subdir d s with
                       | Some t' => walk fuel fs (path_join dirpath d)
                                         (S depth) d t'
                       | None => Some []
                       end)
             (fun d => match subdir d s' with
                       | Some t' => walk fuel fs (path_join dirpath d)
                                         (S depth) d t'
                       | None => Some []
                       end)); [reflexivity|].
  intros d Hd. apply in_sort_names, filter_In in Hd. destruct Hd as [Hd _].
  destruct (subdir d s) as [a|] eqn:E, (subdir d s') as [b|] eqn:E'.
  - apply IH. exact (Hs d a b E E').
  - exfalso. exact (subdir_none d s' E' Hd).
  - exfalso. apply (subdir_none d s E).
    apply (Permutation_in d (Permutation_sym Ps) Hd).
  - reflexivity.
Qed.

(** X18.  The map does not depend on the order in which the file system
    lists a directory: two trees with the same directories and files, each
    directory listed in whatever order, have the same map. *)
Theorem listing_order_does_not_matter
    (fs : filesystem) (fuel : nat) (root_dir now : str) (t t' : tree) :
  same_listing t t' ->
  generate_project_map fuel fs root_dir now (Some t)
  = generate_project_map fuel fs root_dir now (Some t').
Proof.
  intros H. unfold generate_project_map.
  rewrite (walk_same_listing fs fuel root_dir 0 [] t t' H). reflexivity.
Qed.

(** *** Skipped files *)

Lemma insert_sorted_sorted (x : str) (l : list str) :
  StronglySorted (fun a b => str_leb a b = true) l ->
  StronglySorted (fun a b => str_leb a b = true) (insert_sorted x l).
Proof.
  induction l as [|z l IH]; intros S; simpl.
  - constructor; constructor.
  - apply StronglySorted_inv in S. destruct S as [S F].
    destruct (str_leb x z) eqn:XZ.
    + constructor; [constructor; assumption|].
      constructor; [exact XZ|].
      apply Forall_forall. intros y Hy.
      apply (str_leb_trans x z y XZ).
      exact (proj1 (Forall_forall _ _) F y Hy).
    + constructor; [apply IH; exact S|].
      apply Forall_forall. intros y Hy.
      apply in_insert_sorted in Hy. destruct Hy as [Hy|Hy].
      * subst. destruct (str_leb_total x z) as [H|H]; congruence.
      * exact (proj1 (Forall_forall _ _) F y Hy).
Qed.

(** The sorted names are in order, code point by code point, and they are
    the names of the listing. *)
Lemma sort_names_sorted (l : list str) :
  StronglySorted (fun a b => str_leb a b = true) (sort_names l).
Proof.
  induction l as [|x l IH]; simpl; [constructor|].
  apply insert_sorted_sorted, IH.
Qed.

Lemma insert_sorted_permutation (x : str) (l : list str) :
  Permutation (x :: l) (insert_sorted x l).
Proof.
  induction l as [|z l IH]; simpl; [apply Permutation_refl|].
  destruct (str_leb x z); [apply Permutation_refl|].
  eapply Permutation_trans; [apply perm_swap|].
  apply perm_skip, IH.
Qed.

Lemma sort_names_permutation (l : list str) :
  Permutation l (sort_names l).
Proof.
  induction l as [|x l IH]; simpl; [constructor|].
  eapply Permutation_trans; [apply perm_skip, IH|].
  apply insert_sorted_permutation.
Qed.

Lemma insert_sorted_below (x : str) (l : list str) :
  Forall (fun y => str_leb x y = true) l -> insert_sorted x l = x :: l.
Proof.
  intros F. destruct l as [|z l]; simpl; [reflexivity|].
  apply Forall_inv in F. rewrite F. reflexivity.
Qed.

Lemma filter_insert_sorted (p : str -> bool) (x : str) (l : list str) :
  StronglySorted (fun a b => str_leb a b = true) l ->
  filter p (insert_sorted x l)
  = if p x then insert_sorted x (filter p l) else filter p l.
Proof.
  induction l as [|z l IH]; intros S.
  - simpl. destruct (p x); reflexivity.
  - pose proof (StronglySorted_inv S) as [S' F].
    cbn [insert_sorted]. destruct (str_leb x z) eqn:XZ.
    + cbn [filter]. destruct (p x); [|reflexivity].
      symmetry. apply (insert_sorted_below x (filter p (z :: l))).
      apply Forall_forall. intros y Hy. apply filter_In in Hy.
      destruct Hy as [[Hy|Hy] _].
      * subst. exact XZ.
      * apply (str_leb_trans x z y XZ).
        exact (proj1 (Forall_forall _ _) F y Hy).
    + cbn [filter]. rewrite (IH S').
      destruct (p x), (p z); try reflexivity.
      cbn [insert_sorted]. rewrite XZ. reflexivity.
Qed.

Lemma sort_names_filter (p : str -> bool) (l : list str) :
  sort_names (filter p l) = filter p (sort_names l).
Proof.
  induction l as [|x l IH]; simpl; [reflexivity|].
  rewrite (filter_insert_sorted p x _ (sort_names_sorted l)).
  destruct (p x); simpl; rewrite IH; reflexivity.
Qed.

Lemma collect_lines_skipped (fs : filesystem) (dirpath : str) (depth : nat)
    (l : list str) :
  collect_lines (file_block fs dirpath depth)
    (filter (fun f => negb (should_ignore_file f)) l)
  = collect_lines (file_block fs dirpath depth) l.
Proof.
  induction l as [|x l IH]; simpl; [reflexivity|].
  destruct (should_ignore_file x) eqn:E; simpl.
  - unfold file_block at 2. rewrite E, IH.
    destruct (collect_lines _ l); reflexivity.
  - rewrite IH. reflexivity.
Qed.

Lemma subdir_map (g : tree -> tree) (d : str) (s : list (str * tree)) :
  subdir d (map (fun p => (fst p, g (snd p))) s) = option_map g (subdir d s).
Proof.
  induction s as [|[n t'] s IH]; simpl; [reflexivity|].
  destruct (str_eqb n d); [reflexivity|exact IH].
Qed.

Lemma walk_without_skipped_files (fs : filesystem) (fuel : nat)
    (dirpath : str) (depth : nat) (name : str) (t : tree) :
  walk fuel fs dirpath depth name (without_skipped_files t)
  = walk fuel fs dirpath depth name t.
Proof.
  revert dirpath depth name t.
  induction fuel as [|fuel IH]; intros dirpath depth name [s f];
    [reflexivity|].
  cbn [without_skipped_files]. rewrite !walk_S.
  rewrite sort_names_filter, collect_lines_skipped, map_map.
  cbn [fst]. 
  rewrite (collect_lines_ext
             (fun d => match subdir d (map (fun p => (fst p,
                                 without_skipped_files (snd p))) s) with
                       | Some t' => walk fuel fs (path_join dirpath d)
                                         (S depth) d t'
                       | None => Some []
                       end)
             (fun d => match subdir d s with
                       | Some t' => walk fuel fs (path_join dirpath d)
                                         (S depth) d t'
                       | None => Some []
                       end)); [reflexivity|].
  intros d _. rewrite subdir_map.
  destruct (subdir d s) as [t'|]; simpl; [apply IH|reflexivity].
Qed.

(** X19.  A skipped file leaves no trace in the map: the map of a tree is
    the map of the tree without its skipped files, so that two trees that
    differ only in skipped files have the same map. *)
Theorem skipped_files_leave_no_trace
    (fs : filesystem) (fuel : nat) (root_dir now : str) (t : tree) :
  generate_project_map fuel fs root_dir now (Some (without_skipped_files t))
  = generate_project_map fuel fs root_dir now (Some t) /\
  forall t', without_skipped_files t = without_skipped_files t' ->
    generate_project_map fuel fs root_dir now (Some t)
    = generate_project_map fuel fs root_dir now (Some t').
Proof.
  unfold generate_project_map. split.
  - rewrite (walk_without_skipped_files fs fuel root_dir 0 [] t).
    reflexivity.
  - intros t' H.
    rewrite <- (walk_without_skipped_files fs fuel root_dir 0 [] t),
            <- (walk_without_skipped_files fs fuel root_dir 0 [] t'), H.
    reflexivity.
Qed.

(** *** The shape of the map *)


Lemma collect_lines_last {A : Type} (f : A -> option (list str))
    (l : list A) (r : list str) :
  (forall x a, In x l -> f x = Some a ->
     a = [] \/ exists a', a = a' ++ [[]]) ->
  collect_lines f l = Some r -> r = [] \/ exists r', r = r' ++ [[]].
Proof.
  revert r. induction l as [|x l IH]; intros r H; simpl.
  - intros E. injection E as E. subst. left. reflexivity.
  - destruct (f x) as [a|] eqn:Fx; [|discriminate].
    destruct (collect_lines f l) as [b|] eqn:Fl; [|discriminate].
    intros E. injection E as E. subst.
    assert (Hb : b = [] \/ exists b', b = b' ++ [[]])
      by (apply IH; [intros y c Hy; apply H; right; exact Hy|reflexivity]).
    destruct Hb as [Hb|[b' Hb]]; subst.
    + rewrite app_nil_r. apply (H x a); [left; reflexivity|exact Fx].
    + right. exists (a ++ b'). rewrite app_assoc. reflexivity.
Qed.

Lemma walk_last (fs : filesystem) (fuel : nat) (dirpath : str)
    (depth : nat) (name : str) (t : tree) (r : list str) :
  walk fuel fs dirpath depth name t = Some r ->
  exists r', r = (dir_header depth name :: r') ++ [[]].
Proof.
  revert dirpath depth name t r.
  induction fuel as [|fuel IH]; intros dirpath depth name [s f] r;
    [discriminate|].
  rewrite walk_S.
  destruct (collect_lines (file_block fs dirpath depth) (sort_names f))
    as [files|]; [|discriminate].
  destruct (collect_lines _ (sort_names (filter _ (map fst s))))
    as [below|] eqn:B; [|discriminate].
  intros E. injection E as E. subst.
  apply collect_lines_last in B.
  - destruct B as [B|[b' B]]; subst.
    + exists files. reflexivity.
    + exists (files ++ [[]] ++ b').
      cbn [app]. f_equal. rewrite <- !app_assoc. reflexivity.
  - intros d a _. destruct (subdir d s) as [t'|].
    + intros W. destruct (IH _ _ _ _ _ W) as [r' R]. right.
      eexists. exact R.
    + intros W. injection W as W. subst. left. reflexivity.
Qed.

Lemma join_lines_cons (x : str) (l : list str) :
  l <> [] -> join_lines (x :: l) = x ++ 10%N :: join_lines l.
Proof. destruct l; [congruence|reflexivity]. Qed.

Lemma join_lines_snoc_empty (l : list str) :
  l <> [] -> join_lines (l ++ [[]]) = join_lines l ++ [10%N].
Proof.
  induction l as [|x l IH]; intros H; [congruence|].
  destruct l as [|y l].
  - simpl. reflexivity.
  - change ((x :: y :: l) ++ [[]]) with (x :: (y :: l) ++ [[]]).
    rewrite join_lines_cons by (simpl; discriminate).
    rewrite IH by discriminate.
    rewrite (join_lines_cons x (y :: l)) by discriminate.
    rewrite <- app_assoc. reflexivity.
Qed.

Lemma join_lines_app (a b : list str) :
  a <> [] -> b <> [] ->
  join_lines (a ++ b) = join_lines a ++ 10%N :: join_lines b.
Proof.
  induction a as [|x a IH]; intros Ha Hb; [congruence|].
  destruct a as [|y a].
  - simpl app. apply join_lines_cons. exact Hb.
  - change ((x :: y :: a) ++ b) with (x :: (y :: a) ++ b).
    rewrite join_lines_cons by (simpl; discriminate).
    rewrite IH by (assumption || discriminate).
    rewrite (join_lines_cons x (y :: a)) by discriminate.
    rewrite <- app_assoc. reflexivity.
Qed.

Lemma join_lines_frame (h : list str) (x : str) (r : list str) :
  h <> [] ->
  exists middle,
    join_lines (h ++ (x :: r) ++ [[]])
    = join_lines h ++ 10%N :: x ++ middle ++ [10%N].
Proof.
  intros H.
  rewrite join_lines_app; [|exact H|discriminate].
  rewrite join_lines_snoc_empty by discriminate.
  destruct r as [|y r].
  - exists []. reflexivity.
  - rewrite join_lines_cons by discriminate.
    exists (10%N :: join_lines (y :: r)).
    rewrite <- !app_assoc. reflexivity.
Qed.

Lemma join_lines_header_ends (project_name now : str) :
  exists m',
    join_lines (map_header project_name now) = m' ++ [10%N].
Proof.
  unfold map_header.
  match goal with
  | |- exists m', join_lines [?a; ?b; ?c; ?d; ?e; ?f; ?g; ?h; []] = _ =>
      change [a; b; c; d; e; f; g; h; []]
        with ([a; b; c; d; e; f; g; h] ++ [[]])
  end.
  rewrite join_lines_snoc_empty by discriminate.
  eexists. reflexivity.
Qed.

(** X20.  The text of the map always opens with its fixed header, in which
    the name of the project and the time of the run stand, and always ends
    with a line feed.  For a root that cannot be listed the map is this
    header and nothing more; for a root that is listed the header is
    followed by the header of the root directory. *)
Theorem map_text_frame
    (fs : filesystem) (fuel : nat) (root_dir now : str) :
  generate_project_map fuel fs root_dir now None
  = Some (join_lines (map_header (path_name root_dir) now)) /\
  (forall t m,
     generate_project_map fuel fs root_dir now (Some t) = Some m ->
     exists middle,
       m = join_lines (map_header (path_name root_dir) now)
           ++ 10%N :: (lit_str "## " ++ FOLDER ++ lit_str " / (root)")
           ++ middle ++ [10%N]) /\
  (forall root m,
     generate_project_map fuel fs root_dir now root = Some m ->
     (exists rest,
        m = join_lines (map_header (path_name root_dir) now) ++ rest) /\
     (exists m', m = m' ++ [10%N])).
Proof.
  assert (Listed : forall t m,
     generate_project_map fuel fs root_dir now (Some t) = Some m ->
     exists middle,
       m = join_lines (map_header (path_name root_dir) now)
           ++ 10%N :: (lit_str "## " ++ FOLDER ++ lit_str " / (root)")
           ++ middle ++ [10%N]).
  { intros t m. unfold generate_project_map.
    destruct (walk fuel fs root_dir 0 [] t) as [r|] eqn:W; [|discriminate].
    intros E.
    apply (f_equal (fun o => match o with Some v => v | None => [] end)) in E.
    subst m.
    destruct (walk_last _ _ _ _ _ _ _ W) as [r' R]. subst r.
    apply (join_lines_frame (map_header (path_name root_dir) now)
             (dir_header 0 []) r').
    unfold map_header. discriminate. }
  split; [reflexivity|]. split; [exact Listed|].
  intros [t|] m E.
  - destruct (Listed t m E) as [middle M]. split.
    + eexists. exact M.
    + exists (join_lines (map_header (path_name root_dir) now)
              ++ 10%N :: (lit_str "## " ++ FOLDER ++ lit_str " / (root)")
              ++ middle).
      rewrite M, <- !app_assoc. cbn [app]. rewrite <- !app_assoc.
      reflexivity.
  - apply (f_equal (fun o => match o with Some v => v | None => [] end)) in E.
    cbn beta iota delta [generate_project_map] in E. subst m. split.
    + exists []. rewrite app_nil_r. reflexivity.
    + apply join_lines_header_ends.
Qed.

(** *** Nesting shows as indentation *)








End MapFacts.

(** ** The further properties at concrete inputs *)

Ltac absent_char :=
  let H := fresh "H" in
  intros H; vm_compute in H;
  repeat (destruct H as [H|H]; [discriminate H|]); exact H.

(** X1 at a decorated function: the list is one group, the decorator and
    the header it is attached to, and the header again. *)
Lemma py_signatures_are_grouped_witness :
  let bytes := line_of "@cache" ++ line_of "def f():" in
  py_grouped (file_lines bytes)
    [lit_str "@cache"; lit_str "def f()"; lit_str "def f()"].
Proof.
  intros bytes.
  apply (proj1 (py_signatures_are_grouped (fun _ => Content bytes)
                  (lit_str "a.py") bytes _ eq_refl)).
  vm_compute. reflexivity.
Defined.

(** X2 at a file without decorators. *)
Lemma py_without_decorators_is_linewise_witness :
  let bytes := line_of "class A:" ++ line_of "    x = 1" in
  extract_python_signatures (fun _ => Content bytes) (lit_str "a.py")
  = Some [lit_str "class A"].
Proof.
  intros bytes.
  rewrite (py_without_decorators_is_linewise (fun _ => Content bytes)
             (lit_str "a.py") bytes eq_refl).
  - vm_compute. reflexivity.
  - intros l H. vm_compute in H.
    destruct H as [H|[H|[]]]; subst l; vm_compute; discriminate.
Defined.

(** X3 at a header whose parameter list goes on in the next line. *)
Lemma lines_without_closing_mark_match_nothing_witness :
  re_match PY_FUNC_PATTERN (line_of "def f(a,") = None /\
  re_match JS_FUNC_PATTERN (line_of "def f(a,") = None.
Proof.
  assert (H : ~ In (chr ")") (line_of "def f(a,")) by absent_char.
  split.
  - exact (proj1 (proj1 lines_without_closing_mark_match_nothing _ H)).
  - exact (proj1 (proj2 (proj1 lines_without_closing_mark_match_nothing _ H))).
Defined.

(** X4 at a line that closes a block. *)
Lemma other_lines_yield_nothing_witness :
  js_line (line_of "  });") = None /\ sh_line (line_of "  });") = None.
Proof.
  assert (H : starts_with (fun c => negb (wordlike c))
                (lstrip (line_of "  });"))).
  { right. vm_compute. eexists. eexists. split; reflexivity. }
  split.
  - exact (proj1 (proj2 (proj2 (proj1 other_lines_yield_nothing _ H)))).
  - exact (proj2 (proj2 (proj2 (proj1 other_lines_yield_nothing _ H)))).
Defined.

(** X5 at a class with its body on the same line. *)
Lemma py_header_is_cut_before_colon_witness :
  exists tail,
    line_of "class A(B): pass" = lit_str "class A(B)" ++ chr ":" :: tail.
Proof.
  apply (proj1 py_header_is_cut_before_colon). vm_compute. reflexivity.
Defined.

(** X6 at a decorator followed by a decorator that is indented. *)
Lemma indent_change_drops_decorators_witness :
  let lines := [line_of "@a"; line_of "  @b"; line_of "  def f():"] in
  py_iter 3 lines 0 [] = Some (1, []).
Proof.
  intros lines.
  refine (proj1 (indent_change_drops_decorators
            [] [line_of "@a"] [line_of "  def f():"] [lit_str "@a"]
            [] (lit_str "  ") (line_of "  @b") (lit_str "@b") []
            _ _ _ _)).
  - discriminate.
  - constructor; [vm_compute; reflexivity|constructor].
  - vm_compute. reflexivity.
  - discriminate.
Defined.

(** X8 at a shell function. *)
Lemma entries_are_excerpts_witness :
  is_prefix (lit_str "deploy() {") (line_of "deploy() {   # go") /\
  ends_visible (lit_str "deploy() {").
Proof.
  apply (proj1 entries_are_excerpts). vm_compute. reflexivity.
Defined.

(** X9 at a shell file. *)
Lemma entries_hold_no_line_feed_witness :
  extract_shell_signatures
    (fun _ => Content (line_of "deploy() {" ++ line_of "}")) (lit_str "a.sh")
  = [lit_str "deploy() {"] /\
  ~ In 10%N (lit_str "deploy() {").
Proof.
  split; [vm_compute; reflexivity|].
  apply (proj2 (proj2 (entries_hold_no_line_feed
           (fun _ => Content (line_of "deploy() {" ++ line_of "}"))
           (lit_str "a.sh") _ eq_refl)) (lit_str "deploy() {")).
  vm_compute. left. reflexivity.
Defined.

(** X10 at the directory of a version control system. *)
Lemma hidden_directories_are_ignored_witness :
  should_ignore_dir (lit_str ".github") = true.
Proof.
  apply (proj2 (hidden_directories_are_ignored (lit_str ".github"))).
  vm_compute. reflexivity.
Defined.

(** X12 at a name with two dots and capital letters. *)
Lemma extension_is_last_suffix_witness :
  get_file_extension (lit_str "api.test.TS") = lit_str ".ts".
Proof.
  rewrite (proj1 extension_is_last_suffix (lit_str "api.test")
             (lit_str "TS")).
  - vm_compute. reflexivity.
  - discriminate.
  - discriminate.
  - absent_char.
  - absent_char.
Defined.

(** X13 at a code file and at its minified form. *)
Lemma code_files_are_skipped_only_when_minified_witness :
  should_ignore_file (lit_str "app.js") = false /\
  should_ignore_file (lit_str "app.min.ts") = true.
Proof.
  split.
  - rewrite (code_files_are_skipped_only_when_minified (lit_str "app.js")).
    + vm_compute. reflexivity.
    + absent_char.
    + vm_compute. reflexivity.
  - rewrite (code_files_are_skipped_only_when_minified
               (lit_str "app.min.ts")).
    + vm_compute. reflexivity.
    + absent_char.
    + vm_compute. reflexivity.
Defined.

(** X14 at an extension that is no code extension, and at a Python file
    that cannot be read. *)
Lemma dispatch_agrees_with_code_extensions_witness :
  extract_signatures (fun _ => Content (line_of "def f():"))
    (lit_str "a.md") (lit_str ".md") = Some [] /\
  exists d,
    extract_signatures (fun _ => Unreadable (lit_str "denied"))
      (lit_str "a.py") (lit_str ".py") = Some [d].
Proof.
  split.
  - apply (proj1 (dispatch_agrees_with_code_extensions _ _ _)).
    vm_compute. reflexivity.
  - apply (proj2 (proj2 (dispatch_agrees_with_code_extensions
                           (fun _ => Unreadable (lit_str "denied"))
                           (lit_str "a.py") (lit_str ".py")) eq_refl)
             (lit_str "denied")).
    reflexivity.
Defined.


(** X16 at two file systems that differ in a text file. *)
Lemma map_reads_only_opened_files_witness :
  let t := Dir [] [lit_str "README.md"] in
  generate_project_map 1 (fun _ => Content (line_of "def f():"))
    (lit_str "/r") (lit_str "now") (Some t)
  = generate_project_map 1 (fun _ => Unreadable (lit_str "denied"))
      (lit_str "/r") (lit_str "now") (Some t).
Proof.
  intros t. apply map_reads_only_opened_files.
  intros p H. exfalso. inversion H as [s f x Hx Hi Hc|s f d t' q Hd]; subst.
  - destruct Hx as [Hx|[]]. subst x. vm_compute in Hc. discriminate.
  - destruct Hd.
Defined.

(** X17 at a tree with a directory of installed packages. *)
Lemma skipped_directories_leave_no_trace_witness :
  let fs := fun _ : str => Content (line_of "def f():") in
  generate_project_map 2 fs (lit_str "/r") (lit_str "now")
    (Some (Dir [(lit_str "node_modules", Dir [] [lit_str "index.js"])]
               [lit_str "a.py"]))
  = generate_project_map 2 fs (lit_str "/r") (lit_str "now")
      (Some (Dir [] [lit_str "a.py"])).
Proof.
  intros fs.
  apply (proj2 (skipped_directories_leave_no_trace fs 2 (lit_str "/r")
                  (lit_str "now") _)).
  reflexivity.
Defined.

(** X18 at two listings of the same directory. *)
Lemma listing_order_does_not_matter_witness :
  let fs := fun _ : str => Content (line_of "def f():") in
  generate_project_map 2 fs (lit_str "/r") (lit_str "now")
    (Some (Dir [(lit_str "b", Dir [] []); (lit_str "a", Dir [] [])]
               [lit_str "y.py"; lit_str "x.py"]))
  = generate_project_map 2 fs (lit_str "/r") (lit_str "now")
      (Some (Dir [(lit_str "a", Dir [] []); (lit_str "b", Dir [] [])]
                 [lit_str "x.py"; lit_str "y.py"])).
Proof.
  intros fs. apply listing_order_does_not_matter.
  assert (E : same_listing (Dir [] []) (Dir [] [])).
  { constructor; [apply perm_nil|apply perm_nil|discriminate]. }
  constructor.
  - apply perm_swap.
  - apply perm_swap.
  - intros d t t' H1 H2. cbn [subdir] in H1, H2.
    destruct (str_eqb (lit_str "b") d), (str_eqb (lit_str "a") d);
      try discriminate;
      injection H1 as H1; injection H2 as H2; subst; exact E.
Defined.

(** X19 at a tree with a lock file. *)
Lemma skipped_files_leave_no_trace_witness :
  let fs := fun _ : str => Content (line_of "def f():") in
  generate_project_map 1 fs (lit_str "/r") (lit_str "now")
    (Some (Dir [] [lit_str "yarn.lock"; lit_str "a.py"; lit_str "logo.png"]))
  = generate_project_map 1 fs (lit_str "/r") (lit_str "now")
      (Some (Dir [] [lit_str "a.py"])).
Proof.
  intros fs.
  apply (proj2 (skipped_files_leave_no_trace fs 1 (lit_str "/r")
                  (lit_str "now") _)).
  vm_compute. reflexivity.
Defined.

(** X20 at an empty project, and at a root that cannot be listed. *)
Lemma map_text_frame_witness :
  (exists middle,
     join_lines (map_header (lit_str "shop") (lit_str "now")
                 ++ [lit_str "## " ++ FOLDER ++ lit_str " / (root)"; []])
     = join_lines (map_header (path_name (lit_str "/home/shop"))
                     (lit_str "now"))
       ++ 10%N :: (lit_str "## " ++ FOLDER ++ lit_str " / (root)")
       ++ middle ++ [10%N]) /\
  generate_project_map 1 (fun _ => Content []) (lit_str "/home/shop")
    (lit_str "now") None
  = Some (join_lines (map_header (lit_str "shop") (lit_str "now"))).
Proof.
  split.
  - apply (proj1 (proj2 (map_text_frame (fun _ => Content []) 1
                           (lit_str "/home/shop") (lit_str "now")))
             (Dir [] [])).
    vm_compute. reflexivity.
  - exact (proj1 (map_text_frame (fun _ => Content []) 1
                    (lit_str "/home/shop") (lit_str "now"))).
Defined.

